(** * yeet / catch: a shallow embedding of the daemon's decision logic

    The development follows the Go sources of the [catch] daemon
    (pkg/catch, pkg/ftdetect, pkg/svc) and the web UI helper
    (pkg/catch/web/lib/status.js).  Each module embeds one source unit:

    - [GoInt]     Go's [int] with its wrap-around;
    - [DB]        the parts of the on-host store the handlers touch;
    - [Rollback]  [rollbackCmdFunc]                     (pkg/catch/tty.go);
    - [Auth]      [overlaps], [verifyCaller]            (pkg/catch/catch.go);
    - [Events]    [PublishEvent] and the listener set   (pkg/catch/catch.go);
    - [Strings], [Filepath]  the library helpers the handlers call;
    - [Registry]  [ServeHTTP], [SetManifest]            (registry front-end);
    - [Ftdetect]  [detect] and its probes               (pkg/ftdetect);
    - [Remove]    [IsServiceRunning], [RemoveService]   (pkg/catch/catch.go);
    - [Status]    [statusToState]                       (web/lib/status.js);
    - [Sftp]      [resolvePath], [Fileread], [Filewrite] (SFTP subsystem).

    The second part proves further properties of these embeddings and adds
    the commands around them: [RemoveCmd] ([removeCmdFunc]), [Mount]
    ([mountCmdFunc], [umountCmdFunc]) and [Cli]
    ([MergeUndefinedFlagsIntoArgs]).

    External collaborators (the mesh-VPN client, the YAML and ELF
    parsers, the supervisor, the disk) appear as section variables or as
    explicit oracle arguments: the handlers are functions of what those
    calls return. *)

From Stdlib Require Import ZArith Lia String List Ascii Bool.
From stdpp Require Import base option gmap strings list.

Import ListNotations.
Local Open Scope Z_scope.

(** ** Go's [int] on the 64-bit targets the daemon is built for *)

Module GoInt.

Definition int_min : Z := - 2 ^ 63.
Definition int_max : Z := 2 ^ 63 - 1.

(** Two's-complement wrap-around of a mathematical integer into [int]. *)
Definition wrap (z : Z) : Z := (z + 2 ^ 63) mod 2 ^ 64 - 2 ^ 63.

Definition sub (a b : Z) : Z := wrap (a - b).

Definition in_range (z : Z) : Prop := int_min <= z <= int_max.

Lemma wrap_in_range z : in_range z -> wrap z = z.
Proof.
  unfold in_range, int_min, int_max, wrap. intros Hz.
  rewrite Z.mod_small by lia. lia.
Qed.

Lemma wrap_range z : in_range (wrap z).
Proof.
  unfold in_range, int_min, int_max, wrap.
  pose proof (Z.mod_pos_bound (z + 2 ^ 63) (2 ^ 64) ltac:(lia)). lia.
Qed.

End GoInt.

(** ** The store (package db)

    The records keep the fields of [db.Data], [db.Service] and
    [db.ImageRepo] that the handlers read and write, under the names the
    handlers use. *)

Module DB.

Inductive ServiceType : Type :=
| ServiceTypeSystemd
| ServiceTypeDockerCompose
| ServiceTypeOther (raw : string).

(** Modelled from the spec: the artifact index of a service, [db.ArtifactStore],
    a map from artifact name to its references (symbolic reference or
    generation label, each naming a path on disk). *)
Abbreviation ArtifactStore := (gmap string (gmap string string)).

(** The mesh-VPN part of a service's network spec: [TSNet().Valid()] is
    [Some], and the stable node id is the empty string when zero. *)
Record TailscaleNetwork : Type := mkTSNet {
  StableID : string
}.

Record Service : Type := mkService {
  Name : string;
  SvcType : ServiceType;
  Generation : Z;
  LatestGeneration : Z;
  Artifacts : ArtifactStore;
  TSNet : option TailscaleNetwork
}.

Record ImageManifest : Type := mkImageManifest {
  ContentType : string;
  BlobHash : string
}.

Record ImageRepo : Type := mkImageRepo {
  Refs : gmap string ImageManifest
}.

Record Data : Type := mkData {
  Services : gmap string Service;
  Images : gmap string ImageRepo
}.

Definition set_Generation (s : Service) (g : Z) : Service :=
  mkService (Name s) (SvcType s) g (LatestGeneration s) (Artifacts s) (TSNet s).

Definition set_Services (d : Data) (m : gmap string Service) : Data :=
  mkData m (Images d).

Definition set_Images (d : Data) (m : gmap string ImageRepo) : Data :=
  mkData (Services d) m.

(** A service entry as [MutateService] creates it when the name is absent:
    every field at its zero value except the name. *)
Definition newService (name : string) : Service :=
  mkService name (ServiceTypeOther "") 0 0 ∅ None.

(** Modelled from the spec: [MutateService(name, fn)], the store's
    read-modify-write on one service.  The service is created if absent;
    [fn] works on a copy and aborts the mutation by returning an error, in
    which case the stored data is what it was. *)
Definition MutateService {E : Type} (d : Data) (name : string)
    (fn : Data -> Service -> E + Service) : Data * (E + Service) :=
  let s := default (newService name) (Services d !! name) in
  match fn d s with
  | inl e => (d, inl e)
  | inr s' => (set_Services d (<[name := s']> (Services d)), inr s')
  end.

(** Modelled from the spec: [MutateData(fn)], read-modify-write on the whole
    document, for an [fn] that cannot fail. *)
Definition MutateData (d : Data) (fn : Data -> Data) : Data := fn d.

End DB.

(** ** rollback (pkg/catch/tty.go, rollbackCmdFunc) *)

Module Rollback.
Import DB.

Inductive error : Type :=
| ErrNoGeneration
| ErrTooOld (gen minG : Z)
| ErrOldest (generation : Z)
| ErrRollback (cause : error)
| ErrCreateInstaller (cause : error)
| ErrInstaller (msg : string).

Section WithRetention.

(** The retention window [maxGenerations], a package-level constant of the
    daemon; the development is parametric in its value. *)
Variable maxGenerations : Z.

(** The closure passed to [MutateService]. *)
Definition rollbackFn (_ : Data) (s : Service) : error + Service :=
  if Generation s =? 0 then inl ErrNoGeneration
  else
    let minG := GoInt.sub (LatestGeneration s) maxGenerations in
    let gen := GoInt.sub (Generation s) 1 in
    if gen <? minG then inl (ErrTooOld gen minG)
    else if gen =? 0 then inl (ErrOldest (Generation s))
    else inr (set_Generation s gen).

(** [rollbackCmdFunc]: mutate the store, then hand the selected generation
    to an installer.  [newInstaller] is the error of [NewInstaller], if any,
    and [installGen] the error of [InstallGen] for a generation, if any. *)
Definition rollbackCmdFunc (d : Data) (sn : string)
    (newInstaller : option error) (installGen : Z -> option error)
    : Data * option error :=
  match MutateService d sn rollbackFn with
  | (d', inl e) => (d', Some (ErrRollback e))
  | (d', inr s) =>
      match newInstaller with
      | Some e => (d', Some (ErrCreateInstaller e))
      | None => (d', installGen (Generation s))
      end
  end.

End WithRetention.

(** The generation the store holds for [sn], zero for an absent service. *)
Definition generationOf (d : Data) (sn : string) : Z :=
  Generation (default (newService sn) (Services d !! sn)).

Definition latestOf (d : Data) (sn : string) : Z :=
  LatestGeneration (default (newService sn) (Services d !! sn)).

(** *** Properties of rollback *)

Lemma rollbackFn_spec (N : Z) (d : Data) (s : Service) :
  0 <= Generation s <= LatestGeneration s ->
  LatestGeneration s <= GoInt.int_max ->
  0 <= N <= GoInt.int_max ->
  rollbackFn N d s =
    if Generation s =? 0 then inl ErrNoGeneration
    else if Generation s - 1 <? LatestGeneration s - N
      then inl (ErrTooOld (Generation s - 1) (LatestGeneration s - N))
    else if Generation s - 1 =? 0 then inl (ErrOldest (Generation s))
    else inr (set_Generation s (Generation s - 1)).
Proof.
  intros Hg HL HN. unfold rollbackFn, GoInt.sub.
  rewrite !GoInt.wrap_in_range; [reflexivity | |];
    unfold GoInt.in_range, GoInt.int_min, GoInt.int_max in *; lia.
Qed.

Lemma generationOf_insert (d : Data) (sn : string) (s : Service) :
  generationOf (set_Services d (<[sn := s]> (Services d))) sn = Generation s.
Proof. unfold generationOf, set_Services. simpl. by rewrite lookup_insert_eq. Qed.

Lemma latestOf_insert (d : Data) (sn : string) (s : Service) :
  latestOf (set_Services d (<[sn := s]> (Services d))) sn = LatestGeneration s.
Proof. unfold latestOf, set_Services. simpl. by rewrite lookup_insert_eq. Qed.

(** The command goes through for a service [app] at generation [g] with
    latest generation [L], when the installer raises no error. *)
Definition rollbackSucceeds (N g L : Z) : Prop :=
  let d := mkData {[ "app"%string :=
                       mkService "app" ServiceTypeSystemd g L ∅ None ]} ∅ in
  snd (rollbackCmdFunc N d "app" None (fun _ => None)) = None.

(** C1, the claim as written fails, whatever the retention window [N >= 1]:
    a service at generation 2 whose latest generation is [N + 1] is rolled
    back to generation 1 although [2 > (N + 1) - N + 1] does not hold. *)
Lemma rollback_bound_counterexample :
  ~ exists N, 1 <= N < GoInt.int_max /\
      forall g L, 0 <= g <= L -> L <= GoInt.int_max ->
        (rollbackSucceeds N g L <-> g > L - N + 1).
Proof.
  intros (N & HN & Hclaim).
  unfold GoInt.int_max in HN.
  destruct (Hclaim 2 (N + 1)) as [Hsucc _];
    [lia | unfold GoInt.int_max; lia |].
  assert (Hrun : rollbackSucceeds N 2 (N + 1)).
  { unfold rollbackSucceeds, rollbackCmdFunc, MutateService. cbn [Services].
    rewrite lookup_singleton_eq. cbn [default from_option id].
    rewrite rollbackFn_spec
      by (cbn [Generation LatestGeneration]; unfold GoInt.int_max; lia).
    cbn [Generation LatestGeneration].
    replace (2 - 1 <? N + 1 - N) with false by (symmetry; apply Z.ltb_ge; lia).
    reflexivity. }
  specialize (Hsucc Hrun). lia.
Qed.

(** The same at a window of 10: generation 2 of 11 is rolled back. *)
Example rollback_window_edge :
  let d := mkData {[ "app"%string :=
                       mkService "app" ServiceTypeSystemd 2 11 ∅ None ]} ∅ in
  let r := rollbackCmdFunc 10 d "app" None (fun _ => None) in
  snd r = None /\
  generationOf (fst r) "app" = 1 /\
  ~ (generationOf d "app" > latestOf d "app" - 10 + 1).
Proof. vm_compute. repeat split. intros H. discriminate H. Qed.

(** The other direction fails as well: generation 1 is never rolled back,
    whatever the window. *)
Example rollback_oldest_refused :
  let d := mkData {[ "app"%string :=
                       mkService "app" ServiceTypeSystemd 1 1 ∅ None ]} ∅ in
  rollbackCmdFunc 10 d "app" None (fun _ => None)
    = (d, Some (ErrRollback (ErrOldest 1))).
Proof. vm_compute. reflexivity. Qed.

(** C1 (amended): for a service at generation [g] with latest generation [L]
    and retention window [N], rollback selects generation [g - 1] exactly
    when [g >= 2] and [g >= L - N + 1]; the command then returns what the
    installer returns for [g - 1].  In every other case the command returns
    an error and the store is what it was. *)
Theorem rollback_bound (N : Z) (d : Data) (sn : string)
    (newInstaller : option error) (installGen : Z -> option error) :
  0 <= generationOf d sn <= latestOf d sn ->
  latestOf d sn <= GoInt.int_max ->
  0 <= N <= GoInt.int_max ->
  let g := generationOf d sn in
  let L := latestOf d sn in
  let r := rollbackCmdFunc N d sn newInstaller installGen in
  (2 <= g /\ L - N + 1 <= g ->
     generationOf (fst r) sn = g - 1 /\
     latestOf (fst r) sn = L /\
     snd r = match newInstaller with
             | Some e => Some (ErrCreateInstaller e)
             | None => installGen (g - 1)
             end) /\
  (~ (2 <= g /\ L - N + 1 <= g) -> fst r = d /\ is_Some (snd r)) /\
  (generationOf (fst r) sn = g - 1 <-> 2 <= g /\ L - N + 1 <= g).
Proof.
  unfold generationOf, latestOf.
  set (s := default (newService sn) (Services d !! sn)).
  intros Hg HL HN. cbv zeta.
  unfold rollbackCmdFunc, MutateService. fold s.
  rewrite (rollbackFn_spec N d s Hg HL HN).
  destruct (Z.eqb_spec (Generation s) 0) as [H0 | H0];
    [ simpl; fold s; repeat split; try lia; eauto |].
  destruct (Z.ltb_spec (Generation s - 1) (LatestGeneration s - N)) as [Hlt | Hge];
    [ simpl; fold s; repeat split; try lia; eauto |].
  destruct (Z.eqb_spec (Generation s - 1) 0) as [H1 | H1];
    [ simpl; fold s; repeat split; try lia; eauto |].
  assert (Hc : 2 <= Generation s /\ LatestGeneration s - N + 1 <= Generation s)
    by lia.
  destruct newInstaller as [e |]; simpl; rewrite lookup_insert_eq; simpl;
    (split; [intros _; auto | split; [tauto | tauto]]).
Qed.

Lemma rollback_bound_witness :
  let d := mkData {[ "app"%string :=
                       mkService "app" ServiceTypeSystemd 5 7 ∅ None ]} ∅ in
  let r := rollbackCmdFunc 10 d "app" None (fun _ => None) in
  generationOf (fst r) "app" = 4 /\ snd r = None.
Proof.
  pose (d := mkData {[ "app"%string :=
                       mkService "app" ServiceTypeSystemd 5 7 ∅ None ]} ∅).
  destruct (rollback_bound 10 d "app" None (fun _ => None))
    as [Hyes _].
  - vm_compute. split; discriminate.
  - vm_compute. discriminate.
  - vm_compute. split; discriminate.
  - destruct Hyes as (Hg & _ & Hr).
    + vm_compute. split; discriminate.
    + split; [exact Hg | exact Hr].
Defined.

End Rollback.

(** ** Caller authorization (pkg/catch/catch.go, verifyCaller) *)

Module Auth.

(** What the mesh-VPN client reports about a node.  [tailcfg.Node] carries a
    tag slice and an owning user; [ipnstate.PeerStatus] carries a pointer to
    a tag slice (nil when absent) and a user id. *)
Record Node : Type := mkNode {
  Tags : list string;
  User : Z
}.

Record PeerStatus : Type := mkPeerStatus {
  SelfTags : option (list string);
  UserID : Z
}.

Record Status : Type := mkStatus { Self : PeerStatus }.

Record WhoIsResponse : Type := mkWhoIs { WhoNode : Node }.

(** The two calls [verifyCaller] makes on the local client; [None] stands for
    a call that returned an error. *)
Record LocalClient : Type := mkLocalClient {
  StatusWithoutPeers : option Status;
  WhoIs : string -> option WhoIsResponse
}.

Inductive error : Type :=
| ErrLocalStatus
| ErrWhoIs
| errUnauthorized.

(** [Node.IsTagged]: the node has at least one tag. *)
Definition Node_IsTagged (n : Node) : bool :=
  match Tags n with [] => false | _ :: _ => true end.

(** [PeerStatus.IsTagged]: the tag slice is present and not empty. *)
Definition PeerStatus_IsTagged (ps : PeerStatus) : bool :=
  match SelfTags ps with
  | Some (_ :: _) => true
  | _ => false
  end.

(** [Tags.AsSlice()]: the tags of a peer status, empty for a nil view. *)
Definition SelfTags_AsSlice (ps : PeerStatus) : list string :=
  default [] (SelfTags ps).

(** [slices.Contains]. *)
Fixpoint Contains (l : list string) (x : string) : bool :=
  match l with
  | [] => false
  | y :: l' => if String.eqb y x then true else Contains l' x
  end.

Fixpoint overlaps (a b : list string) : bool :=
  match a with
  | [] => false
  | x :: a' => if Contains b x then true else overlaps a' b
  end.

(** [verifyCaller]: [None] is Go's nil error, the caller is let in. *)
Definition verifyCaller (lc : LocalClient) (remoteAddr : string) : option error :=
  match StatusWithoutPeers lc with
  | None => Some ErrLocalStatus
  | Some st =>
      match WhoIs lc remoteAddr with
      | None => Some ErrWhoIs
      | Some who =>
          if Node_IsTagged (WhoNode who) then
            if PeerStatus_IsTagged (Self st)
               && overlaps (Tags (WhoNode who)) (SelfTags_AsSlice (Self st))
            then None
            else Some errUnauthorized
          else if PeerStatus_IsTagged (Self st) then None
          else if UserID (Self st) =? User (WhoNode who) then None
          else Some errUnauthorized
      end
  end.

(** *** Properties of the authorizer *)

Lemma Contains_In (l : list string) (x : string) :
  Contains l x = true <-> In x l.
Proof.
  induction l as [| y l IH]; simpl.
  - split; [discriminate | tauto].
  - destruct (String.eqb_spec y x) as [-> | Hne].
    + split; auto.
    + rewrite IH. split; [auto | intros [Heq | Hin]; [congruence | exact Hin]].
Qed.

Lemma overlaps_spec (a b : list string) :
  overlaps a b = true <-> exists x, In x a /\ In x b.
Proof.
  induction a as [| y a IH]; simpl.
  - split; [discriminate | intros (x & [] & _)].
  - destruct (Contains b y) eqn:Hc.
    + split; [intros _ | auto]. exists y. split; [auto |].
      by apply Contains_In.
    + rewrite IH. split.
      * intros (x & Ha & Hb). exists x. auto.
      * intros (x & [-> | Ha] & Hb).
        -- apply Contains_In in Hb. congruence.
        -- exists x. auto.
Qed.

(** C2, the claim as written fails: an untagged local node (user 7) turns a
    tagged peer away. *)
Lemma verifyCaller_untagged_counterexample :
  let self := mkPeerStatus None 7 in
  let peer := mkNode ["tag:ci"%string] 7 in
  let lc := mkLocalClient (Some (mkStatus self))
                          (fun _ => Some (mkWhoIs peer)) in
  PeerStatus_IsTagged self = false /\
  Node_IsTagged peer = true /\
  verifyCaller lc "100.64.0.9:40000" = Some errUnauthorized.
Proof. repeat split. Qed.

(** C2 (amended): when the local node is untagged and both look-ups on the
    local client succeed, the caller is let in exactly when the peer is
    untagged and its user id is the local node's; every tagged peer is
    turned away. *)
Theorem verifyCaller_untagged (lc : LocalClient) (remoteAddr : string)
    (st : Status) (who : WhoIsResponse) :
  StatusWithoutPeers lc = Some st ->
  WhoIs lc remoteAddr = Some who ->
  PeerStatus_IsTagged (Self st) = false ->
  (verifyCaller lc remoteAddr = None <->
     Node_IsTagged (WhoNode who) = false /\
     UserID (Self st) = User (WhoNode who)) /\
  (Node_IsTagged (WhoNode who) = true ->
     verifyCaller lc remoteAddr = Some errUnauthorized).
Proof.
  intros Hst Hwho Hself. unfold verifyCaller. rewrite Hst, Hwho, Hself.
  destruct (Node_IsTagged (WhoNode who)); simpl.
  - split; [| reflexivity]. split; [discriminate | intros [H _]; discriminate].
  - split; [| discriminate].
    destruct (Z.eqb_spec (UserID (Self st)) (User (WhoNode who))) as [He | Hne].
    + tauto.
    + split; [discriminate | intros [_ H]; contradiction].
Qed.

Lemma verifyCaller_untagged_witness :
  verifyCaller
    (mkLocalClient (Some (mkStatus (mkPeerStatus None 7)))
                   (fun _ => Some (mkWhoIs (mkNode [] 7))))
    "100.64.0.9:40000" = None.
Proof.
  apply (verifyCaller_untagged
           (mkLocalClient (Some (mkStatus (mkPeerStatus None 7)))
                          (fun _ => Some (mkWhoIs (mkNode [] 7))))
           "100.64.0.9:40000"
           (mkStatus (mkPeerStatus None 7)) (mkWhoIs (mkNode [] 7)));
    [reflexivity | reflexivity | reflexivity |].
  split; reflexivity.
Defined.

(** The tagged-local half of the rule, for the record: a tagged local node
    lets in untagged peers and tagged peers sharing a tag. *)
Lemma verifyCaller_tagged (lc : LocalClient) (remoteAddr : string)
    (st : Status) (who : WhoIsResponse) :
  StatusWithoutPeers lc = Some st ->
  WhoIs lc remoteAddr = Some who ->
  PeerStatus_IsTagged (Self st) = true ->
  (verifyCaller lc remoteAddr = None <->
     Node_IsTagged (WhoNode who) = false \/
     exists t, In t (Tags (WhoNode who)) /\ In t (SelfTags_AsSlice (Self st))).
Proof.
  intros Hst Hwho Hself. unfold verifyCaller. rewrite Hst, Hwho, Hself.
  destruct (Node_IsTagged (WhoNode who)); simpl.
  - destruct (overlaps _ _) eqn:Ho.
    + apply overlaps_spec in Ho. split; auto.
    + split; [discriminate |]. intros [H | H]; [discriminate |].
      apply overlaps_spec in H. congruence.
  - split; auto.
Qed.

End Auth.

(** ** The event bus (pkg/catch/catch.go, PublishEvent) *)

Module Events.
Local Open Scope nat_scope.

Inductive EventType : Type :=
| EventTypeUnknown
| EventTypeHeartbeat
| EventTypeServiceStatusChanged
| EventTypeServiceDeleted
| EventTypeServiceCreated
| EventTypeServiceConfigChanged
| EventTypeServiceConfigStaged.

Record Event : Type := mkEvent {
  Time : Z;
  ServiceName : string;
  Type_ : EventType;
  Data : option string
}.

Definition set_Time (e : Event) (t : Z) : Event :=
  mkEvent t (ServiceName e) (Type_ e) (Data e).

(** A Go channel of events, as far as a sender can tell: its capacity, the
    events buffered in it, the number of goroutines parked in a receive on
    it, and whether it was closed.  [taken] logs the events handed straight
    to a parked receiver. *)
Record Chan : Type := mkChan {
  capacity : nat;
  queue : list Event;
  waiting : nat;
  closed : bool;
  taken : list Event
}.

Inductive sendResult : Type :=
| SendOk (c : Chan)
| SendBlocks
| SendPanics.

(** One [ch <- e] on a channel in state [c]: a send on a closed channel
    panics; a parked receiver takes the event at once; otherwise the event
    goes to the buffer if there is room, and the sender blocks if not.  An
    unbuffered channel has capacity 0. *)
Definition chan_send (c : Chan) (e : Event) : sendResult :=
  if closed c then SendPanics
  else match waiting c with
       | S n => SendOk (mkChan (capacity c) (queue c) n false (taken c ++ [e]))
       | O =>
           if length (queue c) <? capacity c
           then SendOk (mkChan (capacity c) (queue c ++ [e]) 0 false (taken c))
           else SendBlocks
       end.

(** A registered listener: a reference to its channel and an optional
    filter.  Channels live in a store keyed by reference, so two listeners
    may share one; a reference absent from the store is Go's nil channel. *)
Record EventListener : Type := mkListener {
  ch : nat;
  filter : option (Event -> bool)
}.

Inductive outcome : Type :=
| Returned (chans : gmap nat Chan)
| Blocked (chans : gmap nat Chan) (at_ : EventListener)
| Panicked (chans : gmap nat Chan) (at_ : EventListener).

(** The loop body's guard, [el.filter != nil && !el.filter(event)], negated:
    the listener is sent the event. *)
Definition accepts (el : EventListener) (event : Event) : bool :=
  match filter el with
  | Some f => f event
  | None => true
  end.

(** The [for _, el := range els.s] loop, over the listeners in the order the
    iteration visits them. *)
Fixpoint publishLoop (els : list EventListener) (event : Event)
    (chans : gmap nat Chan) : outcome :=
  match els with
  | [] => Returned chans
  | el :: rest =>
      if negb (accepts el event) then publishLoop rest event chans
      else
        match chans !! ch el with
        | None => Blocked chans el
        | Some c =>
            match chan_send c event with
            | SendOk c' => publishLoop rest event (<[ch el := c']> chans)
            | SendBlocks => Blocked chans el
            | SendPanics => Panicked chans el
            end
        end
  end.

(** [PublishEvent]: stamp the event with the current time, then fan out under
    the listener-set mutex. *)
Definition PublishEvent (now : Z) (els : list EventListener) (event : Event)
    (chans : gmap nat Chan) : outcome :=
  publishLoop els (set_Time event now) chans.

(** [AddEventListener] and [RemoveEventListener] on the handle set. *)
Definition AddEventListener (els : gmap nat EventListener) (h : nat)
    (c : nat) (f : option (Event -> bool)) : gmap nat EventListener :=
  <[h := mkListener c f]> els.

Definition RemoveEventListener (els : gmap nat EventListener) (h : nat)
    : gmap nat EventListener :=
  delete h els.

(** The channel [handleEvents] makes for a web-socket subscriber:
    [make(chan Event)], unbuffered, with the subscriber either parked in
    its [select] or busy writing the previous event. *)
Definition handleEvents_chan (parked : bool) : Chan :=
  mkChan 0 [] (if parked then 1 else 0) false [].

(** Events a channel has accepted so far, buffered or handed over. *)
Definition accepted (c : Chan) : nat := length (taken c) + length (queue c).

Definition acceptedAt (chans : gmap nat Chan) (i : nat) : nat :=
  match chans !! i with Some c => accepted c | None => 0 end.

(** Listeners on channel [i] that are sent [event]. *)
Fixpoint countAccepting (els : list EventListener) (event : Event) (i : nat) : nat :=
  match els with
  | [] => 0
  | el :: rest =>
      (if accepts el event && (ch el =? i) then 1 else 0)
      + countAccepting rest event i
  end.

(** The send on [i] cannot complete now. *)
Definition cannotAccept (chans : gmap nat Chan) (i : nat) : Prop :=
  match chans !! i with
  | None => True
  | Some c => closed c = false /\ waiting c = 0 /\ capacity c <= length (queue c)
  end.

Definition canAccept (chans : gmap nat Chan) (i : nat) : Prop :=
  match chans !! i with
  | None => False
  | Some c => closed c = false /\ (0 < waiting c \/ length (queue c) < capacity c)
  end.

(** *** Properties of the event bus *)

Lemma chan_send_ok_accepted (c c' : Chan) (e : Event) :
  chan_send c e = SendOk c' -> accepted c' = S (accepted c).
Proof.
  unfold chan_send, accepted.
  destruct (closed c); [discriminate |].
  destruct (waiting c) as [| n].
  - destruct (length (queue c) <? capacity c); [| discriminate].
    intros [= <-]. simpl. rewrite length_app. simpl. lia.
  - intros [= <-]. simpl. rewrite length_app. simpl. lia.
Qed.

Lemma chan_send_full (c : Chan) (e : Event) :
  closed c = false -> waiting c = 0 -> capacity c <= length (queue c) ->
  chan_send c e = SendBlocks.
Proof.
  intros Hc Hw Hq. unfold chan_send. rewrite Hc, Hw.
  destruct (Nat.ltb_spec (length (queue c)) (capacity c)); [lia | reflexivity].
Qed.

Lemma chan_send_room (c : Chan) (e : Event) :
  closed c = false -> 0 < waiting c \/ length (queue c) < capacity c ->
  exists c', chan_send c e = SendOk c'.
Proof.
  intros Hc Hroom. unfold chan_send. rewrite Hc.
  destruct (waiting c) as [| n]; [| eauto].
  destruct (Nat.ltb_spec (length (queue c)) (capacity c)); [eauto | lia].
Qed.

Lemma acceptedAt_insert (chans : gmap nat Chan) (i j : nat) (c : Chan) :
  acceptedAt (<[i := c]> chans) j =
    if decide (i = j) then accepted c else acceptedAt chans j.
Proof. unfold acceptedAt. rewrite lookup_insert. by case_decide. Qed.

(** Nothing is dropped: when the loop returns, every channel has accepted one
    event per listener on it that was sent the event. *)
Lemma publishLoop_returned_counts (els : list EventListener) (event : Event) :
  forall (chans chans' : gmap nat Chan),
  publishLoop els event chans = Returned chans' ->
  forall i, acceptedAt chans' i = acceptedAt chans i + countAccepting els event i.
Proof.
  induction els as [| el rest IH]; intros chans chans' Hret i; simpl in *.
  - injection Hret as <-. lia.
  - destruct (accepts el event) eqn:Hacc; simpl in *.
    + destruct (chans !! ch el) as [c |] eqn:Hlk; [| discriminate].
      destruct (chan_send c event) as [c' | |] eqn:Hsend; try discriminate.
      rewrite (IH _ _ Hret i), acceptedAt_insert.
      apply chan_send_ok_accepted in Hsend.
      case_decide as Heq.
      * subst i. rewrite Nat.eqb_refl. unfold acceptedAt. rewrite Hlk. lia.
      * apply Nat.eqb_neq in Heq. rewrite Heq. lia.
    + rewrite (IH _ _ Hret i). lia.
Qed.

(** The loop over a list in two parts: the second part runs on the channels
    the first part leaves, if the first part gets through. *)
Lemma publishLoop_app (pre rest : list EventListener) (event : Event) :
  forall chans : gmap nat Chan,
  publishLoop (pre ++ rest) event chans =
    match publishLoop pre event chans with
    | Returned mid => publishLoop rest event mid
    | o => o
    end.
Proof.
  induction pre as [| x pre IH]; intros chans; cbn [publishLoop app];
    [reflexivity |].
  destruct (negb (accepts x event)); [apply IH |].
  destruct (chans !! ch x) as [c |]; [| reflexivity].
  destruct (chan_send c event); [apply IH | reflexivity | reflexivity].
Qed.

Lemma publishLoop_skips (pre : list EventListener) (event : Event)
    (chans : gmap nat Chan) :
  Forall (fun x => accepts x event = false) pre ->
  publishLoop pre event chans = Returned chans.
Proof.
  induction 1 as [| x pre Hx _ IH]; cbn [publishLoop]; [reflexivity |].
  by rewrite Hx.
Qed.

(** A listener that is sent the event and whose channel cannot take it stops
    the publisher there, on the channels as the sends before it left
    them. *)
Lemma publishLoop_blocks (pre rest : list EventListener) (el : EventListener)
    (event : Event) (chans mid : gmap nat Chan) :
  publishLoop pre event chans = Returned mid ->
  accepts el event = true ->
  cannotAccept mid (ch el) ->
  publishLoop (pre ++ el :: rest) event chans = Blocked mid el.
Proof.
  intros Hpre Hacc Hfull. rewrite publishLoop_app, Hpre.
  cbn [publishLoop]. rewrite Hacc. cbn [negb]. unfold cannotAccept in Hfull.
  destruct (mid !! ch el) as [c |]; [| reflexivity].
  destruct Hfull as (Hc & Hw & Hq). by rewrite chan_send_full.
Qed.

Lemma chan_send_blocks_full (c : Chan) (e : Event) :
  chan_send c e = SendBlocks ->
  closed c = false /\ waiting c = 0 /\ capacity c <= length (queue c).
Proof.
  unfold chan_send. destruct (closed c); [discriminate |].
  destruct (waiting c); [| discriminate].
  destruct (Nat.ltb_spec (length (queue c)) (capacity c)); [discriminate |].
  auto.
Qed.

(** Where the publisher is stopped: every listener before that one was
    passed, and that one is sent the event on a channel that cannot take
    it. *)
Lemma publishLoop_blocked_at (els : list EventListener) (event : Event) :
  forall (chans mid : gmap nat Chan) (el : EventListener),
  publishLoop els event chans = Blocked mid el ->
  exists pre rest,
    els = pre ++ el :: rest /\
    publishLoop pre event chans = Returned mid /\
    accepts el event = true /\
    cannotAccept mid (ch el).
Proof.
  induction els as [| x els IH]; intros chans mid el; cbn [publishLoop];
    [discriminate |].
  destruct (accepts x event) eqn:Hacc; cbn [negb].
  - destruct (chans !! ch x) as [c |] eqn:Hlk.
    + destruct (chan_send c event) as [c' | |] eqn:Hsend.
      * intros Hb. destruct (IH _ _ _ Hb) as (pre & rest & -> & Hpre & Ha & Hf).
        exists (x :: pre), rest. split; [reflexivity |].
        split; [| by split].
        cbn [publishLoop]. by rewrite Hacc, Hlk, Hsend.
      * intros [= <- <-]. exists [], els. split; [reflexivity |].
        split; [reflexivity |]. split; [exact Hacc |].
        unfold cannotAccept. rewrite Hlk. by apply chan_send_blocks_full in Hsend.
      * discriminate.
    + intros [= <- <-]. exists [], els. split; [reflexivity |].
      split; [reflexivity |]. split; [exact Hacc |].
      unfold cannotAccept. by rewrite Hlk.
  - intros Hb. destruct (IH _ _ _ Hb) as (pre & rest & -> & Hpre & Ha & Hf).
    exists (x :: pre), rest. split; [reflexivity |]. split; [| by split].
    cbn [publishLoop]. by rewrite Hacc.
Qed.

Lemma canAccept_insert_ne (chans : gmap nat Chan) (i j : nat) (c : Chan) :
  i <> j -> canAccept chans j -> canAccept (<[i := c]> chans) j.
Proof. intros Hne. unfold canAccept. by rewrite lookup_insert_ne. Qed.

(** The publisher gets through when the listeners sit on distinct channels
    that can each take one event. *)
Lemma publishLoop_returns (els : list EventListener) (event : Event) :
  forall chans : gmap nat Chan,
  NoDup (map ch els) ->
  (forall el, In el els -> accepts el event = true -> canAccept chans (ch el)) ->
  exists chans', publishLoop els event chans = Returned chans'.
Proof.
  induction els as [| el rest IH]; intros chans Hnd Hroom;
    cbn [publishLoop]; cbn [map] in Hnd.
  - eauto.
  - apply NoDup_cons in Hnd as [Hnotin Hnd].
    destruct (accepts el event) eqn:Hacc; cbn [negb].
    + pose proof (Hroom el (or_introl eq_refl) Hacc) as Hel.
      unfold canAccept in Hel.
      destruct (chans !! ch el) as [c |] eqn:Hlk; [| contradiction].
      destruct Hel as [Hc Hr].
      destruct (chan_send_room c event Hc Hr) as [c' ->].
      apply IH; [exact Hnd |].
      intros x Hx Hax. apply canAccept_insert_ne.
      * intros Heq. apply Hnotin. rewrite Heq.
        apply list_elem_of_In. apply in_map. exact Hx.
      * apply Hroom; [right; exact Hx | exact Hax].
    + apply IH; [exact Hnd |]. intros x Hx Hax.
      apply Hroom; [right; exact Hx | exact Hax].
Qed.

(** C3, the claim as written fails: with one web-socket subscriber that is
    busy writing (its unbuffered channel has no parked receiver), the
    publisher of a heartbeat is blocked at that listener; the event is not
    dropped and the call does not return. *)
Lemma PublishEvent_blocks_counterexample :
  let el := mkListener 0 (Some (fun _ => true)) in
  let chans : gmap nat Chan := {[ 0 := handleEvents_chan false ]} in
  PublishEvent 1000%Z [el] (mkEvent 0 "sys" EventTypeHeartbeat None) chans
    = Blocked chans el.
Proof. reflexivity. Qed.

(** C3 (amended): [PublishEvent] sends the event to every listener whose
    filter lets it through, one blocking send after the other.  Nothing is
    dropped: when the call returns, each channel has accepted one event per
    such listener.  The call is stopped at the first such listener whose
    channel cannot take the event when its turn comes: the sends to the
    listeners before it have all been accepted, that listener is where the
    call stands, and a call that is stopped is stopped in just that way.
    The call returns when the listeners sit on distinct channels that each
    have room or a parked receiver. *)
Theorem PublishEvent_sends_or_blocks (now : Z) (els : list EventListener)
    (event : Event) (chans : gmap nat Chan) :
  (forall chans',
     PublishEvent now els event chans = Returned chans' ->
     forall i, acceptedAt chans' i
               = acceptedAt chans i + countAccepting els (set_Time event now) i) /\
  (forall pre el rest mid,
     els = pre ++ el :: rest ->
     PublishEvent now pre event chans = Returned mid ->
     accepts el (set_Time event now) = true ->
     cannotAccept mid (ch el) ->
     PublishEvent now els event chans = Blocked mid el) /\
  (forall pre el rest,
     els = pre ++ el :: rest ->
     Forall (fun x => accepts x (set_Time event now) = false) pre ->
     accepts el (set_Time event now) = true ->
     cannotAccept chans (ch el) ->
     PublishEvent now els event chans = Blocked chans el) /\
  (forall mid el,
     PublishEvent now els event chans = Blocked mid el ->
     exists pre rest,
       els = pre ++ el :: rest /\
       PublishEvent now pre event chans = Returned mid /\
       (forall i, acceptedAt mid i
                  = acceptedAt chans i
                    + countAccepting pre (set_Time event now) i) /\
       accepts el (set_Time event now) = true /\
       cannotAccept mid (ch el)) /\
  (NoDup (map ch els) ->
   (forall el, In el els -> accepts el (set_Time event now) = true ->
               canAccept chans (ch el)) ->
   exists chans', PublishEvent now els event chans = Returned chans').
Proof.
  unfold PublishEvent. split; [| split; [| split; [| split]]].
  - intros chans' Hret i. by apply publishLoop_returned_counts.
  - intros pre el rest mid -> Hpre Hacc Hfull. by apply publishLoop_blocks.
  - intros pre el rest -> Hpre Hacc Hfull.
    apply publishLoop_blocks; [by apply publishLoop_skips | done | done].
  - intros mid el Hb.
    destruct (publishLoop_blocked_at _ _ _ _ _ Hb)
      as (pre & rest & Hels & Hpre & Hacc & Hfull).
    exists pre, rest. split; [exact Hels |]. split; [exact Hpre |].
    split; [| by split].
    intros i. by apply publishLoop_returned_counts.
  - intros Hnd Hroom. by apply publishLoop_returns.
Qed.

Lemma PublishEvent_sends_or_blocks_witness :
  let el := mkListener 0 None in
  let busy := mkListener 1 None in
  let chans : gmap nat Chan := {[ 0 := handleEvents_chan true ]} in
  let ev := mkEvent 0 "sys" EventTypeHeartbeat None in
  let both : gmap nat Chan :=
    <[ 0 := handleEvents_chan true ]> {[ 1 := handleEvents_chan false ]} in
  let mid : gmap nat Chan :=
    <[ 0 := mkChan 0 [] 0 false [set_Time ev 1000%Z] ]> both in
  (exists chans', PublishEvent 1000%Z [el] ev chans = Returned chans') /\
  PublishEvent 1000%Z [el] ev {[ 0 := handleEvents_chan false ]}
    = Blocked {[ 0 := handleEvents_chan false ]} el /\
  PublishEvent 1000%Z [el; busy] ev both = Blocked mid busy.
Proof.
  intros el busy chans ev both mid. split; [| split].
  - apply (PublishEvent_sends_or_blocks 1000%Z [el] ev chans).
    + simpl. apply NoDup_cons. split; [apply not_elem_of_nil | apply NoDup_nil_2].
    + intros x [<- | []] _. unfold canAccept, chans.
      rewrite lookup_singleton_eq. simpl. split; [reflexivity | left; lia].
  - apply (PublishEvent_sends_or_blocks 1000%Z [el] ev
             {[ 0 := handleEvents_chan false ]}) with (pre := []) (rest := []).
    + reflexivity.
    + constructor.
    + reflexivity.
    + unfold cannotAccept. rewrite lookup_singleton_eq. simpl. auto.
  - destruct (PublishEvent_sends_or_blocks 1000%Z [el; busy] ev both)
      as (_ & Hblocks & _).
    apply (Hblocks [el] busy [] mid).
    + reflexivity.
    + reflexivity.
    + reflexivity.
    + unfold cannotAccept, mid, both.
      rewrite lookup_insert_ne by discriminate.
      rewrite lookup_insert_ne by discriminate.
      rewrite lookup_singleton_eq. simpl. auto.
Defined.

End Events.

(** ** Go's [strings] and [path/filepath] helpers the handlers call *)

Module Strings.
Local Open Scope nat_scope.
Local Open Scope string_scope.

Fixpoint drop (n : nat) (s : string) : string :=
  match n, s with
  | O, _ => s
  | S n', String _ s' => drop n' s'
  | S _, EmptyString => EmptyString
  end.

(** [strings.HasPrefix]. *)
Definition HasPrefix (s pre : string) : bool := String.prefix pre s.

(** [strings.CutPrefix]: the string without the prefix and [true], or the
    string itself and [false]. *)
Definition CutPrefix (s pre : string) : string * bool :=
  if HasPrefix s pre then (drop (String.length pre) s, true) else (s, false).

(** [strings.Cut]: split around the first instance of [sep]. *)
Fixpoint Cut (s sep : string) : string * string * bool :=
  if String.prefix sep s then (EmptyString, drop (String.length sep) s, true)
  else
    match s with
    | EmptyString => (EmptyString, EmptyString, false)
    | String c s' =>
        let '(before, after, found) := Cut s' sep in
        (String c before, after, found)
    end.

(** [strings.Contains]. *)
Definition Contains (s substr : string) : bool :=
  let '(_, _, found) := Cut s substr in found.

(** [strings.Count] for a non-empty [substr]: non-overlapping instances,
    scanning from the left; [skip] characters of a counted instance are
    still to be passed over. *)
Fixpoint countFrom (s substr : string) (skip : nat) : nat :=
  match s with
  | EmptyString => 0
  | String _ s' =>
      match skip with
      | S k => countFrom s' substr k
      | O =>
          if String.prefix substr s
          then S (countFrom s' substr (String.length substr - 1))
          else countFrom s' substr 0
      end
  end.

Definition Count (s substr : string) : nat := countFrom s substr 0.

(** Split on a separator character, keeping empty pieces. *)
Fixpoint splitOn (sep : ascii) (s : string) : list string :=
  match s with
  | EmptyString => [EmptyString]
  | String c s' =>
      if Ascii.eqb c sep then EmptyString :: splitOn sep s'
      else
        match splitOn sep s' with
        | [] => [String c EmptyString]
        | piece :: pieces => String c piece :: pieces
        end
  end.

(** [strings.Join]. *)
Fixpoint Join (elems : list string) (sep : string) : string :=
  match elems with
  | [] => EmptyString
  | [e] => e
  | e :: rest => e ++ sep ++ Join rest sep
  end.

(** Facts about [Cut] and [Count] on the separator of repository names. *)

Lemma prefix_slash (c : ascii) (s : string) :
  String.prefix "/" (String c s) = Ascii.eqb c "/".
Proof.
  change (String.prefix "/" (String c s))
    with (if ascii_dec "/" c then String.prefix "" s else false).
  destruct (ascii_dec "/" c) as [<- | Hne].
  - by destruct s.
  - symmetry. apply Ascii.eqb_neq. congruence.
Qed.

Lemma countFrom_slash_cons (c : ascii) (s : string) :
  countFrom (String c s) "/" 0 =
    if Ascii.eqb c "/" then S (countFrom s "/" 0) else countFrom s "/" 0.
Proof. cbn [countFrom]. rewrite prefix_slash. reflexivity. Qed.

Lemma Cut_slash_cons (c : ascii) (s : string) :
  Cut (String c s) "/" =
    if Ascii.eqb c "/" then (EmptyString, s, true)
    else let '(before, after, found) := Cut s "/" in
         (String c before, after, found).
Proof. cbn [Cut]. rewrite prefix_slash. reflexivity. Qed.

Lemma Cut_slash_empty : Cut "" "/" = (EmptyString, EmptyString, false).
Proof. reflexivity. Qed.

Lemma Count_slash_0_Cut (s : string) :
  Count s "/" = 0 -> Cut s "/" = (s, EmptyString, false).
Proof.
  unfold Count. induction s as [| c s IH]; [reflexivity |].
  rewrite countFrom_slash_cons, Cut_slash_cons.
  destruct (Ascii.eqb c "/"); [discriminate |].
  intros H. by rewrite (IH H).
Qed.

Lemma Count_slash_1_Cut (s : string) :
  Count s "/" = 1 ->
  exists svc container,
    Cut s "/" = (svc, container, true) /\ Contains container "/" = false /\
    s = svc ++ "/" ++ container.
Proof.
  unfold Count. induction s as [| c s IH]; [discriminate |].
  rewrite countFrom_slash_cons, Cut_slash_cons.
  destruct (Ascii.eqb_spec c "/") as [-> | Hne].
  - intros [= H]. exists EmptyString, s. split; [reflexivity |].
    split; [| reflexivity].
    unfold Contains. by rewrite (Count_slash_0_Cut s H).
  - intros H. destruct (IH H) as (svc & container & -> & Hc & ->).
    exists (String c svc), container. repeat split; assumption.
Qed.

End Strings.

Module Filepath.
Local Open Scope string_scope.

(** One path element pushed on the elements kept so far (innermost first), as
    [Clean] does: empty and [.] elements vanish, [..] removes the element
    before it, is kept in front of a relative path and vanishes at the
    root. *)
Definition cleanStep (rooted : bool) (kept : list string) (elem : string)
    : list string :=
  if String.eqb elem "" || String.eqb elem "." then kept
  else if String.eqb elem ".." then
    match kept with
    | top :: below => if String.eqb top ".." then elem :: kept else below
    | [] => if rooted then [] else [elem]
    end
  else elem :: kept.

(** [filepath.Clean] on a Unix host. *)
Definition Clean (path : string) : string :=
  match path with
  | EmptyString => "."
  | String c _ =>
      let rooted := Ascii.eqb c "/" in
      let kept := rev (fold_left (cleanStep rooted) (Strings.splitOn "/" path) []) in
      if rooted then "/" ++ Strings.Join kept "/"
      else match kept with
           | [] => "."
           | _ => Strings.Join kept "/"
           end
  end.

(** [filepath.Join]: leading empty elements are dropped, the rest joined with
    the separator and cleaned; nothing but empty elements gives the empty
    string. *)
Fixpoint Join (elem : list string) : string :=
  match elem with
  | [] => ""
  | e :: rest =>
      if String.eqb e "" then Join rest
      else Clean (Strings.Join elem "/")
  end.

(** The pieces of [filepath.Base] and [filepath.Split]: a string without its
    trailing slashes, and a string cut after its last slash. *)
Fixpoint stripTrailingSlashes (s : string) : string :=
  match s with
  | EmptyString => EmptyString
  | String c s' =>
      match stripTrailingSlashes s' with
      | EmptyString => if Ascii.eqb c "/" then EmptyString else String c EmptyString
      | t => String c t
      end
  end.

(** [filepath.Split]: directory part up to and including the last slash, and
    the file part after it. *)
Fixpoint Split (path : string) : string * string :=
  match path with
  | EmptyString => (EmptyString, EmptyString)
  | String c s' =>
      let '(dir, file) := Split s' in
      match dir with
      | EmptyString =>
          if Ascii.eqb c "/" then (String c EmptyString, file)
          else (EmptyString, String c file)
      | _ => (String c dir, file)
      end
  end.

(** [filepath.Base]. *)
Definition Base (path : string) : string :=
  match path with
  | EmptyString => "."
  | _ =>
      match stripTrailingSlashes path with
      | EmptyString => "/"
      | p => snd (Split p)
      end
  end.

Example Clean_examples :
  Clean "/srv//yeet/./app/../web/" = "/srv/yeet/web" /\
  Clean "a/../../b" = "../b" /\
  Clean "/.." = "/" /\
  Clean "./" = "." /\
  Join ["/srv/yeet"; "app"; "/data/logs/x"] = "/srv/yeet/app/data/logs/x" /\
  Join [""; ""] = "" /\
  Base "/srv/yeet/app/data" = "data" /\
  Base "/srv/yeet/app/bin/" = "bin" /\
  Base "///" = "/" /\
  Split "/srv/yeet/app/*" = ("/srv/yeet/app/", "*").
Proof. repeat split. Qed.

(** *** Cleaned absolute paths *)

Fixpoint noSlash (s : string) : bool :=
  match s with
  | EmptyString => true
  | String c s' => negb (Ascii.eqb c "/") && noSlash s'
  end.

(** A path element as [Clean] leaves it: not empty, not [.] or [..], and
    without a slash. *)
Definition validElem (c : string) : bool :=
  negb (String.eqb c "") && negb (String.eqb c ".") && negb (String.eqb c "..")
  && noSlash c.

(** The absolute path with the given elements, the form in which [Clean]
    returns an absolute path. *)
Definition absOf (elems : list string) : string := "/" ++ Strings.Join elems "/".

Lemma splitOn_not_nil (s : string) : Strings.splitOn "/" s <> [].
Proof.
  destruct s as [| c s]; simpl; [discriminate |].
  destruct (Ascii.eqb c "/"); [discriminate |].
  destruct (Strings.splitOn "/" s); discriminate.
Qed.

Lemma splitOn_noSlash (c : string) :
  noSlash c = true -> Strings.splitOn "/" c = [c].
Proof.
  induction c as [| a c IH]; [reflexivity |]. simpl.
  destruct (Ascii.eqb a "/"); [discriminate |]. simpl.
  intros H. by rewrite (IH H).
Qed.


Lemma splitOn_app_slash (a b : string) :
  Strings.splitOn "/" (a ++ "/" ++ b)
    = (Strings.splitOn "/" a ++ Strings.splitOn "/" b)%list.
Proof.
  induction a as [| c a IH].
  - reflexivity.
  - change (String c a ++ "/" ++ b) with (String c (a ++ "/" ++ b)).
    cbn [Strings.splitOn]. rewrite IH.
    destruct (Ascii.eqb c "/"); [reflexivity |].
    pose proof (splitOn_not_nil a) as Hne.
    destruct (Strings.splitOn "/" a) as [| piece pieces]; [done | reflexivity].
Qed.

Lemma splitOn_Join (elems : list string) :
  elems <> [] ->
  Forall (fun c => noSlash c = true) elems ->
  Strings.splitOn "/" (Strings.Join elems "/") = elems.
Proof.
  induction elems as [| c rest IH]; [done |].
  intros _ Hall. apply Forall_cons in Hall as [Hc Hrest].
  destruct rest as [| c' rest'].
  - simpl. by apply splitOn_noSlash.
  - change (Strings.Join (c :: c' :: rest') "/")
      with (c ++ "/" ++ Strings.Join (c' :: rest') "/").
    rewrite splitOn_app_slash, splitOn_noSlash by done.
    rewrite IH by done. reflexivity.
Qed.

Lemma validElem_noSlash (c : string) : validElem c = true -> noSlash c = true.
Proof. unfold validElem. intros H. by apply andb_prop in H as [_ H]. Qed.

Lemma cleanStep_valid (rooted : bool) (kept : list string) (c : string) :
  validElem c = true -> cleanStep rooted kept c = c :: kept.
Proof.
  unfold validElem, cleanStep. intros H.
  apply andb_prop in H as [H _]. apply andb_prop in H as [H H3].
  apply andb_prop in H as [H1 H2].
  apply negb_true_iff in H1, H2, H3. by rewrite H1, H2, H3.
Qed.

Lemma fold_cleanStep_valid (rooted : bool) (elems kept : list string) :
  Forall (fun c => validElem c = true) elems ->
  fold_left (cleanStep rooted) elems kept = (rev elems ++ kept)%list.
Proof.
  intros Hall. revert kept.
  induction Hall as [| c rest Hc _ IH]; intros kept; [reflexivity |].
  simpl. rewrite cleanStep_valid by done. rewrite IH, <- app_assoc. reflexivity.
Qed.



Lemma Forall_valid_noSlash (elems : list string) :
  Forall (fun c => validElem c = true) elems ->
  Forall (fun c => noSlash c = true) elems.
Proof.
  induction 1 as [| c rest Hc _ IH]; constructor;
    [by apply validElem_noSlash | exact IH].
Qed.

(** The elements [Clean] keeps of a directory path, outermost first. *)
Definition keptOf (dir : string) : list string :=
  match dir with
  | EmptyString => []
  | String c _ =>
      rev (fold_left (cleanStep (Ascii.eqb c "/")) (Strings.splitOn "/" dir) [])
  end.

Definition rootOf (dir : string) : string :=
  match dir with
  | String c _ => if Ascii.eqb c "/" then "/" else ""
  | EmptyString => ""
  end.


Lemma Clean_cons (c0 : ascii) (rest : string) :
  Clean (String c0 rest) =
    let kept := rev (fold_left (cleanStep (Ascii.eqb c0 "/"))
                       (Strings.splitOn "/" (String c0 rest)) []) in
    if Ascii.eqb c0 "/" then "/" ++ Strings.Join kept "/"
    else match kept with
         | [] => "."
         | _ => Strings.Join kept "/"
         end.
Proof. reflexivity. Qed.

(** Joining a directory with a cleaned absolute path appends the elements of
    that path to those of the directory. *)
Lemma Join_absOf (dir : string) (elems : list string) :
  dir <> "" -> elems <> [] ->
  Forall (fun c => validElem c = true) elems ->
  Join [dir; absOf elems] = rootOf dir ++ Strings.Join (keptOf dir ++ elems) "/".
Proof.
  intros Hdir Hne Hv. destruct dir as [| c0 d']; [done |].
  change (Join [String c0 d'; absOf elems])
    with (Clean (String c0 (d' ++ "/" ++ absOf elems))).
  rewrite Clean_cons. unfold keptOf, rootOf.
  change (String c0 (d' ++ "/" ++ absOf elems))
    with (String c0 d' ++ "/" ++ "" ++ "/" ++ Strings.Join elems "/").
  rewrite !splitOn_app_slash.
  rewrite (splitOn_Join elems Hne (Forall_valid_noSlash elems Hv)).
  rewrite !fold_left_app.
  change (fold_left (cleanStep (Ascii.eqb c0 "/")) (Strings.splitOn "/" "")
            (fold_left (cleanStep (Ascii.eqb c0 "/"))
               (Strings.splitOn "/" (String c0 d')) []))
    with (fold_left (cleanStep (Ascii.eqb c0 "/"))
               (Strings.splitOn "/" (String c0 d')) []).
  rewrite (fold_cleanStep_valid _ elems _ Hv).
  rewrite rev_app_distr, rev_involutive.
  destruct (Ascii.eqb c0 "/"); [reflexivity |].
  destruct (rev _ ++ elems)%list eqn:Hk; [| reflexivity].
  apply app_eq_nil in Hk as [_ ->]. done.
Qed.


Lemma Join_elem (dir c : string) :
  dir <> "" -> validElem c = true ->
  Join [dir; c]
    = rootOf dir ++ Strings.Join (keptOf dir ++ [c]) "/".
Proof.
  intros Hdir Hc. destruct dir as [| c0 d']; [done |].
  change (Join [String c0 d'; c])
    with (Clean (String c0 (d' ++ "/" ++ c))).
  rewrite Clean_cons. unfold keptOf, rootOf.
  change (String c0 (d' ++ "/" ++ c)) with (String c0 d' ++ "/" ++ c).
  rewrite splitOn_app_slash.
  rewrite (splitOn_noSlash c (validElem_noSlash c Hc)).
  rewrite fold_left_app. cbn [fold_left].
  rewrite (cleanStep_valid _ _ c Hc). cbn [rev].
  destruct (Ascii.eqb c0 "/"); [reflexivity |].
  destruct (rev _ ++ [c])%list eqn:Hk; [| reflexivity].
  by apply app_eq_nil in Hk as [_ Hk].
Qed.







End Filepath.

(** ** The container registry front-end (ServeHTTP, SetManifest) *)

Module Registry.
Import DB.
Local Open Scope string_scope.

Record Request : Type := mkRequest {
  Method : string;
  RemoteAddr : string;
  Path : string
}.

Definition StatusUnauthorized : Z := 401.
Definition StatusMethodNotAllowed : Z := 405.

(** What [ServeHTTP] does with a request: answer through [http.Error] with a
    body and a status, or pass the request on to the registry handler
    [cr.r]. *)
Inductive response : Type :=
| HttpError (body : string + Auth.error) (code : Z)
| Forwarded (r : Request).

Definition statusOf (resp : response) : option Z :=
  match resp with
  | HttpError _ code => Some code
  | Forwarded _ => None
  end.

(** [registry.Manifest]. *)
Record Manifest : Type := mkManifest {
  MContentType : string;
  Blob : string
}.

(** Calls on the installer that [SetManifest] drives, in order. *)
Inductive installerOp : Type :=
| OpNewFileInstaller (serviceName : string) (stageOnly : bool)
| OpWrite (content : string)
| OpFail
| OpClose.

(** The state [SetManifest] works on: the store and the files as
    [SetManifest] itself reads and writes them, and the calls it makes on the
    installer, in order.  What the installer does to the host once it is fed
    and closed is the installer's business and not part of this record. *)
Record World : Type := mkWorld {
  data : Data;
  files : gmap string string;
  installer : list installerOp
}.

(** Which of the fallible steps fail in a run. *)
Record Faults : Type := mkFaults {
  getDB_fails : bool;
  writeFile_fails : bool;
  dbSet_fails : bool;
  newFileInstaller_fails : bool;
  copy_fails : bool
}.

Definition noFaults : Faults := mkFaults false false false false false.

Record Config : Type := mkConfig {
  ServicesRoot : string;
  manifestDir : string
}.

(** [svc.InternalRegistryHost]. *)
Definition InternalRegistryHost : string := "catchit.dev".

(** Modelled from the spec: the artifact name [db.ArtifactDockerComposeFile],
    [compose-file] in the closed set of artifact names. *)
Definition ArtifactDockerComposeFile : string := "compose-file".

Definition nl : string := String (ascii_of_nat 10) EmptyString.

(** [fmt.Sprintf(composeTemplate, svcName, image, dataDir)]. *)
Definition composeTemplate (svcName image dataDir : string) : string :=
  "services:" ++ nl ++
  "  " ++ svcName ++ ":" ++ nl ++
  "    image: " ++ image ++ nl ++
  "    restart: unless-stopped" ++ nl ++
  "    volumes:" ++ nl ++
  "      - " ++ dataDir ++ ":/data" ++ nl.

Definition serviceRootDir (cfg : Config) (sn : string) : string :=
  Filepath.Join [ServicesRoot cfg; sn].

Definition serviceDataDir (cfg : Config) (sn : string) : string :=
  Filepath.Join [serviceRootDir cfg sn; "data"].

(** The references a tag is stored under, and whether the write installs. *)
Definition referencesFor (tag : string) : list string * bool :=
  if String.eqb tag "run" then (["run"; "staged"], true)
  else if String.eqb tag "latest" then (["staged"], false)
  else ([tag], false).

Section WithHost.

(** [netip.ParseAddrPort] ([None] on a parse error) and
    [AddrPort.Addr().IsLoopback]. *)
Variable AddrPort : Type.
Variable ParseAddrPort : string -> option AddrPort.
Variable IsLoopback : AddrPort -> bool.

(** [fmt.Sprintf("%x", sha256.Sum256(b))]. *)
Variable sha256hex : string -> string.

(** [ArtifactStore.Gen(name, generation)] of the store package: the path of
    an artifact at a generation, if there is one. *)
Variable Gen : ArtifactStore -> string -> Z -> option string.

Definition isReadMethod (m : string) : bool :=
  String.eqb m "GET" || String.eqb m "HEAD" || String.eqb m "OPTIONS".

(** [containerRegistry.ServeHTTP]. *)
Definition ServeHTTP (lc : Auth.LocalClient) (r : Request) : response :=
  match ParseAddrPort (RemoteAddr r) with
  | None => HttpError (inl "Registry is read-only") StatusMethodNotAllowed
  | Some ap =>
      if IsLoopback ap then
        if negb (String.eqb (Method r) "GET")
           && negb (String.eqb (Method r) "HEAD")
           && negb (String.eqb (Method r) "OPTIONS")
        then HttpError (inl "Registry is read-only") StatusMethodNotAllowed
        else Forwarded r
      else
        match Auth.verifyCaller lc (RemoteAddr r) with
        | Some err => HttpError (inr err) StatusUnauthorized
        | None => Forwarded r
        end
  end.

(** [storeManifest]: the blob goes to [manifests/sha256/<hash>]. *)
Definition manifestPath (cfg : Config) (sha : string) : string :=
  Filepath.Join [manifestDir cfg; "sha256"; sha].

Definition storeManifest (cfg : Config) (flt : Faults)
    (fs : gmap string string) (b : string) : option (gmap string string * string) :=
  let sha := sha256hex b in
  if writeFile_fails flt then None
  else Some (<[manifestPath cfg sha := b]> fs, sha).

(** The compose file handed to the installer: the previous generation's, when
    the service has one, else the one rendered from the template.  [None] is
    a failed read of the previous file. *)
Definition composeFileFor (cfg : Config) (d : Data) (fs : gmap string string)
    (svcName repo : string) : option string :=
  let image := InternalRegistryHost ++ "/" ++ repo in
  let template := composeTemplate svcName image (serviceDataDir cfg svcName) in
  let orTemplate (c : string) := if String.eqb c "" then template else c in
  match Services d !! svcName with
  | Some svc =>
      if (Generation svc >? 0)%Z then
        let prevGen := GoInt.sub (Generation svc) 1 in
        match Gen (Artifacts svc) ArtifactDockerComposeFile prevGen with
        | Some prevFile =>
            match fs !! prevFile with
            | None => None
            | Some content => Some (orTemplate content)
            end
        | None => Some template
        end
      else Some template
  | None => Some template
  end.

(** [SetManifest]. *)
Definition SetManifest (cfg : Config) (flt : Faults) (w : World)
    (repo tag : string) (manifest : Manifest) : World :=
  if negb (Nat.eqb (Strings.Count repo "/") 1) then w
  else
    let '(svc, container, ok) := Strings.Cut repo "/" in
    if negb ok then w
    else if Strings.Contains container "/" then w
    else
      let svcName := svc in
      let '(references, shouldInstall) := referencesFor tag in
      if getDB_fails flt then w
      else
        let d := data w in
        let ir := default (mkImageRepo ∅) (Images d !! repo) in
        match storeManifest cfg flt (files w) (Blob manifest) with
        | None => w
        | Some (fs, mh) =>
            let im := mkImageManifest (MContentType manifest) mh in
            let refs := fold_left (fun m reference => <[reference := im]> m)
                                  references (Refs ir) in
            let d' := set_Images d (<[repo := mkImageRepo refs]> (Images d)) in
            if dbSet_fails flt then mkWorld d fs (installer w)
            else
              let ops := (installer w
                           ++ [OpNewFileInstaller svcName (negb shouldInstall)])%list in
              if newFileInstaller_fails flt then mkWorld d' fs ops
              else
                match composeFileFor cfg d' fs svcName repo with
                | None => mkWorld d' fs (ops ++ [OpFail; OpClose])%list
                | Some composeFile =>
                    if copy_fails flt
                    then mkWorld d' fs (ops ++ [OpFail; OpClose])%list
                    else mkWorld d' fs
                           (ops ++ [OpWrite composeFile; OpClose; OpClose])%list
                end
        end.

(** [OnImageReceived]: [true] when the callback returns nil. *)
Definition OnImageReceived (repo tag digest : string) : bool :=
  if negb (Nat.eqb (Strings.Count repo "/") 1) then false
  else if negb (String.eqb tag "latest") && negb (String.eqb tag "run") then false
  else true.

End WithHost.

(** The references of a repository in a store, none for an absent one. *)
Definition refsOf (d : Data) (repo : string) : gmap string ImageManifest :=
  Refs (default (mkImageRepo ∅) (Images d !! repo)).

(** The compose file of the previous generation, as the deploy step looks for
    it: the service is in the store at a generation above 0 and its artifact
    index has a compose file for the generation before. *)
Definition previousCompose (Gen : ArtifactStore -> string -> Z -> option string)
    (d : Data) (svcName prevFile : string) : Prop :=
  exists svc,
    Services d !! svcName = Some svc /\
    (0 < Generation svc)%Z /\
    Gen (Artifacts svc) ArtifactDockerComposeFile (GoInt.sub (Generation svc) 1)
      = Some prevFile.

(** *** Properties of the registry front-end *)

(** C5: a caller from a non-loopback address that the authorizer turns away
    gets 401 whatever the method; a loopback caller using a method other
    than GET, HEAD or OPTIONS gets 405 and the request does not reach the
    registry handler. *)
Theorem ServeHTTP_authorization (AddrPort : Type)
    (ParseAddrPort : string -> option AddrPort) (IsLoopback : AddrPort -> bool)
    (lc : Auth.LocalClient) (r : Request) (ap : AddrPort) :
  ParseAddrPort (RemoteAddr r) = Some ap ->
  (IsLoopback ap = false ->
   Auth.verifyCaller lc (RemoteAddr r) <> None ->
   statusOf (ServeHTTP AddrPort ParseAddrPort IsLoopback lc r)
     = Some StatusUnauthorized) /\
  (IsLoopback ap = true ->
   Method r <> "GET" -> Method r <> "HEAD" -> Method r <> "OPTIONS" ->
   ServeHTTP AddrPort ParseAddrPort IsLoopback lc r
     = HttpError (inl "Registry is read-only") StatusMethodNotAllowed).
Proof.
  intros Hparse. unfold ServeHTTP. rewrite Hparse. split.
  - intros -> Hauth.
    destruct (Auth.verifyCaller lc (RemoteAddr r)); [reflexivity | contradiction].
  - intros -> Hget Hhead Hopt.
    apply String.eqb_neq in Hget, Hhead, Hopt.
    by rewrite Hget, Hhead, Hopt.
Qed.

Lemma ServeHTTP_authorization_witness :
  let parse (a : string) := Some (String.prefix "127." a) in
  let lc := Auth.mkLocalClient None (fun _ => None) in
  ServeHTTP bool parse id lc (mkRequest "PUT" "127.0.0.1:41000" "/v2/app/web/manifests/run")
    = HttpError (inl "Registry is read-only") StatusMethodNotAllowed /\
  statusOf (ServeHTTP bool parse id lc
              (mkRequest "GET" "100.64.0.9:41000" "/v2/app/web/manifests/run"))
    = Some StatusUnauthorized.
Proof.
  intros parse lc. split.
  - apply (ServeHTTP_authorization bool parse id lc
             (mkRequest "PUT" "127.0.0.1:41000" "/v2/app/web/manifests/run") true);
      [reflexivity | reflexivity | discriminate | discriminate | discriminate].
  - apply (ServeHTTP_authorization bool parse id lc
             (mkRequest "GET" "100.64.0.9:41000" "/v2/app/web/manifests/run") false);
      [reflexivity | reflexivity | discriminate].
Defined.

Lemma refsOf_set_Images (d : Data) (repo : string) (refs : gmap string ImageManifest) :
  refsOf (set_Images d (<[repo := mkImageRepo refs]> (Images d))) repo = refs.
Proof. unfold refsOf, set_Images. simpl. by rewrite lookup_insert_eq. Qed.

(** What a manifest write leaves behind once the store read, the blob write
    and the store write have gone through. *)
Lemma SetManifest_stored (sha256hex : string -> string)
    (Gen : ArtifactStore -> string -> Z -> option string)
    (cfg : Config) (flt : Faults) (w : World) (repo tag : string)
    (manifest : Manifest) :
  Strings.Count repo "/" = 1%nat ->
  getDB_fails flt = false ->
  writeFile_fails flt = false ->
  dbSet_fails flt = false ->
  exists svc container rest,
    repo = svc ++ "/" ++ container /\
    Strings.Contains container "/" = false /\
    let w' := SetManifest sha256hex Gen cfg flt w repo tag manifest in
    let im := mkImageManifest (MContentType manifest) (sha256hex (Blob manifest)) in
    files w' = <[manifestPath cfg (sha256hex (Blob manifest)) := Blob manifest]> (files w) /\
    refsOf (data w') repo =
      fold_left (fun m reference => <[reference := im]> m)
                (fst (referencesFor tag)) (refsOf (data w) repo) /\
    installer w' =
      (installer w ++
         OpNewFileInstaller svc (negb (snd (referencesFor tag))) :: rest)%list.
Proof.
  intros Hcount Hdb Hwrite Hset.
  destruct (Strings.Count_slash_1_Cut repo Hcount)
    as (svc & container & Hcut & Hcont & Hrepo).
  unfold SetManifest, storeManifest.
  rewrite Hcount, Hcut, Hcont, Hdb, Hwrite, Hset. simpl negb. cbv iota beta.
  destruct (referencesFor tag) as [references shouldInstall]. simpl fst. simpl snd.
  exists svc, container.
  destruct (newFileInstaller_fails flt).
  { exists []. cbv zeta. simpl. rewrite refsOf_set_Images. auto. }
  destruct (composeFileFor _ _ _ _ _ _) as [composeFile |].
  - destruct (copy_fails flt).
    + exists [OpFail; OpClose]. cbv zeta. simpl.
      rewrite refsOf_set_Images, <- app_assoc. auto.
    + exists [OpWrite composeFile; OpClose; OpClose]. cbv zeta. simpl.
      rewrite refsOf_set_Images, <- app_assoc. auto.
  - exists [OpFail; OpClose]. cbv zeta. simpl.
    rewrite refsOf_set_Images, <- app_assoc. auto.
Qed.

(** What the installer is asked to do by a manifest write that got as far as
    the store write: it is opened for the service named before the slash,
    stage-only unless the tag is [run]; it is fed the compose file of the
    previous generation when there is one, the rendered template when there
    is none or that file is empty, and closed; it is told to fail when that
    file cannot be read or the copy fails. *)
Lemma SetManifest_installer (sha256hex : string -> string)
    (Gen : ArtifactStore -> string -> Z -> option string)
    (cfg : Config) (flt : Faults) (w : World) (repo tag : string)
    (manifest : Manifest) :
  Strings.Count repo "/" = 1%nat ->
  getDB_fails flt = false ->
  writeFile_fails flt = false ->
  dbSet_fails flt = false ->
  let w' := SetManifest sha256hex Gen cfg flt w repo tag manifest in
  exists svc container,
    repo = svc ++ "/" ++ container /\
    let opened := OpNewFileInstaller svc (negb (String.eqb tag "run")) in
    let template := composeTemplate svc (InternalRegistryHost ++ "/" ++ repo)
                      (serviceDataDir cfg svc) in
    (newFileInstaller_fails flt = true ->
       installer w' = (installer w ++ [opened])%list) /\
    (newFileInstaller_fails flt = false -> copy_fails flt = false ->
     (forall prevFile, ~ previousCompose Gen (data w) svc prevFile) ->
       installer w'
         = (installer w ++ [opened; OpWrite template; OpClose; OpClose])%list) /\
    (newFileInstaller_fails flt = false -> copy_fails flt = false ->
     forall prevFile content,
       previousCompose Gen (data w) svc prevFile ->
       files w' !! prevFile = Some content ->
       installer w'
         = (installer w
              ++ [opened;
                  OpWrite (if String.eqb content "" then template else content);
                  OpClose; OpClose])%list) /\
    (newFileInstaller_fails flt = false ->
     copy_fails flt = true \/
     (exists prevFile, previousCompose Gen (data w) svc prevFile /\
                       files w' !! prevFile = None) ->
       installer w' = (installer w ++ [opened; OpFail; OpClose])%list).
Proof.
  intros Hcount Hdb Hwrite Hset.
  destruct (Strings.Count_slash_1_Cut repo Hcount)
    as (svc & container & Hcut & Hcont & Hrepo).
  exists svc, container. split; [exact Hrepo |].
  assert (Hstage : snd (referencesFor tag) = String.eqb tag "run").
  { unfold referencesFor. destruct (String.eqb tag "run"); [reflexivity |].
    by destruct (String.eqb tag "latest"). }
  unfold SetManifest, storeManifest.
  rewrite Hcount, Hcut, Hcont, Hdb, Hwrite, Hset. simpl negb. cbv iota beta.
  destruct (referencesFor tag) as [references shouldInstall].
  cbn [snd] in Hstage. subst shouldInstall.
  set (fs := <[manifestPath cfg (sha256hex (Blob manifest)) := Blob manifest]>
               (files w)).
  set (d' := set_Images (data w) _).
  cbv zeta.
  destruct (newFileInstaller_fails flt).
  { split; [reflexivity |]. by repeat split. }
  split; [discriminate |].
  unfold composeFileFor. change (Services d') with (Services (data w)).
  destruct (Services (data w) !! svc) as [s |] eqn:Hsvc.
  - destruct (Z.gtb_spec (Generation s) 0) as [Hgen | Hgen].
    + destruct (Gen (Artifacts s) ArtifactDockerComposeFile
                    (GoInt.sub (Generation s) 1)) as [prevFile |] eqn:Hprev.
      * assert (Hthere : previousCompose Gen (data w) svc prevFile)
          by (exists s; auto).
        destruct (fs !! prevFile) as [content |] eqn:Hread.
        -- destruct (copy_fails flt); cbn [files installer];
             rewrite <- app_assoc; cbn [app].
           ++ split; [discriminate |]. split; [discriminate |]. done.
           ++ split; [intros _ _ Hno; by destruct (Hno prevFile) |].
              split.
              ** intros _ _ prevFile' content' (s' & Hs' & _ & Hp') Hread'.
                 rewrite Hsvc in Hs'. injection Hs' as <-.
                 rewrite Hprev in Hp'. injection Hp' as <-.
                 rewrite Hread in Hread'. by injection Hread' as <-.
              ** intros _ [Hc | (prevFile' & (s' & Hs' & _ & Hp') & Hread')];
                   [discriminate |].
                 rewrite Hsvc in Hs'. injection Hs' as <-.
                 rewrite Hprev in Hp'. injection Hp' as <-.
                 rewrite Hread in Hread'. discriminate.
        -- cbn [files installer]; rewrite <- app_assoc; cbn [app].
           split; [intros _ _ Hno; by destruct (Hno prevFile) |].
           split; [| done].
           intros _ _ prevFile' content' (s' & Hs' & _ & Hp') Hread'.
           rewrite Hsvc in Hs'. injection Hs' as <-.
           rewrite Hprev in Hp'. injection Hp' as <-.
           rewrite Hread in Hread'. discriminate.
      * destruct (copy_fails flt); cbn [files installer];
          rewrite <- app_assoc; cbn [app].
        -- split; [discriminate |]. split; [discriminate |]. done.
        -- split; [done |]. split.
           ++ intros _ _ prevFile' content' (s' & Hs' & _ & Hp') _.
              rewrite Hsvc in Hs'. injection Hs' as <-.
              rewrite Hprev in Hp'. discriminate.
           ++ intros _ [Hc | (prevFile' & (s' & Hs' & _ & Hp') & _)];
                [discriminate |].
              rewrite Hsvc in Hs'. injection Hs' as <-.
              rewrite Hprev in Hp'. discriminate.
    + destruct (copy_fails flt); cbn [files installer];
        rewrite <- app_assoc; cbn [app].
      * split; [discriminate |]. split; [discriminate |]. done.
      * split; [done |]. split.
        -- intros _ _ prevFile' content' (s' & Hs' & Hg' & _) _.
           rewrite Hsvc in Hs'. injection Hs' as <-. lia.
        -- intros _ [Hc | (prevFile' & (s' & Hs' & Hg' & _) & _)];
             [discriminate |].
           rewrite Hsvc in Hs'. injection Hs' as <-. lia.
  - destruct (copy_fails flt); cbn [files installer];
      rewrite <- app_assoc; cbn [app].
    + split; [discriminate |]. split; [discriminate |]. done.
    + split; [done |]. split.
      * intros _ _ prevFile' content' (s' & Hs' & _) _.
        rewrite Hsvc in Hs'. discriminate.
      * intros _ [Hc | (prevFile' & (s' & Hs' & _) & _)]; [discriminate |].
        rewrite Hsvc in Hs'. discriminate.
Qed.

(** C4: for a repository name with exactly one slash, once the store read,
    the blob write and the store write have gone through, a write of tag
    [latest] sets the one reference [staged] to the stored manifest and
    leaves [run] as it was; a write of tag [run] sets both [staged] and
    [run]; a write of any other tag sets that tag.  The write then drives an
    install for the service named before the slash, a commit install (not
    stage-only) exactly for tag [run]: unless the installer cannot be
    created, it is fed the compose file (that of the previous generation, or
    the template rendered for the image when there is none or it is empty)
    and closed; it is told to fail, and installs nothing, only when the
    previous compose file cannot be read or the copy fails. *)
Theorem SetManifest_tag_mapping (sha256hex : string -> string)
    (Gen : ArtifactStore -> string -> Z -> option string)
    (cfg : Config) (flt : Faults) (w : World) (repo tag : string)
    (manifest : Manifest) :
  Strings.Count repo "/" = 1%nat ->
  getDB_fails flt = false ->
  writeFile_fails flt = false ->
  dbSet_fails flt = false ->
  let w' := SetManifest sha256hex Gen cfg flt w repo tag manifest in
  let sha := sha256hex (Blob manifest) in
  let im := mkImageManifest (MContentType manifest) sha in
  files w' !! manifestPath cfg sha = Some (Blob manifest) /\
  (tag = "latest" ->
     refsOf (data w') repo = <["staged" := im]> (refsOf (data w) repo) /\
     refsOf (data w') repo !! "run" = refsOf (data w) repo !! "run") /\
  (tag = "run" ->
     refsOf (data w') repo
       = <["staged" := im]> (<["run" := im]> (refsOf (data w) repo))) /\
  (tag <> "latest" -> tag <> "run" ->
     refsOf (data w') repo = <[tag := im]> (refsOf (data w) repo)) /\
  exists svc container,
    repo = svc ++ "/" ++ container /\
    let opened := OpNewFileInstaller svc (negb (String.eqb tag "run")) in
    let template := composeTemplate svc (InternalRegistryHost ++ "/" ++ repo)
                      (serviceDataDir cfg svc) in
    (newFileInstaller_fails flt = true ->
       installer w' = (installer w ++ [opened])%list) /\
    (newFileInstaller_fails flt = false -> copy_fails flt = false ->
     (forall prevFile, ~ previousCompose Gen (data w) svc prevFile) ->
       installer w'
         = (installer w ++ [opened; OpWrite template; OpClose; OpClose])%list) /\
    (newFileInstaller_fails flt = false -> copy_fails flt = false ->
     forall prevFile content,
       previousCompose Gen (data w) svc prevFile ->
       files w' !! prevFile = Some content ->
       installer w'
         = (installer w
              ++ [opened;
                  OpWrite (if String.eqb content "" then template else content);
                  OpClose; OpClose])%list) /\
    (newFileInstaller_fails flt = false ->
     copy_fails flt = true \/
     (exists prevFile, previousCompose Gen (data w) svc prevFile /\
                       files w' !! prevFile = None) ->
       installer w' = (installer w ++ [opened; OpFail; OpClose])%list).
Proof.
  intros Hcount Hdb Hwrite Hset.
  destruct (SetManifest_stored sha256hex Gen cfg flt w repo tag manifest
              Hcount Hdb Hwrite Hset)
    as (svc & container & rest & Hrepo & _ & Hfiles & Hrefs & Hops).
  pose proof (SetManifest_installer sha256hex Gen cfg flt w repo tag manifest
                Hcount Hdb Hwrite Hset) as Hinst.
  cbv zeta in *. split; [| split; [| split; [| split]]].
  - rewrite Hfiles. apply lookup_insert_eq.
  - intros ->. rewrite Hrefs. simpl. split; [reflexivity |].
    by rewrite lookup_insert_ne.
  - intros ->. rewrite Hrefs. reflexivity.
  - intros Hl Hr. rewrite Hrefs. unfold referencesFor.
    apply String.eqb_neq in Hl, Hr. by rewrite Hl, Hr.
  - exact Hinst.
Qed.

Lemma SetManifest_tag_mapping_witness :
  let sha (b : string) := "9f86d0" in
  let cfg := mkConfig "/srv/yeet/services" "/srv/yeet/registry/manifests" in
  let w := mkWorld (mkData ∅ ∅) ∅ [] in
  let w' := SetManifest sha (fun _ _ _ => None) cfg noFaults w "app/web" "run"
              (mkManifest "application/vnd.oci.image.manifest.v1+json" "{}") in
  refsOf (data w') "app/web" !! "run"
    = Some (mkImageManifest "application/vnd.oci.image.manifest.v1+json" "9f86d0") /\
  refsOf (data w') "app/web" !! "staged"
    = Some (mkImageManifest "application/vnd.oci.image.manifest.v1+json" "9f86d0") /\
  exists svc container,
    "app/web" = svc ++ "/" ++ container /\
    installer w'
      = [OpNewFileInstaller svc false;
         OpWrite (composeTemplate svc (InternalRegistryHost ++ "/" ++ "app/web")
                    (serviceDataDir cfg svc));
         OpClose; OpClose].
Proof.
  intros sha cfg w w'.
  destruct (SetManifest_tag_mapping sha (fun _ _ _ => None) cfg noFaults w
              "app/web" "run"
              (mkManifest "application/vnd.oci.image.manifest.v1+json" "{}")
              eq_refl eq_refl eq_refl eq_refl)
    as (_ & _ & Hrun & _ & svc & container & Hrepo & _ & Htemplate & _).
  pose proof (Hrun eq_refl) as Hrefs.
  fold w' in Hrefs. rewrite Hrefs. split; [| split].
  - rewrite lookup_insert_ne by discriminate. apply lookup_insert_eq.
  - apply lookup_insert_eq.
  - exists svc, container. split; [exact Hrepo |].
    apply (Htemplate eq_refl eq_refl).
    intros prevFile (s & Hs & _). discriminate Hs.
Defined.

End Registry.

(** ** The payload classifier (pkg/ftdetect) *)

Module Ftdetect.
Local Open Scope string_scope.

Inductive FileType : Type :=
| Unknown
| Binary
| DockerCompose
| TypeScript
| Script
| Zstd.

Inductive error : Type :=
| ErrFileNil
| ErrRead
| ErrElfOnDarwin
| ErrMachOOffDarwin
| ErrParseElf
| ErrArchMismatch (binArch hostArch : string)
| ErrArchitectureMismatch
| ErrParseTypeScript
| ErrUndetected
| ErrDetectBinary (cause : error)
| ErrCheckArchitecture (cause : error)
| ErrDetectZstd (cause : error)
| ErrDetectScript (cause : error)
| ErrDetectDockerCompose (cause : error)
| ErrDetectTypeScript (cause : error).

(** The open file: its bytes ([None] for a nil handle) and the assumed
    target.  Seeking to the start and reading an open regular file are
    taken to succeed. *)
Record file : Type := mkFile {
  f : option string;
  goos : string;
  goarch : string
}.

(** What [yaml.Unmarshal] fills in: the [services] mapping, nil when the
    document has no such key. *)
Record servicesForm : Type := mkServicesForm {
  Services : option (list string)
}.

Definition byteZ (c : ascii) : Z := Z.of_N (N_of_ascii c).

(** [binary.LittleEndian.Uint32]. *)
Definition Uint32LE (b0 b1 b2 b3 : ascii) : Z :=
  Z.lor (byteZ b0)
    (Z.lor (Z.shiftl (byteZ b1) 8)
       (Z.lor (Z.shiftl (byteZ b2) 16) (Z.shiftl (byteZ b3) 24))).

Definition ElfMagic : Z := 0x464C457F.
Definition MachoMagic32 : Z := 0xfeedface.
Definition MachoMagic64 : Z := 0xfeedfacf.
Definition MachoMagicFat : Z := 0xcafebabe.

Definition EM_386 : Z := 3.
Definition EM_ARM : Z := 40.
Definition EM_X86_64 : Z := 62.
Definition EM_AARCH64 : Z := 183.

Section WithParsers.

(** The parsers the probes call: [elf.NewFile] (the machine of the header,
    [None] when the file does not parse), [yaml.Unmarshal] into the services
    form ([None] on an error) and the number of errors of esbuild's
    [api.Transform] with the TypeScript loader. *)
Variable elfMachine : string -> option Z.
Variable yamlUnmarshal : string -> option servicesForm.
Variable tsTransformErrors : string -> nat.

Definition checkAndSeek0 (fl : file) : error + string :=
  match f fl with
  | None => inl ErrFileNil
  | Some bs => inr bs
  end.

Definition detectBinary (fl : file) : error + bool :=
  match checkAndSeek0 fl with
  | inl e => inl e
  | inr bs =>
      match bs with
      | String b0 (String b1 (String b2 (String b3 _))) =>
          let mn := Uint32LE b0 b1 b2 b3 in
          if (mn =? ElfMagic)%Z then
            if String.eqb (goos fl) "darwin" then inl ErrElfOnDarwin
            else inr true
          else if (mn =? MachoMagic32)%Z || (mn =? MachoMagic64)%Z
                  || (mn =? MachoMagicFat)%Z then
            if negb (String.eqb (goos fl) "darwin") then inl ErrMachOOffDarwin
            else inr true
          else inr false
      | _ => inl ErrRead
      end
  end.

Definition detectZstd (fl : file) : error + bool :=
  match checkAndSeek0 fl with
  | inl e => inl e
  | inr bs =>
      match bs with
      | String b0 (String b1 (String b2 (String b3 _))) =>
          if negb (byteZ b0 =? 0x28)%Z || negb (byteZ b1 =? 0xb5)%Z
             || negb (byteZ b2 =? 0x2f)%Z || negb (byteZ b3 =? 0xfd)%Z
          then inr false
          else inr true
      | _ => inr false
      end
  end.

Definition detectArchitectureElf (fl : file) : error + string :=
  match f fl with
  | None => inl ErrFileNil
  | Some bs =>
      match elfMachine bs with
      | None => inl ErrParseElf
      | Some m =>
          if (m =? EM_X86_64)%Z then inr "x86_64"
          else if (m =? EM_386)%Z then inr "x86"
          else if (m =? EM_ARM)%Z then inr "ARM"
          else if (m =? EM_AARCH64)%Z then inr "ARM64"
          else inr "unknown"
      end
  end.

Definition hostArchitecture (fl : file) : string :=
  if String.eqb (goarch fl) "amd64" then "x86_64"
  else if String.eqb (goarch fl) "386" then "x86"
  else if String.eqb (goarch fl) "arm" then "ARM"
  else if String.eqb (goarch fl) "arm64" then "ARM64"
  else "unknown".

Definition isSameArch (fl : file) : error + bool :=
  match detectArchitectureElf fl with
  | inl e => inl e
  | inr binArch =>
      let hostArch := hostArchitecture fl in
      if String.eqb binArch hostArch then inr true
      else inl (ErrArchMismatch binArch hostArch)
  end.

Definition detectScript (fl : file) : error + bool :=
  match checkAndSeek0 fl with
  | inl e => inl e
  | inr bs =>
      match bs with
      | String b0 (String b1 _) =>
          if negb (Ascii.eqb b0 "#") || negb (Ascii.eqb b1 "!") then inr false
          else inr true
      | _ => inl ErrRead
      end
  end.

Definition detectDockerCompose (fl : file) : error + bool :=
  match checkAndSeek0 fl with
  | inl e => inl e
  | inr bs =>
      match yamlUnmarshal bs with
      | None => inr false
      | Some _ => inr true
      end
  end.

Definition detectTypeScript (fl : file) : error + bool :=
  match checkAndSeek0 fl with
  | inl e => inl e
  | inr bs =>
      if (0 <? tsTransformErrors bs)%nat then inl ErrParseTypeScript
      else inr true
  end.

(** [detect]: every error return of the source carries [Unknown], so the
    result is either an error or a file type. *)
Definition detect (fl : file) : error + FileType :=
  match detectBinary fl with
  | inl e => inl (ErrDetectBinary e)
  | inr true =>
      match isSameArch fl with
      | inl e => inl (ErrCheckArchitecture e)
      | inr false => inl ErrArchitectureMismatch
      | inr true => inr Binary
      end
  | inr false =>
      match detectZstd fl with
      | inl e => inl (ErrDetectZstd e)
      | inr true => inr Zstd
      | inr false =>
          match detectScript fl with
          | inl e => inl (ErrDetectScript e)
          | inr true => inr Script
          | inr false =>
              match detectDockerCompose fl with
              | inl e => inl (ErrDetectDockerCompose e)
              | inr true => inr DockerCompose
              | inr false =>
                  match detectTypeScript fl with
                  | inl e => inl (ErrDetectTypeScript e)
                  | inr true => inr TypeScript
                  | inr false => inl ErrUndetected
                  end
              end
          end
      end
  end.

End WithParsers.

(** The payload is past the binary, zstd and shebang probes. *)
Definition pastMagicProbes (fl : file) : Prop :=
  detectBinary fl = inr false /\ detectZstd fl = inr false
  /\ detectScript fl = inr false.

(** *** Properties of the classifier *)

(** What the compose probe decides on: past the magic-byte probes, the
    payload is classified as compose exactly when [yaml.Unmarshal] returns
    no error, whether or not the document has a [services] key. *)
Lemma detect_compose_iff_unmarshal (elfMachine : string -> option Z)
    (yamlUnmarshal : string -> option servicesForm)
    (tsTransformErrors : string -> nat) (fl : file) (bs : string) :
  f fl = Some bs ->
  pastMagicProbes fl ->
  (detect elfMachine yamlUnmarshal tsTransformErrors fl = inr DockerCompose
   <-> is_Some (yamlUnmarshal bs)).
Proof.
  intros Hf (Hbin & Hz & Hs). unfold detect.
  rewrite Hbin, Hz, Hs. unfold detectDockerCompose, detectTypeScript, checkAndSeek0.
  rewrite Hf. destruct (yamlUnmarshal bs) as [form |].
  - split; eauto.
  - split; [| intros [? [=]]].
    destruct (0 <? tsTransformErrors bs)%nat; discriminate.
Qed.

(** C6, where the code parts from the claim: a payload that parses as YAML
    and has no [services] key is classified as compose. *)
Theorem detect_compose_without_services (elfMachine : string -> option Z)
    (yamlUnmarshal : string -> option servicesForm)
    (tsTransformErrors : string -> nat) (fl : file) (bs : string) :
  f fl = Some bs ->
  pastMagicProbes fl ->
  yamlUnmarshal bs = Some (mkServicesForm None) ->
  detect elfMachine yamlUnmarshal tsTransformErrors fl = inr DockerCompose.
Proof.
  intros Hf Hpast Hyaml.
  apply (detect_compose_iff_unmarshal _ _ _ fl bs Hf Hpast).
  rewrite Hyaml. eauto.
Qed.

(** The payload [foo: bar], a YAML mapping without [services], on
    linux/amd64. *)
Definition fooBar : string := "foo: bar" ++ String (ascii_of_nat 10) "".

Lemma detect_compose_without_services_witness :
  let yaml (b : string) :=
    if String.eqb b fooBar then Some (mkServicesForm None) else None in
  detect (fun _ => None) yaml (fun _ => 1%nat)
         (mkFile (Some fooBar) "linux" "amd64")
    = inr DockerCompose.
Proof.
  intros yaml.
  apply (detect_compose_without_services (fun _ => None) yaml (fun _ => 1%nat)
           (mkFile (Some fooBar) "linux" "amd64") fooBar).
  - reflexivity.
  - repeat split.
  - reflexivity.
Defined.

End Ftdetect.

(** ** Status aggregation in the web UI (pkg/catch/web/lib/status.js) *)

Module Status.
Local Open Scope string_scope.

(** The [State] table. *)
Definition Running : string := "running".
Definition Starting : string := "starting".
Definition Stopping : string := "stopping".
Definition Stopped : string := "stopped".
Definition Partial : string := "partial".
Definition Unknown : string := "unknown".

(** An entry of [status.components]. *)
Record component : Type := mkComponent {
  name : string;
  status : string
}.

(** [statusToState]; [uniqueStates] is the JavaScript [Set] of the states. *)
Definition statusToState (components : list component) : string :=
  let states := map status components in
  let uniqueStates : gset string := list_to_set states in
  if decide (Stopping ∈ uniqueStates) then Stopping
  else if decide (Starting ∈ uniqueStates) then Starting
  else if decide (size uniqueStates = 1%nat) then
    match states with
    | s0 :: _ =>
        if String.eqb s0 Running then Running
        else if String.eqb s0 Stopped then Stopped
        else Unknown
    | [] => Unknown
    end
  else Partial.

(** The component states the daemon sends ([ComponentStatus] on the Go
    side). *)
Definition isComponentStatus (s : string) : Prop :=
  s = Starting \/ s = Running \/ s = Stopping \/ s = Stopped \/ s = Unknown.

Definition anyIs (s : string) (components : list component) : Prop :=
  exists c, In c components /\ status c = s.

Definition allAre (s : string) (components : list component) : Prop :=
  forall c, In c components -> status c = s.

(** *** Properties of the aggregation *)

Lemma elem_of_uniqueStates (s : string) (components : list component) :
  s ∈ (list_to_set (map status components) : gset string) <-> anyIs s components.
Proof.
  rewrite elem_of_list_to_set, list_elem_of_In, in_map_iff. unfold anyIs.
  split; intros (c & H1 & H2); exists c; auto.
Qed.

Lemma uniqueStates_size_1 (components : list component) :
  size (list_to_set (map status components) : gset string) = 1%nat <->
  components <> [] /\ exists s, allAre s components.
Proof.
  split.
  - intros Hsize. split.
    + intros ->. change (size (∅ : gset string) = 1%nat) in Hsize.
      rewrite size_empty in Hsize. discriminate.
    + apply size_1_elem_of in Hsize as [s Hs]. exists s. intros c Hc.
      assert (Hin : status c ∈ (list_to_set (map status components) : gset string)).
      { apply elem_of_uniqueStates. exists c. auto. }
      rewrite Hs in Hin. by apply elem_of_singleton in Hin.
  - intros [Hne [s Hall]].
    assert (Heq : (list_to_set (map status components) : gset string) = {[ s ]}).
    { apply set_eq. intros x. rewrite elem_of_uniqueStates, elem_of_singleton.
      split.
      - intros (c & Hc & <-). by apply Hall.
      - intros ->. destruct components as [| c rest]; [done |].
        exists c. split; [by left | apply Hall; by left]. }
    rewrite Heq. apply size_singleton.
Qed.

(** C8: for a non-empty collection of component states, the aggregate is
    [stopping] if any component is stopping; else [starting] if any is
    starting; else the common state if all components share one; else
    [partial]. *)
Theorem statusToState_rules (components : list component) :
  components <> [] ->
  Forall (fun c => isComponentStatus (status c)) components ->
  (anyIs Stopping components -> statusToState components = Stopping) /\
  (~ anyIs Stopping components -> anyIs Starting components ->
     statusToState components = Starting) /\
  (~ anyIs Stopping components -> ~ anyIs Starting components ->
     forall s, allAre s components -> statusToState components = s) /\
  (~ anyIs Stopping components -> ~ anyIs Starting components ->
     ~ (exists s, allAre s components) -> statusToState components = Partial).
Proof.
  intros Hne Hvalid. unfold statusToState.
  repeat split.
  - intros Hany. apply elem_of_uniqueStates in Hany. by rewrite decide_True.
  - intros Hno Hany. rewrite <- elem_of_uniqueStates in Hno.
    apply elem_of_uniqueStates in Hany.
    rewrite decide_False by done. by rewrite decide_True.
  - intros Hno1 Hno2 s Hall.
    pose proof Hno1 as Hno1'. pose proof Hno2 as Hno2'.
    rewrite <- elem_of_uniqueStates in Hno1', Hno2'.
    rewrite !decide_False by done.
    rewrite decide_True by (apply uniqueStates_size_1; eauto).
    destruct components as [| c rest]; [done |]. simpl.
    assert (Hc : status c = s) by (apply Hall; by left).
    rewrite Hc.
    assert (Hs : isComponentStatus s).
    { rewrite <- Hc. by apply Forall_inv in Hvalid. }
    destruct Hs as [-> | [-> | [-> | [-> | ->]]]]; try reflexivity.
    + exfalso. apply Hno2. exists c. split; [by left | done].
    + exfalso. apply Hno1. exists c. split; [by left | done].
  - intros Hno1 Hno2 Hmixed.
    rewrite <- elem_of_uniqueStates in Hno1, Hno2.
    rewrite !decide_False; try done.
    intros Hsize. apply uniqueStates_size_1 in Hsize as [_ Hs]. contradiction.
Qed.

Lemma statusToState_rules_witness :
  statusToState [mkComponent "web" Running; mkComponent "db" Stopped] = Partial /\
  statusToState [mkComponent "web" Running; mkComponent "db" Running] = Running.
Proof.
  split.
  - apply (statusToState_rules [mkComponent "web" Running; mkComponent "db" Stopped]).
    + discriminate.
    + repeat constructor; unfold isComponentStatus; simpl; tauto.
    + intros (c & [<- | [<- | []]] & H); discriminate H.
    + intros (c & [<- | [<- | []]] & H); discriminate H.
    + intros [s Hall].
      assert (H1 := Hall _ (or_introl eq_refl)).
      assert (H2 := Hall _ (or_intror (or_introl eq_refl))).
      simpl in H1, H2. subst s. discriminate H2.
  - apply (statusToState_rules [mkComponent "web" Running; mkComponent "db" Running]).
    + discriminate.
    + repeat constructor; unfold isComponentStatus; simpl; tauto.
    + intros (c & [<- | [<- | []]] & H); discriminate H.
    + intros (c & [<- | [<- | []]] & H); discriminate H.
    + intros c [<- | [<- | []]]; reflexivity.
Defined.

(** Outside the daemon's vocabulary the common state is not returned as it
    is: the switch falls to [unknown]. *)
Example statusToState_foreign_state :
  statusToState [mkComponent "web" "exited"] = Unknown.
Proof. vm_compute. reflexivity. Qed.

(** With no component at all the aggregate is [partial]. *)
Example statusToState_empty : statusToState [] = Partial.
Proof. vm_compute. reflexivity. Qed.

End Status.

(** ** Removing a service (pkg/catch/catch.go, RemoveService) *)

Module Remove.
Import DB.
Local Open Scope string_scope.

(** [svc.Status]. *)
Inductive Status : Type :=
| StatusRunning
| StatusStopped
| StatusUnknown.

Definition Status_eqb (a b : Status) : bool :=
  match a, b with
  | StatusRunning, StatusRunning
  | StatusStopped, StatusStopped
  | StatusUnknown, StatusUnknown => true
  | _, _ => false
  end.

Inductive error : Type :=
| ErrGetDB
| errServiceNotFound
| errNoServiceConfigured
| ErrRunner (msg : string)
| ErrUnknownServiceType
| ErrServiceType (cause : error)
| ErrGetService (cause : error)
| ErrNotStopped
| ErrListDirs
| ErrRemoveDir (dir : string)
| ErrTailscaleClient
| ErrDeleteDevice (id : string)
| ErrRemoveFromDB.

(** [errors.Is(err, errNoServiceConfigured)], through the wrapping done with
    [%w]. *)
Fixpoint isNoServiceConfigured (e : error) : bool :=
  match e with
  | errNoServiceConfigured => true
  | ErrServiceType c | ErrGetService c => isNoServiceConfigured c
  | _ => false
  end.

Inductive globResult : Type :=
| GlobMatches (paths : list string)
| GlobError (notExist : bool).

Inductive deleteResult : Type :=
| DeleteOk
| DeleteNotFound
| DeleteFailed.

(** The host as [RemoveService] sees it: the store, the paths that exist on
    disk, and the mesh-VPN devices deleted so far. *)
Record World : Type := mkWorld {
  data : Data;
  fs : list string;
  deletedDevices : list string
}.

(** What the collaborators answer in a run: whether the store can be read
    and written, what the runners report, which removals fail, and how the
    mesh-VPN control plane responds. *)
Record Env : Type := mkEnv {
  getDB_fails : bool;
  composeStatuses : string -> error + list (string * Status);
  systemdStatus : string -> error + Status;
  globOther : string -> globResult;
  removeAll_fails : string -> bool;
  tsClient_fails : bool;
  deleteDevice : string -> deleteResult;
  mutateData_fails : bool
}.

Record Config : Type := mkConfig { ServicesRoot : string }.

Definition getDB (env : Env) (w : World) : error + Data :=
  if getDB_fails env then inl ErrGetDB else inr (data w).

Definition serviceView (env : Env) (w : World) (sn : string) : error + Service :=
  match getDB env w with
  | inl e => inl e
  | inr d =>
      match Services d !! sn with
      | None => inl errServiceNotFound
      | Some sv => inr sv
      end
  end.

Definition serviceType (env : Env) (w : World) (sn : string) : error + ServiceType :=
  match serviceView env w sn with
  | inl e => inl e
  | inr sv => inr (SvcType sv)
  end.

(** [DockerComposeStatus]: build the compose runner for the service, then ask
    it for the container statuses. *)
Definition DockerComposeStatus (env : Env) (w : World) (ns : string)
    : error + list (string * Status) :=
  match serviceView env w ns with
  | inl e => inl (ErrGetService e)
  | inr _ => composeStatuses env ns
  end.

Definition SystemdStatus (env : Env) (w : World) (ns : string) : error + Status :=
  match serviceView env w ns with
  | inl e => inl (ErrGetService e)
  | inr _ => systemdStatus env ns
  end.

(** [IsServiceRunning]. *)
Definition IsServiceRunning (env : Env) (w : World) (name : string) : error + bool :=
  match serviceType env w name with
  | inl e =>
      if isNoServiceConfigured e then inr false else inl (ErrServiceType e)
  | inr ServiceTypeDockerCompose =>
      match DockerComposeStatus env w name with
      | inl e => inl e
      | inr sts => inr (existsb (fun '(_, st) => Status_eqb st StatusRunning) sts)
      end
  | inr ServiceTypeSystemd =>
      match SystemdStatus env w name with
      | inl e => inl e
      | inr st => inr (Status_eqb st StatusRunning)
      end
  | inr (ServiceTypeOther _) => inl ErrUnknownServiceType
  end.

(** The pattern characters of [filepath.Match] on Unix. *)
Fixpoint hasMeta (path : string) : bool :=
  match path with
  | EmptyString => false
  | String c rest =>
      Ascii.eqb c "*" || Ascii.eqb c "?" || Ascii.eqb c "[" || Ascii.eqb c "\"
      || hasMeta rest
  end.

(** The existing paths directly inside directory [dir] (given with its
    trailing slash, as [filepath.Split] returns it). *)
Definition children (dir : string) (paths : list string) : list string :=
  List.filter (fun p => String.eqb (fst (Filepath.Split p)) dir
                        && negb (String.eqb (snd (Filepath.Split p)) ""))
              paths.

(** [filepath.Glob]: for a pattern [dir/*] whose directory part has no
    pattern character, the entries of [dir]; other patterns are left to the
    environment. *)
Definition Glob (env : Env) (paths : list string) (pattern : string) : globResult :=
  let '(dir, file) := Filepath.Split pattern in
  if String.eqb file "*" && negb (hasMeta dir)
  then GlobMatches (children dir paths)
  else globOther env pattern.

(** [q] is [p] or lies below it. *)
Definition within (p q : string) : bool :=
  String.eqb q p || String.prefix (p ++ "/") q.

(** [os.RemoveAll] on the set of existing paths. *)
Definition RemoveAll (paths : list string) (p : string) : list string :=
  List.filter (fun q => negb (within p q)) paths.

(** The loop over the glob matches: everything but [data] is removed; the
    first failing removal ends the loop with what was removed until then. *)
Fixpoint removeDirs (env : Env) (paths : list string) (dirs : list string)
    : option string * list string :=
  match dirs with
  | [] => (None, paths)
  | dir :: rest =>
      if String.eqb (Filepath.Base dir) "data" then removeDirs env paths rest
      else if removeAll_fails env dir then (Some dir, paths)
      else removeDirs env (RemoveAll paths dir) rest
  end.

Inductive removeResult : Type :=
| Failed (e : error) (w : World)
| Published (w : World) (o : Events.outcome).

Definition ServiceDeleted (name : string) : Events.Event :=
  Events.mkEvent 0 name Events.EventTypeServiceDeleted None.

(** The device clean-up of a service on the mesh VPN: [inl] is the error
    [RemoveService] returns, [inr] the devices deleted so far. *)
Definition deleteTailscaleDevice (env : Env) (w : World) (name : string)
    : error + list string :=
  match serviceView env w name with
  | inl _ => inr (deletedDevices w)
  | inr sv =>
      match TSNet sv with
      | Some ts =>
          if negb (String.eqb (StableID ts) "") then
            if tsClient_fails env then inl ErrTailscaleClient
            else match deleteDevice env (StableID ts) with
                 | DeleteOk => inr (deletedDevices w ++ [StableID ts])%list
                 | DeleteNotFound => inr (deletedDevices w)
                 | DeleteFailed => inl (ErrDeleteDevice (StableID ts))
                 end
          else inr (deletedDevices w)
      | None => inr (deletedDevices w)
      end
  end.

(** [RemoveService], with the listener set and channels [PublishEvent] works
    on. *)
Definition RemoveService (cfg : Config) (env : Env) (now : Z)
    (els : list Events.EventListener) (chans : gmap nat Events.Chan)
    (w : World) (name : string) : removeResult :=
  match IsServiceRunning env w name with
  | inr true => Failed ErrNotStopped w
  | _ =>
      let pattern := Filepath.Join [ServicesRoot cfg; name; "*"] in
      match Glob env (fs w) pattern with
      | GlobError false => Failed ErrListDirs w
      | g =>
          let dirs := match g with GlobMatches l => l | GlobError _ => [] end in
          match removeDirs env (fs w) dirs with
          | (Some dir, paths) =>
              Failed (ErrRemoveDir dir) (mkWorld (data w) paths (deletedDevices w))
          | (None, paths) =>
              match deleteTailscaleDevice env w name with
              | inl e => Failed e (mkWorld (data w) paths (deletedDevices w))
              | inr devs =>
                  if mutateData_fails env
                  then Failed ErrRemoveFromDB (mkWorld (data w) paths devs)
                  else
                    let d' := MutateData (data w)
                                (fun d => set_Services d (delete name (Services d))) in
                    Published (mkWorld d' paths devs)
                      (Events.PublishEvent now els (ServiceDeleted name) chans)
              end
          end
      end
  end.

(** *** Properties of removal *)

Lemma In_RemoveAll (paths : list string) (p q : string) :
  In q (RemoveAll paths p) <-> In q paths /\ within p q = false.
Proof.
  unfold RemoveAll. rewrite filter_In.
  destruct (within p q); simpl; intuition congruence.
Qed.

(** With no failing removal the loop removes every match but [data]. *)
Lemma removeDirs_all (env : Env) (dirs : list string) :
  (forall p, removeAll_fails env p = false) ->
  forall paths,
  exists paths',
    removeDirs env paths dirs = (None, paths') /\
    forall q, In q paths' <->
              In q paths /\
              forall p, In p dirs -> Filepath.Base p <> "data" -> within p q = false.
Proof.
  intros Hok. induction dirs as [| dir rest IH]; intros paths; simpl.
  - exists paths. split; [reflexivity |]. intros q. split; [| tauto].
    intros H. split; [exact H | intros p []].
  - destruct (String.eqb_spec (Filepath.Base dir) "data") as [Hdata | Hdata].
    + destruct (IH paths) as (paths' & -> & Hq). exists paths'.
      split; [reflexivity |]. intros q. rewrite Hq. split.
      * intros [Hin H]. split; [exact Hin |].
        intros p [<- | Hp] Hb; [contradiction | by apply H].
      * intros [Hin H]. split; [exact Hin |]. intros p Hp. apply H. by right.
    + rewrite Hok. destruct (IH (RemoveAll paths dir)) as (paths' & -> & Hq).
      exists paths'. split; [reflexivity |]. intros q.
      rewrite Hq, In_RemoveAll. split.
      * intros [[Hin Hdir] H]. split; [exact Hin |].
        intros p [<- | Hp] Hb; [exact Hdir | by apply H].
      * intros [Hin H]. split; [split; [exact Hin |] |].
        -- apply H; [by left | exact Hdata].
        -- intros p Hp. apply H. by right.
Qed.

Lemma deleteTailscaleDevice_ok (env : Env) (w : World) (name : string) :
  tsClient_fails env = false ->
  (forall id, deleteDevice env id <> DeleteFailed) ->
  exists devs, deleteTailscaleDevice env w name = inr devs.
Proof.
  intros Hc Hd. unfold deleteTailscaleDevice.
  destruct (serviceView env w name) as [e | sv]; [eauto |].
  destruct (TSNet sv) as [ts |]; [| eauto].
  destruct (negb (String.eqb (StableID ts) "")); [| eauto].
  rewrite Hc. specialize (Hd (StableID ts)).
  destruct (deleteDevice env (StableID ts)); [eauto | eauto | contradiction].
Qed.

(** C7: a service detected as running is not removed: the call returns an
    error and the host is as it was.  Otherwise, when the removals, the
    device clean-up and the store write go through, every entry of the
    service root but [data] is removed with what lies below it, the service
    entry is deleted from the store, and [PublishEvent] is called once, with
    a [ServiceDeleted] event for the service. *)
Theorem RemoveService_contract (cfg : Config) (env : Env) (now : Z)
    (els : list Events.EventListener) (chans : gmap nat Events.Chan)
    (w : World) (name : string) :
  (IsServiceRunning env w name = inr true ->
     RemoveService cfg env now els chans w name = Failed ErrNotStopped w) /\
  (IsServiceRunning env w name <> inr true ->
   forall dir,
     Filepath.Split (Filepath.Join [ServicesRoot cfg; name; "*"]) = (dir, "*") ->
     hasMeta dir = false ->
     (forall p, removeAll_fails env p = false) ->
     tsClient_fails env = false ->
     (forall id, deleteDevice env id <> DeleteFailed) ->
     mutateData_fails env = false ->
     exists w',
       RemoveService cfg env now els chans w name
         = Published w' (Events.PublishEvent now els (ServiceDeleted name) chans) /\
       (forall q, In q (fs w') <->
                  In q (fs w) /\
                  forall p, In p (children dir (fs w)) ->
                            Filepath.Base p <> "data" -> within p q = false) /\
       Services (data w') = delete name (Services (data w)) /\
       Images (data w') = Images (data w)).
Proof.
  split.
  - intros Hrun. unfold RemoveService. by rewrite Hrun.
  - intros Hnot dir Hsplit Hmeta Hrm Hts Hdel Hmut.
    destruct (removeDirs_all env (children dir (fs w)) Hrm (fs w))
      as (paths' & Hdirs & Hpaths).
    destruct (deleteTailscaleDevice_ok env w name Hts Hdel) as [devs Hdevs].
    exists (mkWorld (set_Services (data w) (delete name (Services (data w))))
                    paths' devs).
    split; [| split; [exact Hpaths | split; reflexivity]].
    unfold RemoveService, Glob. rewrite Hsplit, Hmeta. simpl andb. cbv iota.
    rewrite Hdirs, Hdevs, Hmut. unfold MutateData.
    destruct (IsServiceRunning env w name) as [e | [|]];
      [reflexivity | contradiction | reflexivity].
Qed.

(** A service tree on disk, with a neighbour. *)
Definition exampleWorld : World :=
  mkWorld
    (mkData {[ "app" := mkService "app" ServiceTypeSystemd 1 1 ∅ None ]} ∅)
    [ "/srv/yeet/app"; "/srv/yeet/app/bin"; "/srv/yeet/app/bin/app-1";
      "/srv/yeet/app/data"; "/srv/yeet/app/data/db.sqlite";
      "/srv/yeet/app/env"; "/srv/yeet/app/run"; "/srv/yeet/web/bin" ]
    [].

Definition exampleEnv (st : Status) : Env :=
  mkEnv false (fun _ => inr []) (fun _ => inr st) (fun _ => GlobError false)
        (fun _ => false) false (fun _ => DeleteOk) false.

Lemma RemoveService_contract_witness :
  let cfg := mkConfig "/srv/yeet" in
  RemoveService cfg (exampleEnv StatusRunning) 0 [] ∅ exampleWorld "app"
    = Failed ErrNotStopped exampleWorld /\
  exists w',
    RemoveService cfg (exampleEnv StatusStopped) 0 [] ∅ exampleWorld "app"
      = Published w' (Events.Returned ∅) /\
    Services (data w') !! "app" = None.
Proof.
  intros cfg. split.
  - apply (RemoveService_contract cfg (exampleEnv StatusRunning) 0 [] ∅
             exampleWorld "app").
    vm_compute. reflexivity.
  - destruct (RemoveService_contract cfg (exampleEnv StatusStopped) 0 [] ∅
                exampleWorld "app") as [_ Hstopped].
    destruct (Hstopped ltac:(vm_compute; discriminate) "/srv/yeet/app/"
                ltac:(vm_compute; reflexivity) ltac:(vm_compute; reflexivity)
                ltac:(reflexivity) ltac:(reflexivity)
                ltac:(intros id; discriminate) ltac:(reflexivity))
      as (w' & Hres & _ & Hsvc & _).
    exists w'. split; [exact Hres |].
    rewrite Hsvc. apply lookup_delete_eq.
Defined.

(** The tree after removal: the root, [data] and its contents, and the
    neighbour are left. *)
Example RemoveService_example_tree :
  match RemoveService (mkConfig "/srv/yeet") (exampleEnv StatusStopped) 0 [] ∅
          exampleWorld "app" with
  | Published w' _ =>
      fs w' = [ "/srv/yeet/app"; "/srv/yeet/app/data";
                "/srv/yeet/app/data/db.sqlite"; "/srv/yeet/web/bin" ]
  | Failed _ _ => False
  end.
Proof. vm_compute. reflexivity. Qed.

End Remove.

(** ** The SFTP subsystem (fileHandler) *)

Module Sftp.
Import DB.
Local Open Scope string_scope.

Inductive error : Type :=
| ErrEmptyUser
| ErrInvalidUser (user : string)
| ErrGetDB
| errServiceNotFound
| ErrInvalidPath (path : string)
| ErrUnsupportedMethod (method : string)
| ErrUnsupportedPath (path : string)
| ErrOpen (path : string)
| ErrCreateDirs
| ErrNewFileInstaller.

(** An [sftp.Request], as far as the handlers look at it. *)
Record Request : Type := mkRequest {
  Method : string;
  Filepath_ : string
}.

(** The SSH session: the user name the client logged in with. *)
Record Session : Type := mkSession { User : string }.

(** The host: the store and the regular files on disk. *)
Record World : Type := mkWorld {
  data : Data;
  files : gmap string string
}.

Record Env : Type := mkEnv {
  getDB_fails : bool;
  ensureDirs_fails : bool;
  openFile_fails : string -> bool;
  newFileInstaller_fails : bool
}.

Record Config : Type := mkConfig { ServicesRoot : string }.

(** What a write request is answered with: a file on the host opened for
    writing, or an installer fed by the upload. *)
Inductive writer : Type :=
| HostFile (path : string)
| FileInstaller (serviceName user : string) (envFile stageOnly : bool).

(** Modelled from the spec: the artifact name [db.ArtifactEnvFile],
    [env-file] in the closed set of artifact names. *)
Definition ArtifactEnvFile : string := "env-file".

Section WithStore.

(** [ArtifactStore.Latest(name)] of the store package: a path and whether
    there is one. *)
Variable Latest : ArtifactStore -> string -> string * bool.

(** [serviceAndUser]: the session user is [service] or [user@service]. *)
Definition serviceAndUser (conn : Session) : error + (string * string) :=
  if String.eqb (User conn) "" then inl ErrEmptyUser
  else
    let '(user, service, ok) := Strings.Cut (User conn) "@" in
    if negb ok then inr (User conn, "")
    else if Strings.Contains service "@" then inl (ErrInvalidUser (User conn))
    else inr (service, user).

Definition serviceView (env : Env) (w : World) (sn : string) : error + Service :=
  if getDB_fails env then inl ErrGetDB
  else match Services (data w) !! sn with
       | None => inl errServiceNotFound
       | Some sv => inr sv
       end.

Definition serviceRootDir (cfg : Config) (sn : string) : string :=
  Filepath.Join [ServicesRoot cfg; sn].

(** [Server.envFile]: the [staged] argument is not looked at. *)
Definition envFile (sv : Service) (staged : bool) : error + string :=
  let af := Artifacts sv in
  let '(ef, _) := Latest af ArtifactEnvFile in
  inr ef.

(** [resolvePath]. *)
Definition resolvePath (cfg : Config) (env : Env) (session : Session)
    (w : World) (fullPath : string) : error + string :=
  match serviceAndUser session with
  | inl e => inl e
  | inr (sn, _) =>
      if String.eqb fullPath "/env" || String.eqb fullPath "/stage/env" then
        match serviceView env w sn with
        | inl e => inl e
        | inr sv => envFile sv (String.eqb fullPath "/stage/env")
        end
      else
        let '(path, ok) := Strings.CutPrefix fullPath "/data" in
        if negb ok then inl (ErrInvalidPath path)
        else if negb (Strings.HasPrefix path "/") && negb (String.eqb path "")
        then inl (ErrInvalidPath path)
        else if String.eqb path "/.env" then inl (ErrInvalidPath path)
        else
          let svcDir := serviceRootDir cfg sn in
          inr (Filepath.Join [svcDir; fullPath])
  end.

(** [os.Open] on the files of the host. *)
Definition Open (w : World) (path : string) : error + string :=
  match files w !! path with
  | None => inl (ErrOpen path)
  | Some content => inr content
  end.

(** [Fileread]: the content the returned reader gives access to. *)
Definition Fileread (cfg : Config) (env : Env) (session : Session)
    (w : World) (req : Request) : error + string :=
  if negb (String.eqb (Method req) "Get")
  then inl (ErrUnsupportedMethod (Method req))
  else match resolvePath cfg env session w (Filepath_ req) with
       | inl e => inl e
       | inr path => Open w path
       end.


Definition uploadFile (cfg : Config) (env : Env) (session : Session)
    (w : World) (dst : string) : error + writer :=
  match serviceAndUser session with
  | inl e => inl e
  | inr (sn, user) =>
      if ensureDirs_fails env then inl ErrCreateDirs
      else match resolvePath cfg env session w dst with
           | inl e => inl e
           | inr path =>
               if openFile_fails env path then inl (ErrOpen path)
               else inr (HostFile path)
           end
  end.

(** [fileHandler.envFile]: for a service the store does not know, the env
    file is staged only. *)
Definition envFileInstaller (env : Env) (session : Session) (w : World)
    (install : bool) : error + writer :=
  match serviceAndUser session with
  | inl e => inl e
  | inr (sn, user) =>
      match serviceView env w sn with
      | inl errServiceNotFound =>
          if newFileInstaller_fails env then inl ErrNewFileInstaller
          else inr (FileInstaller sn user true true)
      | inl e => inl e
      | inr _ =>
          if newFileInstaller_fails env then inl ErrNewFileInstaller
          else inr (FileInstaller sn user true (negb install))
      end
  end.

Definition binFile (env : Env) (session : Session) (install : bool)
    : error + writer :=
  match serviceAndUser session with
  | inl e => inl e
  | inr (sn, user) =>
      if newFileInstaller_fails env then inl ErrNewFileInstaller
      else inr (FileInstaller sn user false (negb install))
  end.

(** [Filewrite]. *)
Definition Filewrite (cfg : Config) (env : Env) (session : Session)
    (w : World) (req : Request) : error + writer :=
  if negb (String.eqb (Method req) "Put")
  then inl (ErrUnsupportedMethod (Method req))
  else if Strings.HasPrefix (Filepath_ req) "/data/"
  then uploadFile cfg env session w (Filepath_ req)
  else if String.eqb (Filepath_ req) "/" || String.eqb (Filepath_ req) "/stage"
  then binFile env session (String.eqb (Filepath_ req) "/")
  else if String.eqb (Filepath_ req) "/env" || String.eqb (Filepath_ req) "/stage/env"
  then envFileInstaller env session w (String.eqb (Filepath_ req) "/env")
  else inl (ErrUnsupportedPath (Filepath_ req)).

End WithStore.


(** *** Properties of the SFTP paths *)

Section Properties.

Variable Latest : ArtifactStore -> string -> string * bool.
Variable cfg : Config.
Variable env : Env.
Variable session : Session.
Variable w : World.


Lemma CutPrefix_data (rest : string) :
  Strings.CutPrefix ("/data" ++ rest) "/data" = (rest, true).
Proof.
  unfold Strings.CutPrefix, Strings.HasPrefix. cbn.
  by destruct rest.
Qed.

Lemma resolvePath_data (sn user rest : string) :
  serviceAndUser session = inr (sn, user) ->
  rest = "" \/ Strings.HasPrefix rest "/" = true ->
  rest <> "/.env" ->
  resolvePath Latest cfg env session w ("/data" ++ rest)
    = inr (Filepath.Join [serviceRootDir cfg sn; "/data" ++ rest]).
Proof.
  intros Hsn Hrest Hne. unfold resolvePath. rewrite Hsn.
  replace (String.eqb ("/data" ++ rest) "/env" || String.eqb ("/data" ++ rest) "/stage/env")
    with false by reflexivity.
  rewrite CutPrefix_data. cbn [negb].
  apply String.eqb_neq in Hne. rewrite Hne.
  destruct Hrest as [-> | ->]; reflexivity.
Qed.

(** Both env paths resolve to the same file: the flag that tells them apart
    is dropped in [envFile]. *)
Lemma resolvePath_stage_env_same :
  resolvePath Latest cfg env session w "/stage/env"
    = resolvePath Latest cfg env session w "/env".
Proof.
  unfold resolvePath. destruct (serviceAndUser session) as [e | [sn user]];
    [reflexivity |].
  cbn. destruct (serviceView env w sn); reflexivity.
Qed.





End Properties.




(** The file the guard protects is the one [command] of the compose runner
    writes at [filepath.Join(DataDir, ".env")]. *)
Example data_env_is_compose_env :
  Filepath.Join [serviceRootDir (mkConfig "/srv/yeet") "app"; "/data/.env"]
    = Filepath.Join [Filepath.Join [serviceRootDir (mkConfig "/srv/yeet") "app"; "data"];
                     ".env"].
Proof. vm_compute. reflexivity. Qed.

(** The comparison is made on the path as received; request paths reach the
    handlers cleaned by the SFTP request server, which is what keeps a
    spelling such as [/data/./.env] from getting here. *)
Example resolvePath_compares_verbatim :
  resolvePath (fun _ _ => ("", false)) (mkConfig "/srv/yeet")
              (mkEnv false false (fun _ => false) false)
              (mkSession "app") (mkWorld (mkData ∅ ∅) ∅) "/data/./.env"
    = inr "/srv/yeet/app/data/.env".
Proof. vm_compute. reflexivity. Qed.

(** A service [app] with a binary, an env file and a data file on disk. *)
Definition exampleLatest (af : ArtifactStore) (name : string) : string * bool :=
  match af !! name with
  | Some refs => match refs !! "latest" with
                 | Some path => (path, true)
                 | None => ("", false)
                 end
  | None => ("", false)
  end.

Definition exampleWorld : World :=
  mkWorld
    (mkData
       {[ "app" := mkService "app" ServiceTypeSystemd 1 1
                     {[ "binary" := {[ "latest" := "/srv/yeet/app/bin/app-1" ]};
                        "env-file" := {[ "latest" := "/srv/yeet/app/env/env-1" ]} ]}
                     None ]}
       ∅)
    {[ "/srv/yeet/app/bin/app-1" := "ELF...";
       "/srv/yeet/app/env/env-1" := "FOO=1";
       "/srv/yeet/app/data/notes.txt" := "hello" ]}.

Definition exampleEnv : Env := mkEnv false false (fun _ => false) false.

(** C9, the claim as written fails: a read of [/] or of [/stage] is turned
    down as an invalid path although the service has a main artifact. *)
Lemma Fileread_root_counterexample :
  Fileread exampleLatest (mkConfig "/srv/yeet") exampleEnv (mkSession "app")
           exampleWorld (mkRequest "Get" "/")
    = inl (ErrInvalidPath "/") /\
  Fileread exampleLatest (mkConfig "/srv/yeet") exampleEnv (mkSession "app")
           exampleWorld (mkRequest "Get" "/stage")
    = inl (ErrInvalidPath "/stage").
Proof. split; vm_compute; reflexivity. Qed.

(** C9 (amended): for a session that names service [sn], a read of [/env]
    opens the env file the artifact index reports for the service, and a
    read of [/data] or [/data/...] other than [/data/.env] opens the path of
    that name under the service root; reads of [/] and [/stage] are turned
    down as invalid paths. *)
Theorem Fileread_virtual_paths (Latest : ArtifactStore -> string -> string * bool)
    (cfg : Config) (env : Env) (session : Session) (w : World)
    (sn user : string) :
  serviceAndUser session = inr (sn, user) ->
  (forall sv, serviceView env w sn = inr sv ->
     Fileread Latest cfg env session w (mkRequest "Get" "/env")
       = Open w (fst (Latest (Artifacts sv) ArtifactEnvFile))) /\
  (forall rest,
     rest = "" \/ Strings.HasPrefix rest "/" = true ->
     rest <> "/.env" ->
     Fileread Latest cfg env session w (mkRequest "Get" ("/data" ++ rest))
       = Open w (Filepath.Join [serviceRootDir cfg sn; "/data" ++ rest])) /\
  Fileread Latest cfg env session w (mkRequest "Get" "/")
    = inl (ErrInvalidPath "/") /\
  Fileread Latest cfg env session w (mkRequest "Get" "/stage")
    = inl (ErrInvalidPath "/stage").
Proof.
  intros Hsn. split; [| split; [| split]].
  - intros sv Hsv. unfold Fileread, resolvePath. cbn [Method Filepath_].
    rewrite Hsn. cbn. rewrite Hsv. unfold envFile.
    by destruct (Latest (Artifacts sv) ArtifactEnvFile).
  - intros rest Hrest Hne. unfold Fileread. cbn [Method Filepath_].
    replace (negb (String.eqb "Get" "Get")) with false by reflexivity.
    by rewrite (resolvePath_data Latest cfg env session w sn user rest Hsn Hrest Hne).
  - unfold Fileread, resolvePath. cbn [Method Filepath_]. rewrite Hsn. reflexivity.
  - unfold Fileread, resolvePath. cbn [Method Filepath_]. rewrite Hsn. reflexivity.
Qed.

Lemma Fileread_virtual_paths_witness :
  Fileread exampleLatest (mkConfig "/srv/yeet") exampleEnv (mkSession "app")
           exampleWorld (mkRequest "Get" "/env") = inr "FOO=1" /\
  Fileread exampleLatest (mkConfig "/srv/yeet") exampleEnv (mkSession "app")
           exampleWorld (mkRequest "Get" "/data/notes.txt") = inr "hello".
Proof.
  destruct (Fileread_virtual_paths exampleLatest (mkConfig "/srv/yeet") exampleEnv
              (mkSession "app") exampleWorld "app" "" eq_refl)
    as (Henv & Hdata & _).
  split.
  - rewrite (Henv (mkService "app" ServiceTypeSystemd 1 1
                     {[ "binary" := {[ "latest" := "/srv/yeet/app/bin/app-1" ]};
                        "env-file" := {[ "latest" := "/srv/yeet/app/env/env-1" ]} ]}
                     None)).
    + vm_compute. reflexivity.
    + vm_compute. reflexivity.
  - refine (eq_trans (Hdata "/notes.txt" _ _) _).
    + right. reflexivity.
    + discriminate.
    + vm_compute. reflexivity.
Defined.

End Sftp.

(** * Further properties of the embedded code *)

(** ** The authorizer as a decision table *)

Module AuthTable.
Import Auth.

(** X1: [verifyCaller] lets a caller in exactly when both look-ups on the local
    client succeed and either the peer is tagged, the local node is tagged
    and they share a tag, or the peer is untagged and the local node is
    tagged or owned by the peer's user.  A failed look-up never lets anyone
    in. *)
Theorem verifyCaller_decision_table (lc : LocalClient) (remoteAddr : string) :
  verifyCaller lc remoteAddr = None <->
  exists st who,
    StatusWithoutPeers lc = Some st /\
    WhoIs lc remoteAddr = Some who /\
    ((Node_IsTagged (WhoNode who) = true /\
      PeerStatus_IsTagged (Self st) = true /\
      exists t, In t (Tags (WhoNode who)) /\ In t (SelfTags_AsSlice (Self st)))
     \/
     (Node_IsTagged (WhoNode who) = false /\
      (PeerStatus_IsTagged (Self st) = true \/
       UserID (Self st) = User (WhoNode who)))).
Proof.
  unfold verifyCaller.
  destruct (StatusWithoutPeers lc) as [st |].
  2:{ split; [discriminate | intros (st & who & [=] & _)]. }
  destruct (WhoIs lc remoteAddr) as [who |].
  2:{ split; [discriminate | intros (st' & who & _ & [=] & _)]. }
  destruct (Node_IsTagged (WhoNode who)) eqn:Hpeer.
  - destruct (PeerStatus_IsTagged (Self st)) eqn:Hself; simpl.
    + destruct (overlaps (Tags (WhoNode who)) (SelfTags_AsSlice (Self st))) eqn:Ho.
      * apply overlaps_spec in Ho. split; [intros _ | reflexivity].
        exists st, who. repeat split. left. repeat split; assumption.
      * split; [discriminate |].
        intros (st' & who' & [= <-] & [= <-] & [(_ & _ & Hshare) | (Hp & _)]).
        -- apply overlaps_spec in Hshare. congruence.
        -- congruence.
    + split; [discriminate |].
      intros (st' & who' & [= <-] & [= <-] & [(_ & Hs & _) | (Hp & _)]);
        congruence.
  - destruct (PeerStatus_IsTagged (Self st)) eqn:Hself.
    + split; [intros _ | reflexivity].
      exists st, who. repeat split. right. auto.
    + destruct (Z.eqb_spec (UserID (Self st)) (User (WhoNode who))) as [Hu | Hu].
      * split; [intros _ | reflexivity].
        exists st, who. repeat split. right. auto.
      * split; [discriminate |].
        intros (st' & who' & [= <-] & [= <-] & [(Hp & _) | (_ & [Hs | Hsame])]);
          congruence.
Qed.

(** X2: [overlaps] does not depend on the order of its arguments, and nothing
    overlaps with an empty tag list. *)
Theorem overlaps_symmetric (a b : list string) :
  overlaps a b = overlaps b a /\ overlaps a [] = false /\ overlaps [] b = false.
Proof.
  split; [| split; [| reflexivity]].
  - destruct (overlaps a b) eqn:Hab, (overlaps b a) eqn:Hba; try reflexivity.
    + apply overlaps_spec in Hab as (x & Ha & Hb).
      assert (H : overlaps b a = true) by (apply overlaps_spec; eauto).
      congruence.
    + apply overlaps_spec in Hba as (x & Hb & Ha).
      assert (H : overlaps a b = true) by (apply overlaps_spec; eauto).
      congruence.
  - destruct (overlaps a []) eqn:H; [| reflexivity].
    apply overlaps_spec in H as (x & _ & []).
Qed.

End AuthTable.

(** ** Fan-out of events: filters, stamping and order *)

Module EventsFanout.
Import Events.
Local Open Scope nat_scope.

(** The filter [eventsCmdFunc] registers for an [events] session on service
    [sn]: everything with [--all], else the events of that service. *)
Definition eventsFilter (all : bool) (sn : string) (et : Event) : bool :=
  if all then true else String.eqb (ServiceName et) sn.

(** The filter [handleEvents] registers for a web-socket subscriber. *)
Definition handleEventsFilter (et : Event) : bool := true.

Lemma chan_send_appends (c c' : Chan) (e : Event) :
  chan_send c e = SendOk c' ->
  capacity c' = capacity c /\
  ((taken c' = taken c ++ [e] /\ queue c' = queue c) \/
   (taken c' = taken c /\ queue c' = queue c ++ [e])).
Proof.
  unfold chan_send. destruct (closed c); [discriminate |].
  destruct (waiting c) as [| n].
  - destruct (length (queue c) <? capacity c); [| discriminate].
    intros [= <-]. simpl. auto.
  - intros [= <-]. simpl. auto.
Qed.

(** X3: What a publication that returns has done to each channel: the stamped
    event was appended, once per listener on that channel whose filter let it
    through, behind everything the channel held before; nothing else
    changed. *)
Theorem PublishEvent_appends_stamped (now : Z) (els : list EventListener)
    (event : Event) (chans chans' : gmap nat Chan) :
  PublishEvent now els event chans = Returned chans' ->
  forall i,
    match chans !! i with
    | None => chans' !! i = None
    | Some c =>
        exists c' k1 k2,
          chans' !! i = Some c' /\
          capacity c' = capacity c /\
          taken c' = taken c ++ replicate k1 (set_Time event now) /\
          queue c' = queue c ++ replicate k2 (set_Time event now) /\
          k1 + k2 = countAccepting els (set_Time event now) i
    end.
Proof.
  unfold PublishEvent. set (ev := set_Time event now). clearbody ev.
  revert chans. induction els as [| el rest IH]; intros chans Hret i.
  - simpl in Hret. injection Hret as <-.
    destruct (chans !! i) as [c |]; [| reflexivity].
    exists c, 0, 0. simpl. rewrite !app_nil_r. auto.
  - cbn [publishLoop countAccepting] in *.
    destruct (accepts el ev) eqn:Hacc; cbn [negb andb] in *.
    + destruct (chans !! ch el) as [c0 |] eqn:Hlk; [| discriminate].
      destruct (chan_send c0 ev) as [c0' | |] eqn:Hsend; try discriminate.
      specialize (IH _ Hret i). rewrite lookup_insert in IH.
      apply chan_send_appends in Hsend as (Hcap & Happ).
      destruct (decide (ch el = i)) as [Heq | Hne].
      * subst i. rewrite Hlk. rewrite Nat.eqb_refl.
        destruct IH as (c' & k1 & k2 & Hc' & Hcap' & Ht & Hq & Hk).
        destruct Happ as [[Ht0 Hq0] | [Ht0 Hq0]].
        -- exists c', (S k1), k2. rewrite Hc', Hcap', Hcap, Ht, Hq, Ht0, Hq0.
           rewrite <- app_assoc. simpl. repeat split; try reflexivity. lia.
        -- exists c', k1, (S k2). rewrite Hc', Hcap', Hcap, Ht, Hq, Ht0, Hq0.
           rewrite <- app_assoc. simpl. repeat split; try reflexivity. lia.
      * apply Nat.eqb_neq in Hne. rewrite Hne. exact IH.
    + exact (IH _ Hret i).
Qed.

Lemma PublishEvent_appends_stamped_witness :
  let ev := mkEvent 0 "app" EventTypeServiceCreated None in
  let buffered := mkChan 4 [mkEvent 5 "sys" EventTypeHeartbeat None] 0 false [] in
  match PublishEvent 1000%Z [mkListener 0 None] ev {[ 0 := buffered ]} with
  | Returned chans' =>
      exists c' k, chans' !! 0 = Some c' /\
        queue c' = mkEvent 5 "sys" EventTypeHeartbeat None
                   :: replicate k (mkEvent 1000 "app" EventTypeServiceCreated None)
  | _ => False
  end.
Proof.
  intros ev buffered.
  destruct (PublishEvent 1000%Z [mkListener 0 None] ev {[ 0 := buffered ]})
    as [chans' | |] eqn:Hpub; try discriminate Hpub.
  pose proof (PublishEvent_appends_stamped 1000%Z [mkListener 0 None] ev
                {[ 0 := buffered ]} chans' Hpub 0) as H.
  rewrite lookup_singleton_eq in H.
  destruct H as (c' & k1 & k2 & Hc' & _ & _ & Hq & Hk).
  exists c', k2. split; [exact Hc' | exact Hq].
Defined.

(** X4: A subscriber of another service never holds the publisher up: when every
    listener is an [events] session without [--all] for a service other than
    the event's, the publication returns at once and no channel is touched,
    whatever state the channels are in. *)
Theorem PublishEvent_skips_other_services (now : Z) (els : list EventListener)
    (event : Event) (chans : gmap nat Chan) :
  Forall (fun el => exists sn, filter el = Some (eventsFilter false sn) /\
                               sn <> ServiceName event) els ->
  PublishEvent now els event chans = Returned chans.
Proof.
  unfold PublishEvent. induction 1 as [| el rest (sn & Hf & Hsn) _ IH];
    [reflexivity |].
  cbn [publishLoop]. unfold accepts. rewrite Hf. unfold eventsFilter.
  cbn [set_Time ServiceName].
  destruct (String.eqb_spec (ServiceName event) sn) as [Heq | _];
    [congruence |].
  exact IH.
Qed.

Lemma PublishEvent_skips_other_services_witness :
  let busy : gmap nat Chan := {[ 0 := handleEvents_chan false ]} in
  PublishEvent 1000%Z [mkListener 0 (Some (eventsFilter false "web"))]
               (mkEvent 0 "app" EventTypeServiceDeleted None) busy
    = Returned busy.
Proof.
  intros busy.
  apply (PublishEvent_skips_other_services 1000%Z
           [mkListener 0 (Some (eventsFilter false "web"))]
           (mkEvent 0 "app" EventTypeServiceDeleted None) busy).
  constructor; [| constructor].
  exists "web"%string. split; [reflexivity | discriminate].
Defined.

End EventsFanout.

(** ** The registry's manifest store (Manifest, Manifests, DeleteManifest,
    SetManifests) *)

Module RegistryStore.
Import DB Registry.
Local Open Scope string_scope.

(** [readManifest]: the blob stored under a hash, [None] when the file cannot
    be read. *)
Definition readManifest (cfg : Config) (fs : gmap string string) (sha256 : string)
    : option string :=
  fs !! manifestPath cfg sha256.

(** [RepoExists]. *)
Definition RepoExists (flt : Faults) (w : World) (repo : string) : bool :=
  if getDB_fails flt then false
  else match Images (data w) !! repo with
       | Some _ => true
       | None => false
       end.

(** [AllRepos]: the repository names, in the order the map iteration gives
    them; nil when the store cannot be read. *)
Definition AllRepos (flt : Faults) (w : World) : list string :=
  if getDB_fails flt then []
  else (map_to_list (Images (data w))).*1.

(** [Manifest]: [None] is the [false] of the Go result. *)
Definition Manifest (cfg : Config) (flt : Faults) (w : World)
    (repo reference : string) : option Registry.Manifest :=
  if getDB_fails flt then None
  else
    match Images (data w) !! repo with
    | None => None
    | Some ir =>
        match Refs ir !! reference with
        | None => None
        | Some m =>
            match readManifest cfg (files w) (BlobHash m) with
            | None => None
            | Some mb => Some (mkManifest (ContentType m) mb)
            end
        end
    end.

(** [Manifests]: every reference of the repository whose blob can be read;
    references with an unreadable blob are skipped. *)
Definition Manifests (cfg : Config) (flt : Faults) (w : World) (repo : string)
    : option (gmap string Registry.Manifest) :=
  if getDB_fails flt then None
  else
    match Images (data w) !! repo with
    | None => None
    | Some ir =>
        if Nat.eqb (size (Refs ir)) 0 then Some ∅
        else Some (omap (fun m =>
                           match readManifest cfg (files w) (BlobHash m) with
                           | None => None
                           | Some mb => Some (mkManifest (ContentType m) mb)
                           end) (Refs ir))
    end.

(** [DeleteManifest]. *)
Definition DeleteManifest (flt : Faults) (w : World) (repo ref : string) : World :=
  if getDB_fails flt then w
  else
    let d := data w in
    match Images d !! repo with
    | None => w
    | Some ir =>
        let d' := set_Images d (<[repo := mkImageRepo (delete ref (Refs ir))]> (Images d)) in
        if dbSet_fails flt then w
        else mkWorld d' (files w) (installer w)
    end.

Section WithHash.

Variable sha256hex : string -> string.

(** The loop of [SetManifests] over the manifests in iteration order: each
    blob is stored and its reference set; [writeFails] tells which blob
    writes fail.  [None] is the early return on a failed write, with the
    files written until then. *)
Fixpoint setManifestsLoop (cfg : Config) (writeFails : string -> bool)
    (manifests : list (string * Registry.Manifest))
    (fs : gmap string string) (refs : gmap string ImageManifest)
    : gmap string string * option (gmap string ImageManifest) :=
  match manifests with
  | [] => (fs, Some refs)
  | (reference, manifest) :: rest =>
      if writeFails (Blob manifest) then (fs, None)
      else
        let mh := sha256hex (Blob manifest) in
        setManifestsLoop cfg writeFails rest
          (<[manifestPath cfg mh := Blob manifest]> fs)
          (<[reference := mkImageManifest (MContentType manifest) mh]> refs)
  end.

(** [SetManifests]. *)
Definition SetManifests (cfg : Config) (flt : Faults) (writeFails : string -> bool)
    (w : World) (repo : string) (manifests : list (string * Registry.Manifest))
    : World :=
  if getDB_fails flt then w
  else
    let d := data w in
    let ir := default (mkImageRepo ∅) (Images d !! repo) in
    match setManifestsLoop cfg writeFails manifests (files w) (Refs ir) with
    | (fs, None) => mkWorld d fs (installer w)
    | (fs, Some refs) =>
        if dbSet_fails flt then mkWorld d fs (installer w)
        else mkWorld (set_Images d (<[repo := mkImageRepo refs]> (Images d)))
                     fs (installer w)
    end.

End WithHash.

(** *** Properties of the manifest store *)

Lemma referencesFor_not_latest (tag reference : string) :
  In reference (fst (referencesFor tag)) -> reference <> "latest".
Proof.
  unfold referencesFor.
  destruct (String.eqb_spec tag "run") as [-> | Hrun].
  { intros [<- | [<- | []]]; discriminate. }
  destruct (String.eqb_spec tag "latest") as [-> | Hlatest].
  { intros [<- | []]; discriminate. }
  intros [<- | []]. exact Hlatest.
Qed.

Lemma fold_insert_lookup_other (im : ImageManifest) (references : list string)
    (refs : gmap string ImageManifest) (key : string) :
  ~ In key references ->
  fold_left (fun m reference => <[reference := im]> m) references refs !! key
    = refs !! key.
Proof.
  revert refs. induction references as [| r rest IH]; intros refs Hnot;
    [reflexivity |].
  simpl. rewrite IH by (intros H; apply Hnot; by right).
  apply lookup_insert_ne. intros ->. apply Hnot. by left.
Qed.

Lemma fold_insert_lookup_in (im : ImageManifest) (references : list string)
    (refs : gmap string ImageManifest) (key : string) :
  In key references ->
  fold_left (fun m reference => <[reference := im]> m) references refs !! key
    = Some im.
Proof.
  revert refs. induction references as [| r rest IH]; intros refs Hin; [done |].
  simpl. destruct (in_dec string_dec key rest) as [Hrest | Hrest].
  - by apply IH.
  - rewrite fold_insert_lookup_other by done.
    destruct Hin as [-> | Hin]; [apply lookup_insert_eq | contradiction].
Qed.

Lemma Manifest_eta (m : Registry.Manifest) :
  mkManifest (MContentType m) (Blob m) = m.
Proof. by destruct m. Qed.

Lemma SetManifest_ok_world (sha256hex : string -> string)
    (Gen : ArtifactStore -> string -> Z -> option string)
    (cfg : Config) (flt : Faults) (w : World) (repo tag : string)
    (manifest : Registry.Manifest) :
  Strings.Count repo "/" = 1%nat ->
  getDB_fails flt = false ->
  writeFile_fails flt = false ->
  dbSet_fails flt = false ->
  let w' := SetManifest sha256hex Gen cfg flt w repo tag manifest in
  let im := mkImageManifest (MContentType manifest) (sha256hex (Blob manifest)) in
  Images (data w') !! repo
    = Some (mkImageRepo (fold_left (fun m reference => <[reference := im]> m)
                                   (fst (referencesFor tag))
                                   (refsOf (data w) repo))) /\
  files w' !! manifestPath cfg (sha256hex (Blob manifest)) = Some (Blob manifest).
Proof.
  intros Hcount Hdb Hwrite Hset.
  destruct (Strings.Count_slash_1_Cut repo Hcount)
    as (svc & container & Hcut & Hcont & _).
  cbv zeta. unfold SetManifest, storeManifest, refsOf.
  rewrite Hcount, Hcut, Hcont, Hdb, Hwrite, Hset. cbn [Nat.eqb negb].
  destruct (referencesFor tag) as [references shouldInstall]. cbn [fst].
  destruct (newFileInstaller_fails flt);
    [| destruct (composeFileFor _ _ _ _ _ _);
       [destruct (copy_fails flt) |]];
    cbn; rewrite !lookup_insert_eq; done.
Qed.

(** X7: Reading back what was written: after a manifest write whose three
    persistence steps went through, the manifest is served under every
    reference the tag is stored as, and the repository exists.  A manifest
    pushed as [latest] is served as [staged], and not as [latest] unless the
    repository had such a reference before; every tag the image callback
    accepts ends up readable as [staged]. *)
Theorem SetManifest_read_back (sha256hex : string -> string)
    (Gen : ArtifactStore -> string -> Z -> option string)
    (cfg : Config) (flt : Faults) (w : World) (repo tag digest : string)
    (manifest : Registry.Manifest) :
  Strings.Count repo "/" = 1%nat ->
  getDB_fails flt = false ->
  writeFile_fails flt = false ->
  dbSet_fails flt = false ->
  let w' := SetManifest sha256hex Gen cfg flt w repo tag manifest in
  (forall reference, In reference (fst (referencesFor tag)) ->
     Manifest cfg flt w' repo reference = Some manifest) /\
  RepoExists flt w' repo = true /\
  (refsOf (data w) repo !! "latest" = None ->
     Manifest cfg flt w' repo "latest" = None) /\
  (OnImageReceived repo tag digest = true ->
     Manifest cfg flt w' repo "staged" = Some manifest).
Proof.
  intros Hcount Hdb Hwrite Hset.
  destruct (SetManifest_ok_world sha256hex Gen cfg flt w repo tag manifest
              Hcount Hdb Hwrite Hset) as [Himg Hfile].
  cbv zeta in *.
  assert (Hread : forall reference, In reference (fst (referencesFor tag)) ->
            Manifest cfg flt (SetManifest sha256hex Gen cfg flt w repo tag manifest)
                     repo reference = Some manifest).
  { intros reference Hin. unfold Manifest, readManifest.
    rewrite Hdb, Himg. cbn [Refs].
    rewrite (fold_insert_lookup_in _ _ _ _ Hin). cbn [BlobHash ContentType].
    rewrite Hfile. by rewrite Manifest_eta. }
  split; [exact Hread |]. split; [| split].
  - unfold RepoExists. by rewrite Hdb, Himg.
  - intros Hnone. unfold Manifest. rewrite Hdb, Himg. cbn [Refs].
    rewrite fold_insert_lookup_other, Hnone; [reflexivity |].
    intros Hin. by apply referencesFor_not_latest in Hin.
  - intros Hok. apply Hread. unfold OnImageReceived in Hok.
    rewrite Hcount in Hok. cbn [Nat.eqb negb] in Hok.
    unfold referencesFor.
    destruct (String.eqb tag "run"); [right; by left |].
    destruct (String.eqb tag "latest"); [by left | discriminate].
Qed.

Lemma SetManifest_read_back_witness :
  let sha (b : string) := "9f86d0" in
  let cfg := mkConfig "/srv/yeet/services" "/srv/yeet/registry/manifests" in
  let w := mkWorld (mkData ∅ ∅) ∅ [] in
  let m := mkManifest "application/vnd.oci.image.manifest.v1+json" "{}" in
  let w' := SetManifest sha (fun _ _ _ => None) cfg noFaults w "app/web" "latest" m in
  Manifest cfg noFaults w' "app/web" "staged" = Some m /\
  Manifest cfg noFaults w' "app/web" "latest" = None.
Proof.
  intros sha cfg w m w'.
  destruct (SetManifest_read_back sha (fun _ _ _ => None) cfg noFaults w
              "app/web" "latest" "" m eq_refl eq_refl eq_refl eq_refl)
    as (Hread & _ & Hlatest & _).
  split.
  - apply Hread. by left.
  - apply Hlatest. reflexivity.
Defined.

(** X8: Deleting a reference: with the store readable and writable, the
    reference is gone, every other reference of every repository is served as
    before, and the repository itself stays, even without references. *)
Theorem DeleteManifest_removes (cfg : Config) (flt : Faults) (w : World)
    (repo ref : string) :
  getDB_fails flt = false ->
  dbSet_fails flt = false ->
  let w' := DeleteManifest flt w repo ref in
  Manifest cfg flt w' repo ref = None /\
  (forall repo' ref', (repo', ref') <> (repo, ref) ->
     Manifest cfg flt w' repo' ref' = Manifest cfg flt w repo' ref') /\
  (forall repo', RepoExists flt w' repo' = RepoExists flt w repo') /\
  files w' = files w.
Proof.
  intros Hdb Hset. cbv zeta. unfold DeleteManifest, Manifest, RepoExists.
  rewrite Hdb, Hset.
  destruct (Images (data w) !! repo) as [ir |] eqn:Hrepo.
  - cbn. rewrite lookup_insert_eq. cbn. rewrite lookup_delete_eq.
    split; [reflexivity |]. split; [| split; [| reflexivity]].
    + intros repo' ref' Hne.
      destruct (decide (repo' = repo)) as [-> | Hr].
      * rewrite lookup_insert_eq, Hrepo. cbn.
        rewrite lookup_delete_ne by congruence. reflexivity.
      * by rewrite lookup_insert_ne.
    + intros repo'. destruct (decide (repo' = repo)) as [-> | Hr].
      * by rewrite lookup_insert_eq, Hrepo.
      * by rewrite lookup_insert_ne.
  - rewrite Hrepo. repeat split; reflexivity.
Qed.

Lemma DeleteManifest_removes_witness :
  let cfg := mkConfig "/srv/yeet/services" "/srv/yeet/registry/manifests" in
  let im := mkImageManifest "application/json" "abc" in
  let w := mkWorld (mkData ∅ {[ "app/web" := mkImageRepo {[ "staged" := im ]} ]})
                   {[ manifestPath cfg "abc" := "{}" ]} [] in
  Manifest cfg noFaults (DeleteManifest noFaults w "app/web" "staged")
           "app/web" "staged" = None /\
  RepoExists noFaults (DeleteManifest noFaults w "app/web" "staged") "app/web"
    = true.
Proof.
  intros cfg im w.
  destruct (DeleteManifest_removes cfg noFaults w "app/web" "staged"
              eq_refl eq_refl) as (Hgone & _ & Hexists & _).
  split; [exact Hgone |]. rewrite Hexists. vm_compute. reflexivity.
Defined.

(** X9: The listing and the single look-up agree: when [Manifests] answers for a
    repository, it holds exactly what [Manifest] serves for each reference;
    it answers exactly for the repositories that exist. *)
Theorem Manifests_agrees_with_Manifest (cfg : Config) (flt : Faults) (w : World)
    (repo : string) :
  (forall ms, Manifests cfg flt w repo = Some ms ->
     forall reference, ms !! reference = Manifest cfg flt w repo reference) /\
  (Manifests cfg flt w repo = None <-> RepoExists flt w repo = false).
Proof.
  unfold Manifests, Manifest, RepoExists.
  destruct (getDB_fails flt); [split; [discriminate | done] |].
  destruct (Images (data w) !! repo) as [ir |]; [| split; [discriminate | done]].
  split.
  - intros ms Hms reference.
    destruct (Nat.eqb_spec (size (Refs ir)) 0) as [Hsize | Hsize].
    + injection Hms as <-. apply map_size_empty_iff in Hsize. rewrite Hsize.
      by rewrite !lookup_empty.
    + injection Hms as <-. rewrite lookup_omap.
      destruct (Refs ir !! reference) as [m |]; reflexivity.
  - destruct (size (Refs ir) =? 0)%nat; split; discriminate.
Qed.

Section BulkWrite.

Variable sha256hex : string -> string.
Variable cfg : Config.

Definition pathOf (entry : string * Registry.Manifest) : string :=
  manifestPath cfg (sha256hex (Blob entry.2)).

Definition storedAs (manifest : Registry.Manifest) : ImageManifest :=
  mkImageManifest (MContentType manifest) (sha256hex (Blob manifest)).

(** No two blobs of the batch land on the same file. *)
Definition collisionFree (manifests : list (string * Registry.Manifest)) : Prop :=
  forall e1 e2, In e1 manifests -> In e2 manifests ->
    pathOf e1 = pathOf e2 -> Blob e1.2 = Blob e2.2.

Lemma setManifestsLoop_ok (writeFails : string -> bool)
    (manifests : list (string * Registry.Manifest)) :
  (forall e, In e manifests -> writeFails (Blob e.2) = false) ->
  NoDup manifests.*1 ->
  collisionFree manifests ->
  forall fs refs,
  exists fs' refs',
    setManifestsLoop sha256hex cfg writeFails manifests fs refs = (fs', Some refs') /\
    (forall e, In e manifests ->
       refs' !! e.1 = Some (storedAs e.2) /\ fs' !! pathOf e = Some (Blob e.2)) /\
    (forall reference, ~ In reference manifests.*1 ->
       refs' !! reference = refs !! reference) /\
    (forall p, ~ In p (map pathOf manifests) -> fs' !! p = fs !! p).
Proof.
  induction manifests as [| [t0 m0] rest IH]; intros Hw Hnd Hcf fs refs.
  - exists fs, refs. split; [reflexivity |]. split; [intros e [] | done].
  - cbn [setManifestsLoop].
    pose proof (Hw (t0, m0) (or_introl eq_refl)) as Hw0. cbn [snd] in Hw0.
    rewrite Hw0.
    cbn [fmap list_fmap] in Hnd. apply NoDup_cons in Hnd as [Hfresh Hnd].
    destruct (IH (fun e He => Hw e (or_intror He)) Hnd
                 (fun e1 e2 H1 H2 => Hcf e1 e2 (or_intror H1) (or_intror H2))
                 (<[manifestPath cfg (sha256hex (Blob m0)) := Blob m0]> fs)
                 (<[t0 := mkImageManifest (MContentType m0) (sha256hex (Blob m0))]> refs))
      as (fs' & refs' & Hloop & Hin & Hout & Hfs).
    exists fs', refs'. split; [exact Hloop |]. split; [| split].
    + intros e [<- | He]; [| by apply Hin]. cbn [fst snd]. split.
      * rewrite Hout by (by rewrite <- list_elem_of_In).
        apply lookup_insert_eq.
      * destruct (in_dec string_dec (pathOf (t0, m0)) (map pathOf rest))
          as [Hp | Hp].
        -- apply in_map_iff in Hp as (e' & Hpath & He').
           destruct (Hin e' He') as [_ Hfile]. rewrite Hpath in Hfile.
           rewrite Hfile. f_equal.
           apply (Hcf e' (t0, m0)); [by right | by left | exact Hpath].
        -- rewrite (Hfs _ Hp). apply lookup_insert_eq.
    + intros reference Hnot. rewrite Hout.
      * apply lookup_insert_ne. intros ->. apply Hnot. cbn. by left.
      * intros H. apply Hnot. cbn. by right.
    + intros p Hnot. rewrite Hfs.
      * apply lookup_insert_ne. intros <-. apply Hnot. cbn. by left.
      * intros H. apply Hnot. cbn. by right.
Qed.

(** X10: A bulk write stores every reference as given: with the store readable
    and writable, no failing blob write, distinct references and no two
    blobs on one file, each manifest of the batch is served under its own
    reference ([latest] included, which a single write would store as
    [staged]); references outside the batch keep their manifests and no
    installer is opened. *)
Theorem SetManifests_read_back (flt : Faults) (writeFails : string -> bool)
    (w : World) (repo : string) (manifests : list (string * Registry.Manifest)) :
  getDB_fails flt = false ->
  dbSet_fails flt = false ->
  (forall e, In e manifests -> writeFails (Blob e.2) = false) ->
  NoDup manifests.*1 ->
  collisionFree manifests ->
  let w' := SetManifests sha256hex cfg flt writeFails w repo manifests in
  (forall e, In e manifests -> Manifest cfg flt w' repo e.1 = Some e.2) /\
  (forall reference, ~ In reference manifests.*1 ->
     refsOf (data w') repo !! reference = refsOf (data w) repo !! reference) /\
  installer w' = installer w.
Proof.
  intros Hdb Hset Hw Hnd Hcf. cbv zeta. unfold SetManifests.
  rewrite Hdb, Hset.
  destruct (setManifestsLoop_ok writeFails manifests Hw Hnd Hcf (files w)
              (Refs (default (mkImageRepo ∅) (Images (data w) !! repo))))
    as (fs' & refs' & -> & Hin & Hout & _).
  split; [| split; [| reflexivity]].
  - intros e He. destruct (Hin e He) as [Href Hfile].
    unfold Manifest, readManifest. rewrite Hdb.
    cbn [data files Images set_Images]. rewrite lookup_insert_eq.
    cbn [Refs]. rewrite Href. unfold storedAs. cbn [BlobHash ContentType].
    unfold pathOf in Hfile. rewrite Hfile. by rewrite Manifest_eta.
  - intros reference Hnot. cbn [data].
    rewrite (refsOf_set_Images (data w) repo refs'). by apply Hout.
Qed.

End BulkWrite.

Lemma SetManifests_read_back_witness :
  let cfg := mkConfig "/srv/yeet/services" "/srv/yeet/registry/manifests" in
  let m := mkManifest "application/vnd.oci.image.manifest.v1+json" "{}" in
  let w := mkWorld (mkData ∅ ∅) ∅ [] in
  Manifest cfg noFaults
    (SetManifests (fun _ => "9f86d0") cfg noFaults (fun _ => false) w "app/web"
                  [("latest", m)])
    "app/web" "latest" = Some m.
Proof.
  intros cfg m w.
  destruct (SetManifests_read_back (fun _ => "9f86d0") cfg noFaults
              (fun _ => false) w "app/web" [("latest", m)] eq_refl eq_refl)
    as (Hread & _).
  - reflexivity.
  - apply NoDup_singleton.
  - intros e1 e2 [<- | []] [<- | []] _. reflexivity.
  - apply (Hread ("latest", m)). by left.
Defined.

End RegistryStore.

(** ** The classifier's probes on leading bytes *)

Module FtdetectProbes.
Import Ftdetect.
Local Open Scope string_scope.

Lemma byteZ_range (c : ascii) : (0 <= byteZ c < 256)%Z.
Proof.
  unfold byteZ. pose proof (N_ascii_bounded c) as H. lia.
Qed.

Lemma testbit_byteZ_high (c : ascii) (n : Z) :
  (8 <= n)%Z -> Z.testbit (byteZ c) n = false.
Proof.
  intros Hn. apply Z.testbit_false; [lia |].
  pose proof (byteZ_range c) as Hc.
  assert (Hpow : (2 ^ 8 <= 2 ^ n)%Z) by (apply Z.pow_le_mono_r; lia).
  rewrite Z.div_small; [reflexivity |].
  change (2 ^ 8)%Z with 256%Z in Hpow. lia.
Qed.

(** The low byte of the little-endian word is the first byte read. *)
Lemma Uint32LE_low_byte (b0 b1 b2 b3 : ascii) :
  (Uint32LE b0 b1 b2 b3 mod 256 = byteZ b0)%Z.
Proof.
  change 256%Z with (2 ^ 8)%Z. rewrite <- Z.land_ones by lia.
  apply Z.bits_inj'. intros n Hn. unfold Uint32LE.
  rewrite Z.land_spec, !Z.lor_spec.
  destruct (Z.ltb_spec n 8) as [Hlt | Hge].
  - rewrite !Z.shiftl_spec_low by lia.
    rewrite Z.ones_spec_low by lia.
    rewrite !orb_false_r. apply andb_true_r.
  - rewrite Z.ones_spec_high by lia.
    rewrite andb_false_r. symmetry. by apply testbit_byteZ_high.
Qed.

(** The first byte of each executable format the binary probe knows. *)
Definition isExecutableLead (b0 : ascii) : bool :=
  (byteZ b0 =? 0x7f)%Z || (byteZ b0 =? 0xce)%Z || (byteZ b0 =? 0xcf)%Z
  || (byteZ b0 =? 0xbe)%Z.

Lemma detectBinary_not_executable (fl : file) (b0 b1 b2 b3 : ascii) (rest : string) :
  f fl = Some (String b0 (String b1 (String b2 (String b3 rest)))) ->
  isExecutableLead b0 = false ->
  detectBinary fl = inr false.
Proof.
  intros Hf Hlead. unfold detectBinary, checkAndSeek0. rewrite Hf.
  pose proof (Uint32LE_low_byte b0 b1 b2 b3) as Hlow.
  unfold isExecutableLead in Hlead.
  apply orb_false_elim in Hlead as [Hlead Hbe].
  apply orb_false_elim in Hlead as [Hlead Hcf].
  apply orb_false_elim in Hlead as [H7f Hce].
  apply Z.eqb_neq in H7f, Hce, Hcf, Hbe.
  assert (Helf : (Uint32LE b0 b1 b2 b3 =? ElfMagic)%Z = false).
  { apply Z.eqb_neq. intros Heq. rewrite Heq in Hlow.
    change (ElfMagic mod 256)%Z with 127%Z in Hlow. lia. }
  assert (H32 : (Uint32LE b0 b1 b2 b3 =? MachoMagic32)%Z = false).
  { apply Z.eqb_neq. intros Heq. rewrite Heq in Hlow.
    change (MachoMagic32 mod 256)%Z with 206%Z in Hlow. lia. }
  assert (H64 : (Uint32LE b0 b1 b2 b3 =? MachoMagic64)%Z = false).
  { apply Z.eqb_neq. intros Heq. rewrite Heq in Hlow.
    change (MachoMagic64 mod 256)%Z with 207%Z in Hlow. lia. }
  assert (Hfat : (Uint32LE b0 b1 b2 b3 =? MachoMagicFat)%Z = false).
  { apply Z.eqb_neq. intros Heq. rewrite Heq in Hlow.
    change (MachoMagicFat mod 256)%Z with 190%Z in Hlow. lia. }
  by rewrite Helf, H32, H64, Hfat.
Qed.

Section WithParsers.

Variable elfMachine : string -> option Z.
Variable yamlUnmarshal : string -> option servicesForm.
Variable tsTransformErrors : string -> nat.

Local Abbreviation detect :=
  (Ftdetect.detect elfMachine yamlUnmarshal tsTransformErrors).

(** X11: A payload of fewer than four bytes is never classified: the read of the
    magic number fails and [detect] returns that error, also for a payload
    that would be a two-byte shebang or an empty env file. *)
Theorem detect_short_payload (fl : file) (bs : string) :
  f fl = Some bs ->
  (String.length bs < 4)%nat ->
  detect fl = inl (ErrDetectBinary ErrRead).
Proof.
  intros Hf Hlen. unfold Ftdetect.detect, detectBinary, checkAndSeek0. rewrite Hf.
  destruct bs as [| b0 [| b1 [| b2 [| b3 rest]]]]; try reflexivity.
  simpl in Hlen. lia.
Qed.

(** X12: The leading bytes decide before any parser is asked: a payload of at
    least four bytes that starts with [#!] is a script, and one that starts
    with the zstd frame magic [28 b5 2f fd] is a zstd stream, for every
    target and whatever the YAML, ELF and TypeScript parsers would say. *)
Theorem detect_by_leading_bytes (fl : file) :
  (forall b2 b3 rest,
     f fl = Some (String "#" (String "!" (String b2 (String b3 rest)))) ->
     detect fl = inr Script) /\
  (forall rest,
     f fl = Some (String (ascii_of_nat 40) (String (ascii_of_nat 181)
                   (String (ascii_of_nat 47) (String (ascii_of_nat 253) rest)))) ->
     detect fl = inr Zstd).
Proof.
  split.
  - intros b2 b3 rest Hf. unfold Ftdetect.detect.
    rewrite (detectBinary_not_executable fl _ _ _ _ _ Hf eq_refl).
    unfold detectZstd, detectScript, checkAndSeek0. rewrite Hf. reflexivity.
  - intros rest Hf. unfold Ftdetect.detect.
    rewrite (detectBinary_not_executable fl _ _ _ _ _ Hf eq_refl).
    unfold detectZstd, checkAndSeek0. rewrite Hf. reflexivity.
Qed.

(** The label [detectArchitectureElf] gives a machine. *)
Definition machineLabel (m : Z) : string :=
  if (m =? EM_X86_64)%Z then "x86_64"
  else if (m =? EM_386)%Z then "x86"
  else if (m =? EM_ARM)%Z then "ARM"
  else if (m =? EM_AARCH64)%Z then "ARM64"
  else "unknown".

Lemma detectArchitectureElf_label (fl : file) (bs : string) (m : Z) :
  f fl = Some bs -> elfMachine bs = Some m ->
  detectArchitectureElf elfMachine fl = inr (machineLabel m).
Proof.
  intros Hf Hm. unfold detectArchitectureElf, machineLabel. rewrite Hf, Hm.
  repeat match goal with
         | |- context [if ?b then _ else _] => destruct b
         end; reflexivity.
Qed.

(** X13: A payload is classified as a binary only if it carries an executable
    magic number for the target's family (ELF off darwin, Mach-O on darwin),
    parses as ELF, and the label of its machine is the label of the host
    architecture.  On a darwin target that asks a Mach-O file to parse as
    ELF. *)
Theorem detect_binary_sound (fl : file) :
  detect fl = inr Binary ->
  exists bs m,
    f fl = Some bs /\
    detectBinary fl = inr true /\
    elfMachine bs = Some m /\
    machineLabel m = hostArchitecture fl.
Proof.
  unfold Ftdetect.detect.
  destruct (detectBinary fl) as [e | [|]] eqn:Hbin; [discriminate | |].
  - unfold Ftdetect.isSameArch.
    destruct (f fl) as [bs |] eqn:Hf;
      [| unfold detectArchitectureElf; rewrite Hf; discriminate].
    destruct (elfMachine bs) as [m |] eqn:Hm;
      [| unfold detectArchitectureElf; rewrite Hf, Hm; discriminate].
    rewrite (detectArchitectureElf_label fl bs m Hf Hm).
    destruct (String.eqb_spec (machineLabel m) (hostArchitecture fl)) as [Heq | Hne];
      [| discriminate].
    intros _. exists bs, m. auto.
  - destruct (detectZstd fl) as [e | [|]]; try discriminate.
    destruct (detectScript fl) as [e | [|]]; try discriminate.
    destruct (detectDockerCompose yamlUnmarshal fl) as [e | [|]]; try discriminate.
    destruct (detectTypeScript tsTransformErrors fl) as [e | [|]]; discriminate.
Qed.

(** X14: Architectures the tables do not know are all alike: an ELF payload whose
    machine is none of x86-64, 386, ARM and AArch64, offered to a non-darwin
    host whose GOARCH is none of amd64, 386, arm and arm64, is accepted as a
    binary for that host. *)
Theorem detect_unknown_arch_accepted (fl : file) (b0 b1 b2 b3 : ascii)
    (rest : string) (m : Z) :
  f fl = Some (String b0 (String b1 (String b2 (String b3 rest)))) ->
  Uint32LE b0 b1 b2 b3 = ElfMagic ->
  goos fl <> "darwin" ->
  elfMachine (String b0 (String b1 (String b2 (String b3 rest)))) = Some m ->
  machineLabel m = "unknown" ->
  hostArchitecture fl = "unknown" ->
  detect fl = inr Binary.
Proof.
  intros Hf Hmagic Hos Hm Hlabel Hhost.
  unfold Ftdetect.detect, detectBinary, checkAndSeek0. rewrite Hf, Hmagic.
  apply String.eqb_neq in Hos. rewrite Hos, Z.eqb_refl.
  unfold Ftdetect.isSameArch.
  rewrite (detectArchitectureElf_label fl _ m Hf Hm), Hlabel, Hhost. reflexivity.
Qed.

End WithParsers.

Lemma detect_short_payload_witness :
  detect (fun _ => None) (fun _ => None) (fun _ => 0%nat)
         (mkFile (Some "#!") "linux" "amd64") = inl (ErrDetectBinary ErrRead).
Proof.
  apply (detect_short_payload (fun _ => None) (fun _ => None) (fun _ => 0%nat)
           (mkFile (Some "#!") "linux" "amd64") "#!");
    [reflexivity | simpl; lia].
Defined.

Lemma detect_by_leading_bytes_witness :
  detect (fun _ => None) (fun _ => None) (fun _ => 0%nat)
         (mkFile (Some "#!/bin/sh") "linux" "amd64") = inr Script.
Proof.
  destruct (detect_by_leading_bytes (fun _ => None) (fun _ => None)
              (fun _ => 0%nat) (mkFile (Some "#!/bin/sh") "linux" "amd64"))
    as [Hscript _].
  apply (Hscript "/"%char "b"%char "in/sh"). reflexivity.
Defined.

(** An ELF header with a machine outside the table (RISC-V, 243), offered to
    a host outside the table (mips). *)
Definition elfLead : string :=
  String (ascii_of_nat 127) "ELF".

Lemma detect_unknown_arch_accepted_witness :
  detect (fun _ => Some 243%Z) (fun _ => None) (fun _ => 0%nat)
         (mkFile (Some elfLead) "linux" "mips") = inr Binary.
Proof.
  apply (detect_unknown_arch_accepted (fun _ => Some 243%Z) (fun _ => None)
           (fun _ => 0%nat) (mkFile (Some elfLead) "linux" "mips")
           (ascii_of_nat 127) "E" "L" "F" "" 243%Z);
    [reflexivity | reflexivity | discriminate | reflexivity
     | reflexivity | reflexivity].
Defined.

Lemma detect_binary_sound_witness :
  exists bs m,
    f (mkFile (Some elfLead) "linux" "amd64") = Some bs /\
    (fun _ : string => Some 62%Z) bs = Some m /\
    machineLabel m = "x86_64".
Proof.
  destruct (detect_binary_sound (fun _ => Some 62%Z) (fun _ => None)
              (fun _ => 0%nat) (mkFile (Some elfLead) "linux" "amd64"))
    as (bs & m & Hf & _ & Hm & Hlabel).
  - reflexivity.
  - exists bs, m. split; [exact Hf |]. split; [exact Hm | exact Hlabel].
Defined.

End FtdetectProbes.

(** ** Status data from the daemon to the aggregation *)

Module StatusData.
Import Status.
Local Open Scope string_scope.

(** A runner's status as [ComponentStatusFromServiceStatus] receives it: one
    of the three [svc.Status] values, or anything else. *)
Inductive svcStatus : Type :=
| Known (st : Remove.Status)
| Other (raw : string).

(** [ComponentStatusFromServiceStatus]. *)
Definition ComponentStatusFromServiceStatus (st : svcStatus) : string :=
  match st with
  | Known Remove.StatusRunning => "running"
  | Known Remove.StatusStopped => "stopped"
  | Known Remove.StatusUnknown => "unknown"
  | Other _ => "unknown"
  end.

(** [ServiceDataTypeFromServiceType] and [ServiceDataTypeFromUnitType]. *)
Definition ServiceDataTypeFromServiceType (st : DB.ServiceType) : string :=
  match st with
  | DB.ServiceTypeSystemd => "service"
  | DB.ServiceTypeDockerCompose => "docker"
  | DB.ServiceTypeOther _ => "unknown"
  end.

Definition ServiceDataTypeFromUnitType (unitType : string) : string :=
  if String.eqb unitType "service" then "service"
  else if String.eqb unitType "cron" then "cron"
  else if String.eqb unitType "docker" then "docker"
  else "unknown".

(** The components of a service as the daemon reports them: one
    [ComponentStatusData] per runner status. *)
Definition componentsOf (statuses : list (string * svcStatus)) : list component :=
  map (fun '(cn, st) => mkComponent cn (ComponentStatusFromServiceStatus st)) statuses.

(** *** Properties *)

(** X15: The aggregate does not depend on the order in which the components are
    listed. *)
Theorem statusToState_permutation (cs cs' : list component) :
  Permutation cs cs' -> statusToState cs = statusToState cs'.
Proof.
  intros Hperm. unfold statusToState.
  assert (Hstates : Permutation (map status cs) (map status cs'))
    by (by apply Permutation_map).
  assert (Hset : (list_to_set (map status cs) : gset string)
                 = list_to_set (map status cs'))
    by (by apply list_to_set_perm_L).
  rewrite <- Hset.
  destruct (decide (Stopping ∈ _)); [reflexivity |].
  destruct (decide (Starting ∈ _)); [reflexivity |].
  destruct (decide (size _ = 1%nat)) as [Hsize | _]; [| reflexivity].
  apply size_1_elem_of in Hsize as [x Hx].
  assert (Hall : forall s l, Permutation (map status cs) l -> In s l -> s = x).
  { intros s l Hl Hs. apply (Permutation_in _ (Permutation_sym Hl)) in Hs.
    apply list_elem_of_In in Hs.
    assert (Hin : s ∈ (list_to_set (map status cs) : gset string))
      by (by apply elem_of_list_to_set).
    rewrite Hx in Hin. by apply elem_of_singleton in Hin. }
  destruct (map status cs) as [| s0 rest] eqn:Hcs,
           (map status cs') as [| s0' rest'] eqn:Hcs'.
  - reflexivity.
  - apply Permutation_nil in Hstates. discriminate.
  - apply Permutation_sym, Permutation_nil in Hstates. discriminate.
  - rewrite (Hall s0 (s0 :: rest) (Permutation_refl _) (or_introl eq_refl)).
    rewrite (Hall s0' (s0' :: rest') Hstates (or_introl eq_refl)).
    reflexivity.
Qed.

Lemma statusToState_permutation_witness :
  statusToState [mkComponent "web" Running; mkComponent "db" Stopped]
    = statusToState [mkComponent "db" Stopped; mkComponent "web" Running].
Proof.
  apply statusToState_permutation. apply perm_swap.
Defined.

Lemma componentsOf_states (statuses : list (string * svcStatus)) (c : component) :
  In c (componentsOf statuses) ->
  status c = Running \/ status c = Stopped \/ status c = Unknown.
Proof.
  unfold componentsOf. rewrite in_map_iff.
  intros ([cn st] & <- & _). destruct st as [[| |] | raw]; simpl; auto.
Qed.

(** X16: What the aggregation makes of the statuses the daemon derives from its
    runners: never [starting] or [stopping]; [running] exactly when there is
    at least one component and every runner reports running; a status the
    mapping does not know counts as [unknown]. *)
Theorem statusToState_of_runner_statuses (statuses : list (string * svcStatus)) :
  statusToState (componentsOf statuses) <> Starting /\
  statusToState (componentsOf statuses) <> Stopping /\
  (statusToState (componentsOf statuses) = Running <->
   statuses <> [] /\
   Forall (fun e => e.2 = Known Remove.StatusRunning) statuses).
Proof.
  assert (Hno : forall s, s = Starting \/ s = Stopping ->
            s ∉ (list_to_set (map status (componentsOf statuses)) : gset string)).
  { intros s Hs Hin. apply elem_of_uniqueStates in Hin as (c & Hc & Hst).
    apply componentsOf_states in Hc. rewrite Hst in Hc.
    destruct Hs as [-> | ->], Hc as [Hc | [Hc | Hc]]; discriminate. }
  unfold statusToState.
  rewrite (decide_False (P := Stopping ∈ _)) by (apply Hno; auto).
  rewrite (decide_False (P := Starting ∈ _)) by (apply Hno; auto).
  destruct (decide (size _ = 1%nat)) as [Hsize | Hsize].
  - apply uniqueStates_size_1 in Hsize as [Hne [s Hall]].
    destruct statuses as [| [cn st] rest]; [done |].
    cbn [componentsOf map status].
    split; [| split].
    + destruct st as [[| |] | raw]; discriminate.
    + destruct st as [[| |] | raw]; discriminate.
    + split.
      * intros Hrun. split; [discriminate |].
        assert (Hs : s = Running).
        { rewrite <- (Hall _ (or_introl eq_refl)).
          destruct st as [[| |] | raw]; try discriminate Hrun. reflexivity. }
        subst s. apply Forall_forall. intros [cn' st'] Hin.
        apply list_elem_of_In in Hin.
        assert (Hc : In (mkComponent cn' (ComponentStatusFromServiceStatus st'))
                        (componentsOf ((cn, st) :: rest))).
        { unfold componentsOf. apply in_map_iff. exists (cn', st'). auto. }
        apply Hall in Hc. cbn in Hc.
        destruct st' as [[| |] | raw]; try discriminate Hc. reflexivity.
      * intros [_ Hforall]. apply Forall_inv in Hforall. cbn in Hforall.
        subst st. reflexivity.
  - split; [discriminate | split; [discriminate |]].
    split; [discriminate |]. intros [Hne Hforall]. exfalso. apply Hsize.
    apply uniqueStates_size_1. split.
    + destruct statuses; [done | discriminate].
    + exists Running. intros c Hc. unfold componentsOf in Hc.
      apply in_map_iff in Hc as ([cn st] & <- & Hin).
      rewrite Forall_forall in Hforall.
      apply list_elem_of_In in Hin. apply Hforall in Hin. cbn in Hin.
      subst st. reflexivity.
Qed.

End StatusData.

(** ** What removal leaves alone *)

Module RemoveSafety.
Import DB Remove.
Local Open Scope string_scope.

(** *** Prefixes and the pieces of a path *)

Lemma prefix_app_iff (a q : string) :
  String.prefix a q = true <-> exists r, q = a ++ r.
Proof.
  revert q. induction a as [| c a IH]; intros q.
  - split; [intros _; by exists q | intros _; by destruct q].
  - destruct q as [| c' q].
    + split; [discriminate | intros [r Hr]; discriminate Hr].
    + change (String.prefix (String c a) (String c' q))
        with (if ascii_dec c c' then String.prefix a q else false).
      destruct (ascii_dec c c') as [-> | Hne].
      * rewrite IH. split; intros [r Hr]; exists r.
        -- cbn. by rewrite Hr.
        -- by injection Hr.
      * split; [discriminate | intros [r Hr]]. injection Hr as Hc _. congruence.
Qed.

Lemma app_inv_head_string (d a b : string) : d ++ a = d ++ b -> a = b.
Proof. induction d as [| c d IH]; [done |]. intros [= H]. by apply IH. Qed.

Lemma app_assoc_string (a b c : string) : (a ++ b) ++ c = a ++ b ++ c.
Proof.
  induction a as [| x a IH]; [done |].
  change (String x ((a ++ b) ++ c) = String x (a ++ b ++ c)). by rewrite IH.
Qed.

Lemma noSlash_app_slash (x r : string) :
  Filepath.noSlash (x ++ "/" ++ r) = false.
Proof.
  induction x as [| c x IH]; [reflexivity |].
  change (Filepath.noSlash (String c x ++ "/" ++ r))
    with (negb (Ascii.eqb c "/") && Filepath.noSlash (x ++ "/" ++ r)).
  rewrite IH. apply andb_false_r.
Qed.

(** Two slash-free names followed by a slash: if one is a prefix of the
    other, the names are the same. *)
Lemma slash_terminated_prefix (x y r r' : string) :
  Filepath.noSlash x = true -> Filepath.noSlash y = true ->
  x ++ "/" ++ r = y ++ "/" ++ r' -> x = y.
Proof.
  revert y. induction x as [| c x IH]; intros y Hx Hy Heq.
  - destruct y as [| c' y]; [reflexivity |].
    cbn in Heq. injection Heq as <- _. discriminate Hy.
  - destruct y as [| c' y].
    + cbn in Heq. injection Heq as -> _. discriminate Hx.
    + cbn in Heq, Hx, Hy. injection Heq as <- Heq.
      apply andb_prop in Hx as [_ Hx]. apply andb_prop in Hy as [_ Hy].
      f_equal. by apply IH.
Qed.

Lemma Split_app (p d file : string) :
  Filepath.Split p = (d, file) -> p = d ++ file /\ Filepath.noSlash file = true.
Proof.
  revert d file. induction p as [| c p IH]; intros d file.
  - intros [= <- <-]. auto.
  - cbn [Filepath.Split]. destruct (Filepath.Split p) as [d' file'].
    destruct (IH d' file' eq_refl) as [-> Hfile].
    destruct d' as [| c' d''].
    + destruct (Ascii.eqb c "/") eqn:Hc.
      * intros [= <- <-]. auto.
      * intros [= <- <-]. split; [reflexivity |]. cbn. by rewrite Hc, Hfile.
    + intros [= <- <-]. auto.
Qed.

Lemma stripTrailingSlashes_file (d file : string) :
  file <> "" -> Filepath.noSlash file = true ->
  Filepath.stripTrailingSlashes (d ++ file) = d ++ file.
Proof.
  intros Hne Hfile.
  assert (Hf : forall s, s <> "" -> Filepath.noSlash s = true ->
             Filepath.stripTrailingSlashes s = s /\ Filepath.stripTrailingSlashes s <> "").
  { induction s as [| c s IHs]; [done |]. intros _ Hs. cbn in Hs.
    apply andb_prop in Hs as [Hc Hs]. apply negb_true_iff in Hc.
    cbn [Filepath.stripTrailingSlashes]. destruct s as [| c' s'].
    - cbn. rewrite Hc. split; [reflexivity | discriminate].
    - destruct (IHs ltac:(discriminate) Hs) as [-> _]. split; [reflexivity | discriminate]. }
  induction d as [| c d IH]; [by apply Hf |].
  change (String c d ++ file) with (String c (d ++ file)).
  cbn [Filepath.stripTrailingSlashes]. rewrite IH.
  destruct (d ++ file) eqn:Hdf; [| reflexivity].
  exfalso. destruct d as [| c' d'].
  - change (file = "") in Hdf. contradiction.
  - change (String c' (d' ++ file) = "") in Hdf. discriminate.
Qed.

(** For a path with a non-empty file part, [Base] is that file part. *)
Lemma Base_Split (p d file : string) :
  Filepath.Split p = (d, file) -> file <> "" -> Filepath.Base p = file.
Proof.
  intros Hsplit Hne. destruct (Split_app p d file Hsplit) as [Hp Hfile].
  unfold Filepath.Base. destruct p as [| c p'].
  { cbn in Hsplit. injection Hsplit as <- <-. contradiction. }
  rewrite Hp, stripTrailingSlashes_file by done.
  rewrite <- Hp, Hsplit. cbn [snd].
  destruct (String c p') eqn:Hcp; [discriminate | reflexivity].
Qed.

Lemma app_nil_r_string (s : string) : s ++ "" = s.
Proof.
  induction s as [| a s IH]; [reflexivity |].
  change (String a s ++ "") with (String a (s ++ "")). by rewrite IH.
Qed.

(** *** The removal loop and the service tree *)

Lemma removeDirs_subset (env : Env) (dirs : list string) :
  forall paths q, In q (snd (removeDirs env paths dirs)) -> In q paths.
Proof.
  induction dirs as [| dir rest IH]; intros paths q; cbn [removeDirs];
    [done |].
  destruct (String.eqb (Filepath.Base dir) "data"); [apply IH |].
  destruct (removeAll_fails env dir); [done |].
  intros Hq. apply IH in Hq. by apply In_RemoveAll in Hq as [Hq _].
Qed.

Lemma removeDirs_keeps (env : Env) (dirs : list string) :
  forall paths q,
  In q paths ->
  (forall p, In p dirs -> Filepath.Base p <> "data" -> within p q = false) ->
  In q (snd (removeDirs env paths dirs)).
Proof.
  induction dirs as [| dir rest IH]; intros paths q Hq Hmiss;
    cbn [removeDirs]; [done |].
  destruct (String.eqb_spec (Filepath.Base dir) "data") as [Hdata | Hdata].
  - apply IH; [done |]. intros p Hp. apply Hmiss. by right.
  - destruct (removeAll_fails env dir); [done |].
    apply IH.
    + apply In_RemoveAll. split; [done |]. apply Hmiss; [by left | done].
    + intros p Hp. apply Hmiss. by right.
Qed.

(** An entry of the service root other than [data] does not reach a path
    outside the root, nor [data], nor anything below [data]. *)
Lemma child_misses (dir : string) (paths : list string) (p q : string) :
  In p (children dir paths) ->
  Filepath.Base p <> "data" ->
  String.prefix dir q = false \/ q = dir ++ "data"
    \/ String.prefix (dir ++ "data/") q = true ->
  within p q = false.
Proof.
  intros Hp Hbase Hq. unfold children in Hp. apply filter_In in Hp as [_ Hp].
  apply andb_prop in Hp as [Hdir Hfile].
  apply String.eqb_eq in Hdir. apply negb_true_iff, String.eqb_neq in Hfile.
  destruct (Filepath.Split p) as [d x] eqn:Hsplit. cbn [fst snd] in *. subst d.
  destruct (Split_app p dir x Hsplit) as [Hpx Hx].
  rewrite (Base_Split p dir x Hsplit Hfile) in Hbase.
  assert (Hshape : within p q = true ->
            exists r', q = dir ++ x ++ r' /\ (r' = "" \/ exists r, r' = "/" ++ r)).
  { unfold within. intros H. apply orb_prop in H as [H | H].
    - apply String.eqb_eq in H. exists "". split; [| by left].
      by rewrite H, Hpx, app_nil_r_string.
    - apply prefix_app_iff in H as [r Hr]. exists ("/" ++ r). split; [| eauto].
      rewrite Hr, Hpx. by rewrite !app_assoc_string. }
  destruct (within p q) eqn:Hw; [exfalso | reflexivity].
  destruct (Hshape eq_refl) as (r' & Hqr & Hr').
  destruct Hq as [Hout | [Hdata | Hbelow]].
  - assert (Hin : String.prefix dir q = true)
      by (apply prefix_app_iff; eauto).
    congruence.
  - rewrite Hdata in Hqr. apply app_inv_head_string in Hqr.
    destruct Hr' as [-> | [r ->]].
    + apply Hbase. rewrite app_nil_r_string in Hqr. by symmetry.
    + assert (Hno : Filepath.noSlash "data" = true) by reflexivity.
      rewrite Hqr, noSlash_app_slash in Hno. discriminate.
  - apply prefix_app_iff in Hbelow as [r2 Hr2].
    rewrite Hr2, app_assoc_string in Hqr. apply app_inv_head_string in Hqr.
    change ("data/" ++ r2) with ("data" ++ "/" ++ r2) in Hqr.
    destruct Hr' as [-> | [r ->]].
    + rewrite app_nil_r_string in Hqr.
      rewrite <- Hqr, noSlash_app_slash in Hx. discriminate.
    + apply Hbase. symmetry.
      by apply (slash_terminated_prefix "data" x r2 r).
Qed.

Definition resultWorld (r : removeResult) : World :=
  match r with
  | Failed _ w' => w'
  | Published w' _ => w'
  end.

(** X17: Removal is confined to the service root and spares [data]: for a service
    root without pattern characters, whatever the outcome and whichever step
    fails, no path appears, every path outside the root stays, and so do the
    [data] entry of the root and everything below it. *)
Theorem RemoveService_confined (cfg : Config) (env : Env) (now : Z)
    (els : list Events.EventListener) (chans : gmap nat Events.Chan)
    (w : World) (name dir : string) :
  Filepath.Split (Filepath.Join [ServicesRoot cfg; name; "*"]) = (dir, "*") ->
  hasMeta dir = false ->
  let w' := resultWorld (RemoveService cfg env now els chans w name) in
  (forall q, In q (fs w') -> In q (fs w)) /\
  (forall q, In q (fs w) ->
     String.prefix dir q = false \/ q = dir ++ "data"
       \/ String.prefix (dir ++ "data/") q = true ->
     In q (fs w')).
Proof.
  intros Hsplit Hmeta. cbv zeta.
  assert (Hfs : fs (resultWorld (RemoveService cfg env now els chans w name)) = fs w
                \/ fs (resultWorld (RemoveService cfg env now els chans w name))
                   = snd (removeDirs env (fs w) (children dir (fs w)))).
  { unfold RemoveService, Glob. rewrite Hsplit, Hmeta. cbn [andb negb String.eqb].
    replace (String.eqb "*" "*") with true by reflexivity. cbn [andb].
    destruct (IsServiceRunning env w name) as [e | [|]]; cbn; auto;
      (destruct (removeDirs env (fs w) (children dir (fs w)))
         as [[failed |] paths']; cbn; auto);
      (destruct (deleteTailscaleDevice env w name) as [e' | devs]; cbn; auto);
      (destruct (mutateData_fails env); cbn; auto). }
  split.
  - intros q Hq. destruct Hfs as [Hfs | Hfs]; rewrite Hfs in Hq; [done |].
    by apply removeDirs_subset in Hq.
  - intros q Hq Hwhere. destruct Hfs as [-> | ->]; [done |].
    apply removeDirs_keeps; [done |].
    intros p Hp Hbase. by apply (child_misses dir (fs w) p q).
Qed.

Lemma RemoveService_confined_witness :
  In "/srv/yeet/app/data/db.sqlite"
     (fs (resultWorld (RemoveService (mkConfig "/srv/yeet")
            (exampleEnv StatusStopped) 0 [] ∅ exampleWorld "app"))) /\
  In "/srv/yeet/web/bin"
     (fs (resultWorld (RemoveService (mkConfig "/srv/yeet")
            (exampleEnv StatusStopped) 0 [] ∅ exampleWorld "app"))).
Proof.
  destruct (RemoveService_confined (mkConfig "/srv/yeet")
              (exampleEnv StatusStopped) 0 [] ∅ exampleWorld "app"
              "/srv/yeet/app/" eq_refl eq_refl) as [_ Hkeep].
  split; apply Hkeep.
  - vm_compute. tauto.
  - right. right. reflexivity.
  - vm_compute. tauto.
  - left. reflexivity.
Defined.

(** X18: The store entry and the event go together: whenever [RemoveService]
    returns an error the store is as it was and nothing is published;
    whenever it gets to publish, the entry of the service has been deleted
    and the one event is a [ServiceDeleted] for that service. *)
Theorem RemoveService_entry_and_event (cfg : Config) (env : Env) (now : Z)
    (els : list Events.EventListener) (chans : gmap nat Events.Chan)
    (w : World) (name : string) :
  match RemoveService cfg env now els chans w name with
  | Failed _ w' => data w' = data w
  | Published w' o =>
      Services (data w') = delete name (Services (data w)) /\
      Images (data w') = Images (data w) /\
      o = Events.PublishEvent now els (ServiceDeleted name) chans
  end.
Proof.
  unfold RemoveService.
  destruct (IsServiceRunning env w name) as [e | [|]]; [| reflexivity |];
    (destruct (Glob env (fs w) _) as [paths | [|]]; [| | reflexivity]);
    (destruct (removeDirs env (fs w) _) as [[failed |] paths']; [reflexivity |]);
    (destruct (deleteTailscaleDevice env w name) as [e' | devs]; [reflexivity |]);
    (destruct (mutateData_fails env); [reflexivity |]);
    cbn; auto.
Qed.

End RemoveSafety.

(** ** The SFTP surface: who is served, and where requests land *)

Module SftpRouting.
Import DB Sftp.
Local Open Scope string_scope.

(** [serviceDataDir]. *)
Definition serviceDataDir (cfg : Config) (sn : string) : string :=
  Filepath.Join [serviceRootDir cfg sn; "data"].

(** *** Cutting at the at-sign *)

Lemma prefix_at (c : ascii) (s : string) :
  String.prefix "@" (String c s) = Ascii.eqb c "@".
Proof.
  change (String.prefix "@" (String c s))
    with (if ascii_dec "@" c then String.prefix "" s else false).
  destruct (ascii_dec "@" c) as [<- | Hne].
  - by destruct s.
  - symmetry. apply Ascii.eqb_neq. congruence.
Qed.

Lemma Cut_at_cons (c : ascii) (s : string) :
  Strings.Cut (String c s) "@" =
    if Ascii.eqb c "@" then (EmptyString, s, true)
    else let '(before, after, found) := Strings.Cut s "@" in
         (String c before, after, found).
Proof. cbn [Strings.Cut]. rewrite prefix_at. reflexivity. Qed.

Lemma Cut_at_found (s before after : string) :
  Strings.Cut s "@" = (before, after, true) ->
  s = before ++ "@" ++ after /\ Strings.Contains before "@" = false.
Proof.
  revert before. induction s as [| c s IH]; intros before; [discriminate |].
  rewrite Cut_at_cons. destruct (Ascii.eqb_spec c "@") as [-> | Hne].
  - intros [= <- <-]. by split.
  - destruct (Strings.Cut s "@") as [[b a] f] eqn:Hcut. intros [= <- <- ->].
    destruct (IH b eq_refl) as [-> Hb]. split; [reflexivity |].
    unfold Strings.Contains in *. rewrite Cut_at_cons.
    apply Ascii.eqb_neq in Hne. rewrite Hne.
    by destruct (Strings.Cut b "@") as [[b' a'] f'].
Qed.

Lemma Cut_at_missing (s before after : string) :
  Strings.Cut s "@" = (before, after, false) ->
  before = s /\ after = "".
Proof.
  revert before. induction s as [| c s IH]; intros before.
  - by intros [= <- <-].
  - rewrite Cut_at_cons. destruct (Ascii.eqb c "@"); [discriminate |].
    destruct (Strings.Cut s "@") as [[b a] f] eqn:Hcut. intros [= <- <- ->].
    destruct (IH b eq_refl) as [-> ->]. by split.
Qed.

Lemma Cut_at_app (before after : string) :
  Strings.Contains before "@" = false ->
  Strings.Cut (before ++ "@" ++ after) "@" = (before, after, true).
Proof.
  induction before as [| c b IH].
  { intros _. change ("" ++ "@" ++ after) with (String "@" after).
    by rewrite Cut_at_cons. }
  change (String c b ++ "@" ++ after) with (String c (b ++ "@" ++ after)).
  unfold Strings.Contains. rewrite !Cut_at_cons.
  destruct (Ascii.eqb c "@"); [discriminate |].
  destruct (Strings.Cut b "@") as [[b' a'] f'] eqn:Hcut. intros ->.
  rewrite IH; [reflexivity |]. unfold Strings.Contains. by rewrite Hcut.
Qed.

(** X19: A login name is read as [service] or as [user@service], and as nothing
    else: [serviceAndUser] answers [(sn, user)] exactly when the name is not
    empty, neither part holds an at-sign, and the name is [sn] alone (with
    no user) or [user@sn]. *)
Theorem serviceAndUser_reads (conn : Session) (sn user : string) :
  serviceAndUser conn = inr (sn, user) <->
  User conn <> "" /\
  Strings.Contains sn "@" = false /\ Strings.Contains user "@" = false /\
  ((user = "" /\ User conn = sn) \/ User conn = user ++ "@" ++ sn).
Proof.
  unfold serviceAndUser.
  destruct (String.eqb_spec (User conn) "") as [Hempty | Hne].
  { split; [discriminate | intros [H _]; done]. }
  destruct (Strings.Cut (User conn) "@") as [[u s] ok] eqn:Hcut.
  destruct ok; cbn [negb].
  - destruct (Cut_at_found _ _ _ Hcut) as [Hname Hu].
    destruct (Strings.Contains s "@") eqn:Hs.
    + split; [discriminate |]. intros (_ & Hsn & Husr & [[-> Heq] | Heq]).
      * unfold Strings.Contains in Hsn. rewrite <- Heq, Hcut in Hsn. discriminate.
      * rewrite Heq, (Cut_at_app _ _ Husr) in Hcut. injection Hcut as <- <-.
        congruence.
    + split.
      * intros [= <- <-]. repeat split; try done. by right.
      * intros (_ & Hsn & Husr & [[-> Heq] | Heq]).
        -- unfold Strings.Contains in Hsn. rewrite <- Heq, Hcut in Hsn.
           discriminate.
        -- rewrite Heq, (Cut_at_app _ _ Husr) in Hcut. by injection Hcut as <- <-.
  - destruct (Cut_at_missing _ _ _ Hcut) as [-> ->]. split.
    + intros [= <- <-]. repeat split; try done.
      * unfold Strings.Contains. by rewrite Hcut.
      * by left.
    + intros (_ & Hsn & Husr & [[-> Heq] | Heq]).
      * by rewrite Heq.
      * rewrite Heq, (Cut_at_app _ _ Husr) in Hcut. discriminate.
Qed.

(** *** Where a request path lands *)

Lemma Join_sep_app (a b : list string) :
  a <> [] -> b <> [] ->
  Strings.Join (a ++ b) "/" = Strings.Join a "/" ++ "/" ++ Strings.Join b "/".
Proof.
  induction a as [| x a IH]; [done |]. intros _ Hb.
  destruct a as [| y a].
  - destruct b as [| z b]; [done | reflexivity].
  - change (Strings.Join ((x :: y :: a) ++ b) "/")
      with (x ++ "/" ++ Strings.Join ((y :: a) ++ b) "/").
    rewrite IH by done.
    change (Strings.Join (x :: y :: a) "/")
      with (x ++ "/" ++ Strings.Join (y :: a) "/").
    by rewrite !RemoveSafety.app_assoc_string.
Qed.

(** A cleaned path that passes the [/data] guards has [data] as its first
    element. *)
Lemma absOf_data_head (elems : list string) :
  Forall (fun c => Filepath.validElem c = true) elems ->
  Strings.HasPrefix (Filepath.absOf elems) "/data" = true ->
  negb (Strings.HasPrefix (Strings.drop 5 (Filepath.absOf elems)) "/")
    && negb (String.eqb (Strings.drop 5 (Filepath.absOf elems)) "") = false ->
  exists more, elems = "data" :: more.
Proof.
  intros Hv Hpre Hguard.
  unfold Strings.HasPrefix in Hpre. apply RemoveSafety.prefix_app_iff in Hpre as [r Hr].
  rewrite Hr in Hguard. change (Strings.drop 5 ("/data" ++ r)) with r in Hguard.
  assert (Hrest : r = "" \/ exists r', r = "/" ++ r').
  { destruct r as [| c r']; [by left | right].
    unfold Strings.HasPrefix in Hguard. rewrite Strings.prefix_slash in Hguard.
    apply andb_false_iff in Hguard as [Hg | Hg]; [| discriminate].
    apply negb_false_iff, Ascii.eqb_eq in Hg. subst c. by exists r'. }
  unfold Filepath.absOf in Hr. change ("/data" ++ r) with ("/" ++ "data" ++ r) in Hr.
  apply RemoveSafety.app_inv_head_string in Hr.
  destruct elems as [| e more]; [discriminate Hr |]. exists more. f_equal.
  apply Forall_cons in Hv as [He _]. apply Filepath.validElem_noSlash in He.
  destruct more as [| e' more'].
  - cbn [Strings.Join] in Hr. destruct Hrest as [-> | [r' ->]].
    + by rewrite RemoveSafety.app_nil_r_string in Hr.
    + rewrite Hr, RemoveSafety.noSlash_app_slash in He. discriminate.
  - change (Strings.Join (e :: e' :: more') "/")
      with (e ++ "/" ++ Strings.Join (e' :: more') "/") in Hr.
    destruct Hrest as [-> | [r' ->]].
    + rewrite RemoveSafety.app_nil_r_string in Hr.
      assert (Hno : Filepath.noSlash "data" = true) by reflexivity.
      rewrite <- Hr, RemoveSafety.noSlash_app_slash in Hno. discriminate.
    + by apply (RemoveSafety.slash_terminated_prefix e "data"
                  (Strings.Join (e' :: more') "/") r').
Qed.

Lemma resolvePath_stays_in_data_aux
    (Latest : ArtifactStore -> string -> string * bool)
    (cfg : Config) (env : Env) (session : Session) (w : World)
    (sn user : string) (elems : list string) (p : string) :
  serviceAndUser session = inr (sn, user) ->
  serviceRootDir cfg sn <> "" ->
  Forall (fun c => Filepath.validElem c = true) elems ->
  Filepath.absOf elems <> "/env" ->
  Filepath.absOf elems <> "/stage/env" ->
  resolvePath Latest cfg env session w (Filepath.absOf elems) = inr p ->
  exists more,
    elems = "data" :: more /\
    p = serviceDataDir cfg sn
          ++ match more with
             | [] => ""
             | _ => "/" ++ Strings.Join more "/"
             end.
Proof.
  intros Hsn Hroot Hv Henv Hstage. unfold resolvePath. rewrite Hsn.
  apply String.eqb_neq in Henv, Hstage. rewrite Henv, Hstage. cbn [orb].
  unfold Strings.CutPrefix.
  destruct (Strings.HasPrefix (Filepath.absOf elems) "/data") eqn:Hpre;
    [| discriminate].
  cbn [negb]. change (String.length "/data") with 5%nat.
  destruct (negb (Strings.HasPrefix _ "/") && negb (String.eqb _ "")) eqn:Hguard;
    [discriminate |].
  destruct (String.eqb _ "/.env"); [discriminate |]. intros Hp.
  assert (Hp' : Filepath.Join [serviceRootDir cfg sn; Filepath.absOf elems] = p)
    by (by injection Hp).
  clear Hp. subst p.
  destruct (absOf_data_head elems Hv Hpre Hguard) as [more ->].
  exists more. split; [reflexivity |].
  rewrite Filepath.Join_absOf by done.
  unfold serviceDataDir. rewrite Filepath.Join_elem by done.
  rewrite RemoveSafety.app_assoc_string. f_equal.
  destruct more as [| e more'].
  - by rewrite RemoveSafety.app_nil_r_string.
  - change ("data" :: e :: more') with (["data"] ++ e :: more')%list.
    rewrite app_assoc. by rewrite Join_sep_app by (try done; by destruct (Filepath.keptOf _)).
Qed.

(** X20: Requests do not leave the data directory: a request path in cleaned
    form, other than the two env paths, that [resolvePath] accepts starts
    with the element [data], and the host path it resolves to is the data
    directory of the session's service followed by the remaining
    elements. *)
Theorem resolvePath_stays_in_data
    (Latest : ArtifactStore -> string -> string * bool)
    (cfg : Config) (env : Env) (session : Session) (w : World)
    (sn user : string) (elems : list string) (p : string) :
  serviceAndUser session = inr (sn, user) ->
  serviceRootDir cfg sn <> "" ->
  Forall (fun c => Filepath.validElem c = true) elems ->
  Filepath.absOf elems <> "/env" ->
  Filepath.absOf elems <> "/stage/env" ->
  resolvePath Latest cfg env session w (Filepath.absOf elems) = inr p ->
  exists more,
    elems = "data" :: more /\
    p = serviceDataDir cfg sn
          ++ match more with
             | [] => ""
             | _ => "/" ++ Strings.Join more "/"
             end.
Proof. apply resolvePath_stays_in_data_aux. Qed.

Lemma resolvePath_stays_in_data_witness :
  exists more,
    ["data"; "logs"; "out.txt"] = "data" :: more /\
    "/srv/yeet/app/data/logs/out.txt"
      = serviceDataDir (mkConfig "/srv/yeet") "app"
          ++ match more with
             | [] => ""
             | _ => "/" ++ Strings.Join more "/"
             end.
Proof.
  apply (resolvePath_stays_in_data exampleLatest (mkConfig "/srv/yeet")
           exampleEnv (mkSession "app") exampleWorld "app" "").
  - reflexivity.
  - discriminate.
  - repeat constructor.
  - discriminate.
  - discriminate.
  - vm_compute. reflexivity.
Defined.

(** *** What an upload commits *)

(** X21: An upload is installed, rather than staged, only through [/] and
    through [/env] of a service the store already has; the installer it goes
    to is that of the session's service and user. *)
Theorem Filewrite_installs_only
    (Latest : ArtifactStore -> string -> string * bool)
    (cfg : Config) (env : Env) (session : Session) (w : World)
    (req : Request) (sn user : string) (isEnv : bool) :
  Filewrite Latest cfg env session w req = inr (FileInstaller sn user isEnv false) ->
  Method req = "Put" /\
  serviceAndUser session = inr (sn, user) /\
  ((Filepath_ req = "/" /\ isEnv = false) \/
   (Filepath_ req = "/env" /\ isEnv = true /\ is_Some (Services (data w) !! sn))).
Proof.
  unfold Filewrite.
  destruct (String.eqb_spec (Method req) "Put") as [Hput | _]; [| discriminate].
  cbn [negb]. intros Hw. split; [exact Hput |]. revert Hw.
  destruct (Strings.HasPrefix (Filepath_ req) "/data/").
  { unfold uploadFile. destruct (serviceAndUser session) as [e | [s u]];
      [discriminate |].
    destruct (ensureDirs_fails env); [discriminate |].
    destruct (resolvePath _ _ _ _ _ _) as [e | path]; [discriminate |].
    destruct (openFile_fails env path); discriminate. }
  destruct (String.eqb_spec (Filepath_ req) "/") as [Hroot | _]; cbn [orb].
  { unfold binFile. destruct (serviceAndUser session) as [e | [s u]];
      [discriminate |].
    destruct (newFileInstaller_fails env); [discriminate |].
    intros [= <- <- <-]. split; [reflexivity |]. by left. }
  destruct (String.eqb_spec (Filepath_ req) "/stage") as [_ | _].
  { unfold binFile. destruct (serviceAndUser session) as [e | [s u]];
      [discriminate |].
    destruct (newFileInstaller_fails env); discriminate. }
  destruct (String.eqb_spec (Filepath_ req) "/env") as [Henv | _]; cbn [orb].
  { unfold envFileInstaller, serviceView.
    destruct (serviceAndUser session) as [e | [s u]]; [discriminate |].
    destruct (getDB_fails env); [discriminate |].
    destruct (Services (data w) !! s) as [sv |] eqn:Hsv.
    - destruct (newFileInstaller_fails env); [discriminate |].
      intros [= <- <- <-]. split; [reflexivity |]. right.
      repeat split; try done; by rewrite Hsv.
    - destruct (newFileInstaller_fails env); discriminate. }
  destruct (String.eqb_spec (Filepath_ req) "/stage/env") as [_ | _];
    [| discriminate].
  unfold envFileInstaller, serviceView.
  destruct (serviceAndUser session) as [e | [s u]]; [discriminate |].
  destruct (getDB_fails env); [discriminate |].
  destruct (Services (data w) !! s);
    destruct (newFileInstaller_fails env); discriminate.
Qed.

Lemma Filewrite_installs_only_witness :
  Method (mkRequest "Put" "/env") = "Put" /\
  serviceAndUser (mkSession "deploy@app") = inr ("app", "deploy") /\
  ((Filepath_ (mkRequest "Put" "/env") = "/" /\ true = false) \/
   (Filepath_ (mkRequest "Put" "/env") = "/env" /\ true = true
    /\ is_Some (Services (data exampleWorld) !! "app"))).
Proof.
  apply (Filewrite_installs_only exampleLatest (mkConfig "/srv/yeet") exampleEnv
           (mkSession "deploy@app") exampleWorld (mkRequest "Put" "/env")).
  vm_compute. reflexivity.
Defined.

(** X22: A file written on the host by an upload lies below the data directory
    of the session's service, whenever the request path is in cleaned
    form. *)
Theorem Filewrite_host_file_in_data
    (Latest : ArtifactStore -> string -> string * bool)
    (cfg : Config) (env : Env) (session : Session) (w : World)
    (method : string) (elems : list string) (sn user p : string) :
  serviceAndUser session = inr (sn, user) ->
  serviceRootDir cfg sn <> "" ->
  Forall (fun c => Filepath.validElem c = true) elems ->
  Filewrite Latest cfg env session w (mkRequest method (Filepath.absOf elems))
    = inr (HostFile p) ->
  exists e more,
    elems = "data" :: e :: more /\
    p = serviceDataDir cfg sn ++ "/" ++ Strings.Join (e :: more) "/".
Proof.
  intros Hsn Hroot Hv. unfold Filewrite. cbn [Method Filepath_].
  destruct (negb (String.eqb method "Put")); [discriminate |].
  destruct (Strings.HasPrefix (Filepath.absOf elems) "/data/") eqn:Hpre.
  - unfold uploadFile. rewrite Hsn.
    destruct (ensureDirs_fails env); [discriminate |].
    destruct (resolvePath _ _ _ _ _ _) as [e | path] eqn:Hres; [discriminate |].
    destruct (openFile_fails env path); [discriminate |]. intros [= <-].
    destruct (resolvePath_stays_in_data_aux Latest cfg env session w sn user
                elems path Hsn Hroot Hv) as (more & -> & ->).
    + intros Heq. rewrite Heq in Hpre. discriminate.
    + intros Heq. rewrite Heq in Hpre. discriminate.
    + exact Hres.
    + destruct more as [| e more']; [discriminate Hpre |]. by exists e, more'.
  - destruct (String.eqb _ "/" || String.eqb _ "/stage").
    + unfold binFile. rewrite Hsn.
      destruct (newFileInstaller_fails env); discriminate.
    + destruct (String.eqb _ "/env" || String.eqb _ "/stage/env");
        [| discriminate].
      unfold envFileInstaller. rewrite Hsn.
      destruct (serviceView env w sn) as [[] | sv];
        try discriminate; destruct (newFileInstaller_fails env); discriminate.
Qed.

Lemma Filewrite_host_file_in_data_witness :
  exists e more,
    ["data"; "uploads"; "site.tar"] = "data" :: e :: more /\
    "/srv/yeet/app/data/uploads/site.tar"
      = serviceDataDir (mkConfig "/srv/yeet") "app"
          ++ "/" ++ Strings.Join (e :: more) "/".
Proof.
  apply (Filewrite_host_file_in_data exampleLatest (mkConfig "/srv/yeet")
           exampleEnv (mkSession "deploy@app") exampleWorld "Put"
           ["data"; "uploads"; "site.tar"] "app" "deploy").
  - reflexivity.
  - discriminate.
  - repeat constructor.
  - vm_compute. reflexivity.
Defined.

End SftpRouting.

(** ** The [remove] command (pkg/catch/tty.go, removeCmdFunc) *)

Module RemoveCmd.
Import DB Remove.
Local Open Scope string_scope.

Definition SystemService : string := "sys".
Definition CatchService : string := "catch".

(** The two implementations of [ServiceRunner]. *)
Inductive runner : Type :=
| systemdServiceRunner
| dockerComposeServiceRunner.

(** What [runner.Remove] returns: nothing, an error that is
    [svc.ErrNotInstalled], or another error. *)
Inductive removeOutcome : Type :=
| RemoveDone
| RemoveNotInstalled
| RemoveFailed.

(** What the command's own collaborators answer: the two runner
    constructors, the confirmation prompt, and the runner's [Remove], which
    acts on the host. *)
Record CmdEnv : Type := mkCmdEnv {
  newSystemdService_fails : bool;
  newDockerComposeService_fails : bool;
  Confirm : error + bool;
  runnerRemove : runner -> World -> removeOutcome * World
}.

Inductive cmdError : Type :=
| ErrSystemService
| ErrCleanup (cause : error)
| ErrGetRunner (cause : error)
| ErrConfirm (cause : error)
| ErrRemoveService.

(** What the command writes to the client. *)
Inductive message : Type :=
| MsgNotFound (sn : string)
| MsgConfirm (sn : string)
| MsgNotInstalled (sn : string).

Record cmdResult : Type := mkCmdResult {
  err : option cmdError;
  world : World;
  published : option Events.outcome;
  printed : list message
}.

(** [Server.systemdService]: its errors are formatted with [%v] and carry no
    cause. *)
Definition systemdService (env : Env) (cenv : CmdEnv) (w : World) (sn : string)
    : error + runner :=
  match serviceView env w sn with
  | inl _ => inl (ErrRunner "failed to get service view")
  | inr _ =>
      if newSystemdService_fails cenv then inl (ErrRunner "failed to load service")
      else inr systemdServiceRunner
  end.

(** [Server.dockerComposeService]. *)
Definition dockerComposeService (env : Env) (cenv : CmdEnv) (w : World)
    (sn : string) : error + runner :=
  match getDB env w with
  | inl e => inl e
  | inr d =>
      match Services d !! sn with
      | None => inl errServiceNotFound
      | Some _ =>
          if newDockerComposeService_fails cenv
          then inl (ErrRunner "failed to load service")
          else inr dockerComposeServiceRunner
      end
  end.

(** [ttyExecer.serviceRunner]. *)
Definition serviceRunner (env : Env) (cenv : CmdEnv) (w : World) (sn : string)
    : error + runner :=
  match serviceType env w sn with
  | inl e => inl (ErrServiceType e)
  | inr ServiceTypeSystemd => systemdService env cenv w sn
  | inr ServiceTypeDockerCompose => dockerComposeService env cenv w sn
  | inr (ServiceTypeOther _) => inl (ErrRunner "unhandled service type")
  end.

Section WithServer.

Variable cfg : Config.
Variable env : Env.
Variable cenv : CmdEnv.
Variable now : Z.
Variable els : list Events.EventListener.
Variable chans : gmap nat Events.Chan.

(** The call of [RemoveService] and the return that follows it; [out] is
    what has been written so far, [after] what is written on success. *)
Definition cleanup (w : World) (sn : string) (out after : list message)
    : cmdResult :=
  match RemoveService cfg env now els chans w sn with
  | Failed e w' => mkCmdResult (Some (ErrCleanup e)) w' None out
  | Published w' o => mkCmdResult None w' (Some o) (out ++ after)%list
  end.

(** [removeCmdFunc] for the session's service [sn]. *)
Definition removeCmdFunc (w : World) (sn : string) : cmdResult :=
  if String.eqb sn SystemService || String.eqb sn CatchService
  then mkCmdResult (Some ErrSystemService) w None []
  else
    match serviceRunner env cenv w sn with
    | inl e =>
        if isNoServiceConfigured e
        then cleanup w sn [] [MsgNotFound sn]
        else mkCmdResult (Some (ErrGetRunner e)) w None []
    | inr r =>
        match Confirm cenv with
        | inl e => mkCmdResult (Some (ErrConfirm e)) w None [MsgConfirm sn]
        | inr false => mkCmdResult None w None [MsgConfirm sn]
        | inr true =>
            match runnerRemove cenv r w with
            | (RemoveFailed, w1) =>
                mkCmdResult (Some ErrRemoveService) w1 None [MsgConfirm sn]
            | (RemoveNotInstalled, w1) =>
                cleanup w1 sn [MsgConfirm sn; MsgNotInstalled sn] []
            | (RemoveDone, w1) => cleanup w1 sn [MsgConfirm sn] []
            end
        end
    end.

(** No error of [serviceRunner] is, or wraps, [errNoServiceConfigured]. *)
Lemma serviceRunner_error (w : World) (sn : string) (e : error) :
  serviceRunner env cenv w sn = inl e -> isNoServiceConfigured e = false.
Proof.
  unfold serviceRunner, systemdService, dockerComposeService, serviceType,
    serviceView, getDB.
  destruct (getDB_fails env).
  - intros [= <-]. reflexivity.
  - destruct (Services (data w) !! sn) as [sv |].
    + destruct (SvcType sv).
      * destruct (newSystemdService_fails cenv); [| discriminate].
        intros [= <-]. reflexivity.
      * destruct (newDockerComposeService_fails cenv); [| discriminate].
        intros [= <-]. reflexivity.
      * intros [= <-]. reflexivity.
    + intros [= <-]. reflexivity.
Qed.

(** X23: Nothing is removed without a yes: unless the prompt is answered in the
    affirmative, the command leaves the host and the store as they are and
    publishes no event, whatever the service, known to the store or not. *)
Theorem removeCmdFunc_needs_confirmation (w : World) (sn : string) :
  Confirm cenv <> inr true ->
  world (removeCmdFunc w sn) = w /\ published (removeCmdFunc w sn) = None.
Proof.
  intros Hno. unfold removeCmdFunc.
  destruct (String.eqb sn SystemService || String.eqb sn CatchService);
    [by split |].
  destruct (serviceRunner env cenv w sn) as [e | r] eqn:Hrunner.
  - rewrite (serviceRunner_error w sn e Hrunner). by split.
  - destruct (Confirm cenv) as [e | [|]]; [by split | done | by split].
Qed.

(** X24: The clean-up branch for a service that is not configured is never
    taken: the not-found message is never written, and for a service the
    store does not have the command fails and changes nothing. *)
Theorem removeCmdFunc_absent_service (w : World) (sn : string) :
  ~ In (MsgNotFound sn) (printed (removeCmdFunc w sn)) /\
  (Services (data w) !! sn = None ->
   (exists e, err (removeCmdFunc w sn) = Some e /\
      (e = ErrSystemService \/ exists cause, e = ErrGetRunner cause)) /\
   world (removeCmdFunc w sn) = w /\ published (removeCmdFunc w sn) = None).
Proof.
  unfold removeCmdFunc.
  destruct (String.eqb sn SystemService || String.eqb sn CatchService).
  { split; [intros [] | intros _; eauto 6]. }
  destruct (serviceRunner env cenv w sn) as [e | r] eqn:Hrunner.
  - rewrite (serviceRunner_error w sn e Hrunner).
    split; [intros [] | intros _; eauto 7].
  - split.
    + destruct (Confirm cenv) as [e | [|]]; cbn;
        [| destruct (runnerRemove cenv r w) as [[| |] w1]; unfold cleanup;
           try destruct (RemoveService cfg env now els chans w1 sn); cbn | ];
        intuition discriminate.
    + intros Hnone. exfalso. revert Hrunner.
      unfold serviceRunner, serviceType, serviceView, getDB.
      destruct (getDB_fails env); [discriminate |]. by rewrite Hnone.
Qed.

End WithServer.

Lemma removeCmdFunc_needs_confirmation_witness :
  world (removeCmdFunc (mkConfig "/srv/yeet") (exampleEnv StatusStopped)
           (mkCmdEnv false false (inr false) (fun _ w => (RemoveDone, w)))
           0 [] ∅ exampleWorld "app") = exampleWorld /\
  published (removeCmdFunc (mkConfig "/srv/yeet") (exampleEnv StatusStopped)
           (mkCmdEnv false false (inr false) (fun _ w => (RemoveDone, w)))
           0 [] ∅ exampleWorld "app") = None.
Proof.
  apply (removeCmdFunc_needs_confirmation (mkConfig "/srv/yeet")
           (exampleEnv StatusStopped)
           (mkCmdEnv false false (inr false) (fun _ w => (RemoveDone, w)))
           0 [] ∅ exampleWorld "app").
  discriminate.
Defined.

Lemma removeCmdFunc_absent_service_witness :
  world (removeCmdFunc (mkConfig "/srv/yeet") (exampleEnv StatusStopped)
           (mkCmdEnv false false (inr true) (fun _ w => (RemoveDone, w)))
           0 [] ∅ exampleWorld "ghost") = exampleWorld.
Proof.
  destruct (removeCmdFunc_absent_service (mkConfig "/srv/yeet")
              (exampleEnv StatusStopped)
              (mkCmdEnv false false (inr true) (fun _ w => (RemoveDone, w)))
              0 [] ∅ exampleWorld "ghost") as [_ Habsent].
  destruct (Habsent eq_refl) as (_ & Hworld & _). exact Hworld.
Defined.

End RemoveCmd.

(** ** Volumes: [mount] and [umount] (pkg/catch/tty.go) *)

Module Mount.
Local Open Scope string_scope.

(** [db.Volume], with the fields [mountCmdFunc] fills in. *)
Record Volume : Type := mkVolume {
  VName : string;
  Src : string;
  Path : string;
  VType : string;
  Opts : string;
  Deps : string
}.

(** The flags of the [mount] command as [GetString] and [GetStringSlice]
    return them. *)
Record Flags : Type := mkFlags {
  flagType : string;
  flagOpts : string;
  flagDeps : list string
}.

Record Config : Type := mkConfig { MountsRoot : string }.

(** What the mounter did on the host, in order. *)
Inductive mountOp : Type :=
| DidMount (v : Volume)
| DidUmount (v : Volume).

(** Modelled from the spec: the volumes of the store document, read as a
    snapshot by [Get] and replaced as a whole by [Set], which writes nothing
    when it fails.  The host side is the record of what the mounter did. *)
Record World : Type := mkWorld {
  volumes : gmap string Volume;
  mountLog : list mountOp
}.

Record Env : Type := mkEnv {
  dbGet_fails : bool;
  dbSet_fails : bool;
  statFails : string -> bool;
  mount_fails : Volume -> bool;
  umount_fails : Volume -> bool
}.

Inductive error : Type :=
| ErrInvalidArgs
| ErrGetDB
| ErrVolumeNotFound (name : string)
| ErrUmount (path : string)
| ErrSaveData
| ErrSourceFormat (source : string)
| ErrTargetSlash
| ErrMountCommand (cmd : string)
| ErrVolumeExists (name : string)
| ErrMount (source target : string).

Inductive output : Type :=
| NoOutput
| Listing (vols : gmap string Volume)
| Mounted (source target : string).

Record result : Type := mkResult {
  err : option error;
  world : World;
  out : output
}.

(** [umountCmdFunc]. *)
Definition umountCmdFunc (env : Env) (w : World) (args : list string) : result :=
  match args with
  | [mountName] =>
      if dbGet_fails env then mkResult (Some ErrGetDB) w NoOutput
      else
        match volumes w !! mountName with
        | None => mkResult (Some (ErrVolumeNotFound mountName)) w NoOutput
        | Some vol =>
            if umount_fails env vol
            then mkResult (Some (ErrUmount (Path vol))) w NoOutput
            else
              let w1 := mkWorld (volumes w) (mountLog w ++ [DidUmount vol])%list in
              if dbSet_fails env then mkResult (Some ErrSaveData) w1 NoOutput
              else mkResult None
                     (mkWorld (delete mountName (volumes w)) (mountLog w1))
                     NoOutput
        end
  | _ => mkResult (Some ErrInvalidArgs) w NoOutput
  end.

(** The name a [mount] call registers the volume under: the second
    argument, or the last element of the path after the colon. *)
Definition mountNameOf (args : list string) (srcPath : string) : string :=
  match args with
  | [_] => Filepath.Base srcPath
  | _ :: name :: _ => name
  | [] => ""
  end.

(** [mountCmdFunc]. *)
Definition mountCmdFunc (cfg : Config) (env : Env) (flags : Flags) (w : World)
    (args : list string) : result :=
  match args with
  | [] =>
      if dbGet_fails env then mkResult (Some ErrGetDB) w NoOutput
      else mkResult None w (Listing (volumes w))
  | _ :: _ :: _ :: _ => mkResult (Some ErrInvalidArgs) w NoOutput
  | source :: _ =>
      let '(_, srcPath, ok) := Strings.Cut source ":" in
      if negb ok then mkResult (Some (ErrSourceFormat source)) w NoOutput
      else
        let mountName := mountNameOf args srcPath in
        if Strings.Contains mountName "/"
        then mkResult (Some ErrTargetSlash) w NoOutput
        else
          let mountType := flagType flags in
          let mountCmd := "/sbin/mount." ++ mountType in
          if statFails env mountCmd
          then mkResult (Some (ErrMountCommand mountCmd)) w NoOutput
          else
            let opts := flagOpts flags in
            let target := Filepath.Join [MountsRoot cfg; mountName] in
            if dbGet_fails env then mkResult (Some ErrGetDB) w NoOutput
            else
              match volumes w !! mountName with
              | Some _ => mkResult (Some (ErrVolumeExists mountName)) w NoOutput
              | None =>
                  let deps := flagDeps flags in
                  let vol := mkVolume mountName source target mountType opts
                               (Strings.Join deps " ") in
                  if dbSet_fails env then mkResult (Some ErrSaveData) w NoOutput
                  else
                    let w1 := mkWorld (<[mountName := vol]> (volumes w))
                                      (mountLog w) in
                    if mount_fails env vol
                    then mkResult (Some (ErrMount source target)) w1 NoOutput
                    else mkResult None
                           (mkWorld (volumes w1) (mountLog w1 ++ [DidMount vol])%list)
                           (Mounted source target)
              end
  end.

(** *** Properties of the volume commands *)

(** The cases of a [mount] call: the store is as it was, or one volume has
    been added under a name that was free. *)
Lemma mountCmdFunc_cases (cfg : Config) (env : Env) (flags : Flags) (w : World)
    (args : list string) :
  (world (mountCmdFunc cfg env flags w args) = w /\
   (err (mountCmdFunc cfg env flags w args) = None -> args = []) /\
   (forall s t, err (mountCmdFunc cfg env flags w args) <> Some (ErrMount s t))) \/
  exists source rest before srcPath vol,
    args = source :: rest /\
    Strings.Cut source ":" = (before, srcPath, true) /\
    Strings.Contains (mountNameOf args srcPath) "/" = false /\
    volumes w !! mountNameOf args srcPath = None /\
    vol = mkVolume (mountNameOf args srcPath) source
            (Filepath.Join [MountsRoot cfg; mountNameOf args srcPath])
            (flagType flags) (flagOpts flags) (Strings.Join (flagDeps flags) " ") /\
    volumes (world (mountCmdFunc cfg env flags w args))
      = <[mountNameOf args srcPath := vol]> (volumes w) /\
    ((err (mountCmdFunc cfg env flags w args) = None /\
      mount_fails env vol = false /\
      mountLog (world (mountCmdFunc cfg env flags w args))
        = (mountLog w ++ [DidMount vol])%list) \/
     (err (mountCmdFunc cfg env flags w args)
        = Some (ErrMount source (Path vol)) /\
      mount_fails env vol = true /\
      mountLog (world (mountCmdFunc cfg env flags w args)) = mountLog w)).
Proof.
  destruct args as [| source rest].
  { left. cbn. destruct (dbGet_fails env); by repeat split. }
  assert (Hshape : rest = [] \/ (exists n, rest = [n]) \/
                   exists n m more, rest = n :: m :: more).
  { destruct rest as [| n [| m more]]; eauto 6. }
  destruct Hshape as [-> | [[n ->] | (n & m & more & ->)]];
    [| | left; by repeat split].
  all: unfold mountCmdFunc;
    destruct (Strings.Cut source ":") as [[before srcPath] ok] eqn:Hcut;
    destruct ok; cbn [negb]; [| left; by repeat split];
    match goal with
    | |- context [mountNameOf ?a srcPath] => set (name := mountNameOf a srcPath)
    end;
    destruct (Strings.Contains name "/") eqn:Hslash; [left; by repeat split |];
    destruct (statFails env _); [left; by repeat split |];
    destruct (dbGet_fails env); [left; by repeat split |];
    destruct (volumes w !! name) eqn:Hfree; [left; by repeat split |];
    destruct (dbSet_fails env); [left; by repeat split |];
    right; eexists source, _, before, srcPath, _;
    split; [reflexivity |]; split; [exact Hcut |];
    split; [exact Hslash |]; split; [exact Hfree |]; split; [reflexivity |];
    destruct (mount_fails env _) eqn:Hmount; cbn;
    (split; [reflexivity |]); [right | left]; by repeat split.
Qed.

(** X25: A [mount] call never touches a registered volume: every volume of the
    store is still there, unchanged, after the call, and what the call may
    add is one volume under a name that was free and has no slash, with the
    path of that name under the mounts root. *)
Theorem mountCmdFunc_adds_one_fresh (cfg : Config) (env : Env) (flags : Flags)
    (w : World) (args : list string) :
  (forall n v, volumes w !! n = Some v ->
     volumes (world (mountCmdFunc cfg env flags w args)) !! n = Some v) /\
  (volumes (world (mountCmdFunc cfg env flags w args)) = volumes w \/
   exists name vol,
     volumes w !! name = None /\
     volumes (world (mountCmdFunc cfg env flags w args))
       = <[name := vol]> (volumes w) /\
     VName vol = name /\
     Strings.Contains name "/" = false /\
     Path vol = Filepath.Join [MountsRoot cfg; name]).
Proof.
  destruct (mountCmdFunc_cases cfg env flags w args)
    as [(-> & _ & _) | (source & rest & before & srcPath & vol & _ & _ & Hslash & Hfree
                  & -> & -> & _)].
  - split; [done | by left].
  - split.
    + intros n v Hn. rewrite lookup_insert_ne; [done |]. congruence.
    + right. eexists _, _. by repeat split.
Qed.

(** X26: A mount that fails leaves its registration behind: the volume is in the
    store although the mounter did nothing, and every later [mount] with the
    same arguments is turned down without a change, whatever the flags and
    the state of the host. *)
Theorem mountCmdFunc_failure_blocks_retry (cfg : Config) (env : Env)
    (flags : Flags) (w : World) (args : list string) (source target : string) :
  err (mountCmdFunc cfg env flags w args) = Some (ErrMount source target) ->
  let w' := world (mountCmdFunc cfg env flags w args) in
  (exists name vol,
     volumes w !! name = None /\ volumes w' !! name = Some vol /\
     Src vol = source /\ Path vol = target) /\
  mountLog w' = mountLog w /\
  forall env' flags',
    world (mountCmdFunc cfg env' flags' w' args) = w' /\
    err (mountCmdFunc cfg env' flags' w' args) <> None.
Proof.
  intros Herr. cbv zeta.
  destruct (mountCmdFunc_cases cfg env flags w args)
    as [(_ & _ & Hnot) | (src & rest & before & srcPath & vol & Hargs & Hcut & Hslash
                      & Hfree & Hvol & Hvols & [[Hok _] | (Hfail & _ & Hlog)])].
  - by apply Hnot in Herr.
  - rewrite Hok in Herr. discriminate.
  - rewrite Hfail in Herr. injection Herr as <- <-.
    split; [| split; [exact Hlog |]].
    + exists (mountNameOf args srcPath), vol.
      rewrite Hvols, lookup_insert_eq.
      repeat split; [exact Hfree | by rewrite Hvol].
    + intros env' flags'.
      assert (Hthere : volumes (world (mountCmdFunc cfg env flags w args))
                         !! mountNameOf args srcPath = Some vol)
        by (by rewrite Hvols, lookup_insert_eq).
      set (w' := world (mountCmdFunc cfg env flags w args)) in *.
      unfold mountCmdFunc. rewrite Hargs in *.
      destruct rest as [| n [| m more]]; [| | by split];
        rewrite Hcut; cbn [negb]; rewrite Hslash;
        destruct (statFails env' _); [by split | | by split |];
        (destruct (dbGet_fails env'); [by split |]);
        rewrite Hthere; by split.
Qed.

Lemma mountCmdFunc_failure_blocks_retry_witness :
  let cfg := mkConfig "/mnt/yeet" in
  let env := mkEnv false false (fun _ => false) (fun _ => true) (fun _ => false) in
  let w := mkWorld ∅ [] in
  let w' := world (mountCmdFunc cfg env (mkFlags "nfs" "defaults" [])
                     w ["nas:/export/media"]) in
  w' = mkWorld {[ "media" := mkVolume "media" "nas:/export/media"
                               "/mnt/yeet/media" "nfs" "defaults" "" ]} [] /\
  world (mountCmdFunc cfg (mkEnv false false (fun _ => false) (fun _ => false)
                             (fun _ => false))
           (mkFlags "nfs" "defaults" []) w' ["nas:/export/media"]) = w'.
Proof.
  intros cfg env w w'. split; [vm_compute; reflexivity |].
  destruct (mountCmdFunc_failure_blocks_retry cfg env (mkFlags "nfs" "defaults" [])
              w ["nas:/export/media"]
              "nas:/export/media" "/mnt/yeet/media"
              ltac:(vm_compute; reflexivity))
    as (_ & _ & Hretry).
  apply Hretry.
Defined.

(** X27: Mount, then unmount: after a mount that succeeded, an unmount of the
    name it registered that succeeds gives back the volumes there were
    before, and the mounter has mounted and unmounted that one volume. *)
Theorem mount_umount_round_trip (cfg : Config) (env : Env) (flags : Flags)
    (w : World) (args : list string) :
  args <> [] ->
  err (mountCmdFunc cfg env flags w args) = None ->
  let w' := world (mountCmdFunc cfg env flags w args) in
  exists name vol,
    volumes w' !! name = Some vol /\
    forall env',
      dbGet_fails env' = false -> umount_fails env' vol = false ->
      dbSet_fails env' = false ->
      err (umountCmdFunc env' w' [name]) = None /\
      volumes (world (umountCmdFunc env' w' [name])) = volumes w /\
      mountLog (world (umountCmdFunc env' w' [name]))
        = (mountLog w ++ [DidMount vol; DidUmount vol])%list.
Proof.
  intros Hargs Herr. cbv zeta.
  destruct (mountCmdFunc_cases cfg env flags w args)
    as [(_ & Hnone & _) | (src & rest & before & srcPath & vol & _ & _ & _
                     & Hfree & _ & Hvols & [(_ & _ & Hlog) | [Hfail _]])].
  - by specialize (Hnone Herr).
  - exists (mountNameOf args srcPath), vol.
    assert (Hthere : volumes (world (mountCmdFunc cfg env flags w args))
                       !! mountNameOf args srcPath = Some vol)
      by (by rewrite Hvols, lookup_insert_eq).
    split; [exact Hthere |]. intros env' Hget Hum Hset.
    unfold umountCmdFunc. rewrite Hget, Hthere, Hum, Hset. cbn.
    split; [reflexivity |]. split.
    + rewrite Hvols. by apply delete_insert_id.
    + rewrite Hlog, <- app_assoc. reflexivity.
  - rewrite Hfail in Herr. discriminate.
Qed.

Lemma mount_umount_round_trip_witness :
  let cfg := mkConfig "/mnt/yeet" in
  let env := mkEnv false false (fun _ => false) (fun _ => false) (fun _ => false) in
  let w := mkWorld {[ "backup" := mkVolume "backup" "nas:/export/backup"
                                    "/mnt/yeet/backup" "nfs" "defaults" "" ]} [] in
  exists name vol,
    volumes (world (mountCmdFunc cfg env (mkFlags "nfs" "ro" ["network.target"])
                      w ["nas:/export/media"; "films"])) !! name = Some vol /\
    volumes (world (umountCmdFunc env
                      (world (mountCmdFunc cfg env
                                (mkFlags "nfs" "ro" ["network.target"])
                                w ["nas:/export/media"; "films"])) [name]))
      = volumes w.
Proof.
  intros cfg env w.
  destruct (mount_umount_round_trip cfg env (mkFlags "nfs" "ro" ["network.target"])
              w ["nas:/export/media"; "films"] ltac:(discriminate)
              ltac:(vm_compute; reflexivity))
    as (name & vol & Hthere & Hback).
  exists name, vol. split; [exact Hthere |].
  by destruct (Hback env eq_refl eq_refl eq_refl) as (_ & Hvols & _).
Defined.

End Mount.

(** ** Flags the command line does not know (package cli) *)

Module Cli.
Local Open Scope string_scope.
Local Open Scope list_scope.

(** [strings.TrimPrefix]. *)
Definition TrimPrefix (s pre : string) : string := fst (Strings.CutPrefix s pre).

(** [strings.SplitN(s, sep, 2)[0]]: the part before the first separator, or
    all of [s]. *)
Definition SplitN2_head (s sep : string) : string := fst (fst (Strings.Cut s sep)).

Section WithFlags.

(** [cmd.Flags().Lookup(name) != nil]. *)
Variable Lookup : string -> bool.

Definition isUndefinedFlag (arg : string) : bool :=
  Strings.HasPrefix arg "--"
  && negb (Lookup (TrimPrefix (SplitN2_head arg "=") "--")).

(** The loop of [MergeUndefinedFlagsIntoArgs], with its two variables. *)
Fixpoint mergeLoop (argsIn : list string) (appendAllAfter : bool)
    (args : list string) : list string :=
  match argsIn with
  | [] => args
  | arg :: rest =>
      if String.eqb arg "--" then args
      else if isUndefinedFlag arg then mergeLoop rest true (args ++ [arg])
      else if appendAllAfter then mergeLoop rest appendAllAfter (args ++ [arg])
      else mergeLoop rest appendAllAfter args
  end.

Definition MergeUndefinedFlagsIntoArgs (argsIn args : list string) : list string :=
  mergeLoop argsIn false args.

Lemma mergeLoop_appending (argsIn args : list string) :
  exists kept ignored,
    argsIn = kept ++ ignored /\
    mergeLoop argsIn true args = args ++ kept /\
    Forall (fun a => a <> "--") kept /\
    (ignored = [] \/ exists i, ignored = "--" :: i).
Proof.
  revert args. induction argsIn as [| arg rest IH]; intros args.
  - exists [], []. repeat split; rewrite ?app_nil_r; auto.
  - cbn [mergeLoop]. destruct (String.eqb_spec arg "--") as [-> | Hne].
    + exists [], ("--" :: rest). repeat split; rewrite ?app_nil_r; eauto.
    + destruct (IH (args ++ [arg])) as (kept & ignored & -> & Hres & Hk & Hi).
      exists (arg :: kept), ignored.
      assert (Hloop : (if isUndefinedFlag arg
                       then mergeLoop (kept ++ ignored) true (args ++ [arg])
                       else mergeLoop (kept ++ ignored) true (args ++ [arg]))
                      = args ++ arg :: kept).
      { rewrite Hres, <- app_assoc. by destruct (isUndefinedFlag arg). }
      repeat split; auto.
Qed.

(** X28: What the merge returns: the given [args], followed by the stretch of
    [argsIn] that starts at its first undefined flag and stops before the
    first [--] (or at the end).  Nothing in front of that flag is taken,
    everything after it is, defined flags and positional arguments alike;
    what was taken before a [--] is returned, not dropped. *)
Theorem MergeUndefinedFlagsIntoArgs_stretch (argsIn args : list string) :
  exists skipped kept ignored,
    argsIn = skipped ++ kept ++ ignored /\
    MergeUndefinedFlagsIntoArgs argsIn args = args ++ kept /\
    Forall (fun a => a <> "--" /\ isUndefinedFlag a = false) skipped /\
    Forall (fun a => a <> "--") kept /\
    (kept = [] \/ exists a k, kept = a :: k /\ isUndefinedFlag a = true) /\
    (ignored = [] \/ exists i, ignored = "--" :: i).
Proof.
  unfold MergeUndefinedFlagsIntoArgs.
  induction argsIn as [| arg rest IH].
  - exists [], [], []. repeat split; rewrite ?app_nil_r; auto.
  - cbn [mergeLoop]. destruct (String.eqb_spec arg "--") as [-> | Hne].
    + exists [], [], ("--" :: rest). repeat split; rewrite ?app_nil_r; eauto.
    + destruct (isUndefinedFlag arg) eqn:Hund.
      * destruct (mergeLoop_appending rest (args ++ [arg]))
          as (kept & ignored & -> & Hres & Hk & Hi).
        exists [], (arg :: kept), ignored. rewrite Hres, <- app_assoc.
        repeat split; eauto.
      * destruct IH as (skipped & kept & ignored & -> & Hres & Hs & Hk & Hf & Hi).
        exists (arg :: skipped), kept, ignored. repeat split; auto.
Qed.

End WithFlags.

End Cli.
